(** * lipimerge: sparse-table merge, validation and verification engine

    A shallow embedding of [lipimerge/internal/utils.py] and
    [lipimerge/internal/xutils.py], and the properties of the sorter, the
    validator, the merger and the consistency verifier.

    Python integers are [Z]; list positions produced by [enumerate] and sheet
    coordinates (which openpyxl requires to be at least 1) are [nat].
    Python exceptions are values of [exn], and a call that may raise returns
    a [result]. *)

From Stdlib Require Import ZArith QArith Qcanon String Ascii List Permutation Sorted Lia.
From Stdlib Require Import SpecFloat.
From stdpp Require Import base option list list_numbers sorting gmap strings.

Local Open Scope Z_scope.

(** ** Cell values

    A cell of a sheet holds [None], a string or a number.  A number, an
    [int] or a finite [float], is held by its exact value, a rational:
    Python's [==] on numbers is then equality.  The infinities and NaN are
    not values of the model. *)
Inductive value : Type :=
| VStr (s : string)
| VNum (q : Qc).

Global Instance value_eq_dec : EqDecision value.
Proof. solve_decision. Defined.

(** ** Exceptions and results *)

(** One item of the [details] list of a [LipimergeException]: the f-strings
    of the source are kept as their format and their arguments. *)
Definition str (s : string) : option value := Some (VStr s).
Definition num (z : Z) : option value := Some (VNum (Q2Qc (inject_Z z))).

Inductive detail : Type :=
| DataRecord (v : option value)
| LipidClass (v : option value)
| LipidClassError
| SourceRecord (v : option value) (row : nat)
| SourceLipidClass (v : option value) (col : nat)
| SourceValue (v : value)
| DestinationRecord (v : option value) (row : nat)
| DestinationLipidClass (v : option value) (col : nat)
| DestinationValue (v : option value).

Inductive exn : Type :=
| IndexError
| TypeError
| AttributeError
| ValueError
| OverflowError
| InvalidCellIndex (function : string) (icol irow max_col max_row : Z)
| ConsistencyError (message : string) (details : list detail).

Inductive result (E A : Type) : Type :=
| Ok (a : A)
| Raise (e : E).
Arguments Ok {E A} a.
Arguments Raise {E A} e.

(** [result E] is a monad: [x ← e; k] runs [k] unless [e] raised. *)
Global Instance result_ret {E} : MRet (result E) := fun _ a => Ok a.
Global Instance result_bind {E} : MBind (result E) := fun _ _ k r =>
  match r with
  | Ok a => k a
  | Raise e => Raise e
  end.

Global Instance value_countable : Countable value :=
  inj_countable'
    (fun v => match v with VStr s => inl s | VNum q => inr q end)
    (fun x => match x with inl s => VStr s | inr q => VNum q end)
    (fun v => match v with VStr _ | VNum _ => eq_refl end).

(** [str.casefold()] and [str.strip()] on ASCII: the letters [A]..[Z] are
    lowered and the ASCII white space is stripped; other bytes are kept. *)
Definition casefold_ascii (a : ascii) : ascii :=
  let n := nat_of_ascii a in
  if ((65 <=? n) && (n <=? 90))%nat then ascii_of_nat (n + 32) else a.

Fixpoint casefold (s : string) : string :=
  match s with
  | EmptyString => EmptyString
  | String a s' => String (casefold_ascii a) (casefold s')
  end.

(** [needle in s] for strings. *)
Fixpoint contains (needle s : string) : bool :=
  String.prefix needle s ||
  match s with
  | EmptyString => false
  | String _ s' => contains needle s'
  end.

Definition is_whitespace (a : ascii) : bool :=
  let n := nat_of_ascii a in
  (((9 <=? n) && (n <=? 13)) || ((28 <=? n) && (n <=? 32)))%nat.

Fixpoint lstrip (s : string) : string :=
  match s with
  | EmptyString => EmptyString
  | String a s' => if is_whitespace a then lstrip s' else s
  end.

Fixpoint string_rev_app (s acc : string) : string :=
  match s with
  | EmptyString => acc
  | String a s' => string_rev_app s' (String a acc)
  end.

Definition strip (s : string) : string :=
  string_rev_app (lstrip (string_rev_app (lstrip s) EmptyString)) EmptyString.

(** [l.index(x)]: the first position holding [x]; [None] stands for
    [ValueError]. *)
Fixpoint list_index {A} `{EqDecision A} (l : list A) (x : A) : option nat :=
  match l with
  | [] => None
  | y :: l' => if decide (y = x) then Some O else S <$> list_index l' x
  end.

(** ** [math.isclose]

    [math.isclose(a, b, rel_tol=1e-12, abs_tol=1e-12)] converts [a], then
    [b], to a C double: a string is a [TypeError], an [int] beyond the range
    of a double an [OverflowError].  The comparison is made on the doubles,
    in IEEE 754 binary64 arithmetic, where every operation is rounded to the
    nearest double, ties to even.  A double is a [spec_float] of 53 bits of
    precision with exponents below 1024. *)
Definition prec64 : Z := 53.
Definition emax64 : Z := 1024.

(** The double nearest to a rational: its numerator divided by its
    denominator, rounded once.  It is the float itself for the value of a
    float, the result of [PyLong_AsDouble] for an integer, and an infinity
    where that function overflows. *)
Definition to_double (q : Qc) : spec_float :=
  match Qnum q with
  | Z0 => S754_zero false
  | Zpos n =>
      SFdiv prec64 emax64 (S754_finite false n 0) (S754_finite false (Qden q) 0)
  | Zneg n =>
      SFdiv prec64 emax64 (S754_finite true n 0) (S754_finite false (Qden q) 0)
  end.

Definition is_infinity (d : spec_float) : bool :=
  match d with
  | S754_infinity _ => true
  | _ => false
  end.

Definition as_double (v : value) : result exn spec_float :=
  match v with
  | VStr _ => Raise TypeError
  | VNum q =>
      let d := to_double q in
      if is_infinity d then Raise OverflowError else Ok d
  end.

(** The literal [1e-12]. *)
Definition tol : spec_float := to_double (Q2Qc (1 # 1000000000000)).

(** The body of [math.isclose] in C:
    [if (a == b) return 1;]
    [if (Py_IS_INFINITY(a) || Py_IS_INFINITY(b)) return 0;]
    [diff = fabs(b - a);]
    [return (((diff <= fabs(rel_tol * b)) || (diff <= fabs(rel_tol * a)))
             || (diff <= abs_tol));] *)
Definition isclose_double (a b : spec_float) : bool :=
  if SFeqb a b then true
  else if is_infinity a || is_infinity b then false
  else
    let diff := SFabs (SFsub prec64 emax64 b a) in
    SFleb diff (SFabs (SFmul prec64 emax64 tol b))
    || SFleb diff (SFabs (SFmul prec64 emax64 tol a))
    || SFleb diff tol.

Definition isclose (a b : value) : result exn bool :=
  match as_double a with
  | Raise e => Raise e
  | Ok a' =>
      match as_double b with
      | Raise e => Raise e
      | Ok b' => Ok (isclose_double a' b')
      end
  end.

(** ** utils.py: the generic in-place sorter *)

Module utils.

Section Generic.
(** [less(container, i, j)] and [swap(container, i, j)] are supplied by the
caller; [swap] mutates the container, so the model passes the
container's new state on. *)
Context {E Container : Type}.
Variable less : Container → Z → Z → result E bool.
Variable swap : Container → Z → Z → result E Container.

(** The [while i <= gt] loop of [partition3]. [None] means that the fuel
ran out before the loop condition became false. *)
Fixpoint partition3_loop (fuel : nat) (container : Container)
(pivot lt i gt : Z) : option (result E (Container * (Z * Z))) :=
if i <=? gt then
match fuel with
| O => None
| S fuel' =>
match less container i pivot with
| Raise e => Some (Raise e)
| Ok true =>
    match swap container lt i with
    | Raise e => Some (Raise e)
    | Ok c' => partition3_loop fuel' c' pivot (lt + 1) (i + 1) gt
    end
| Ok false =>
    match less container pivot i with
    | Raise e => Some (Raise e)
    | Ok true =>
        match swap container i gt with
        | Raise e => Some (Raise e)
        | Ok c' => partition3_loop fuel' c' pivot lt i (gt - 1)
        end
    | Ok false => partition3_loop fuel' container pivot lt (i + 1) gt
    end
end
end
else Some (Ok (container, (lt, gt))).

(** [gt - i] drops by one in every iteration, so [last - begin + 1]
iterations are enough (see [partition3_loop_fuel]). *)
Definition partition3 (container : Container) (last begin : Z)
: option (result E (Container * (Z * Z))) :=
partition3_loop (Z.to_nat (last - begin + 1)) container last begin begin last.

Fixpoint quick_sort_rec (fuel : nat) (container : Container)
(end_ begin : Z) : option (result E Container) :=
let last := end_ - 1 in
if begin <? last then
match fuel with
| O => None
| S fuel' =>
match partition3 container last begin with
| None => None
| Some (Raise e) => Some (Raise e)
| Some (Ok (c1, (lt, gt))) =>
    match quick_sort_rec fuel' c1 lt begin with
    | Some (Ok c2) => quick_sort_rec fuel' c2 end_ (gt + 1)
    | r => r
    end
end
end
else Some (Ok container).

(** The recursion depth is at most the size of the range. *)
Definition quick_sort (container : Container) (end_ : Z) (begin : Z)
: option (result E Container) :=
quick_sort_rec (Z.to_nat (end_ - begin)) container end_ begin.

(** [find_min] of [selection_sort_step]: the body of
[for i in range(begin+1, end)], folded over the range. *)
Definition find_min_body (container : Container) (r : result E Z) (i : Z)
: result E Z :=
res ← r;
b ← less container i res;
Ok (if b : bool then i else res).

Definition find_min (container : Container) (end_ begin : Z) : result E Z :=
foldl (find_min_body container) (Ok begin)
(seqZ (begin + 1) (end_ - (begin + 1))).

Definition selection_sort_step (container : Container) (end_ begin : Z)
: result E Container :=
m ← find_min container end_ begin;
swap container begin m.

(** The caller's loop: one step per [begin] in [begins], the container
threaded through. *)
Definition selection_sort_steps (container : Container) (end_ : Z)
(begins : list Z) : result E Container :=
foldl (fun r b => c ← r; selection_sort_step c end_ b)
(Ok container) begins.
End Generic.

(** *** Python lists as containers (the harness of [test_utils.py]) *)

Section PyList.
Context {K : Type}.

(** [arr[i]], with Python's negative indices and [IndexError]. *)
Definition getitem (arr : list K) (i : Z) : result exn K :=
let n := Z.of_nat (length arr) in
let j := if i <? 0 then i + n else i in
if (0 <=? j) && (j <? n) then
match arr !! Z.to_nat j with
| Some x => Ok x
| None => Raise IndexError
end
else Raise IndexError.

(** [arr[i] = x]. *)
Definition setitem (arr : list K) (i : Z) (x : K) : result exn (list K) :=
let n := Z.of_nat (length arr) in
let j := if i <? 0 then i + n else i in
if (0 <=? j) && (j <? n) then Ok (<[Z.to_nat j := x]> arr)
else Raise IndexError.

Variable ltb : K → K → bool.

(** [def less(arr, i, j): return arr[i] < arr[j]] *)
Definition list_less (arr : list K) (i j : Z) : result exn bool :=
x ← getitem arr i;
y ← getitem arr j;
Ok (ltb x y).

(** [def swap(arr, i, j): arr[i], arr[j] = arr[j], arr[i]; return arr] *)
Definition list_swap (arr : list K) (i j : Z) : result exn (list K) :=
y ← getitem arr j;
x ← getitem arr i;
arr1 ← setitem arr i y;
setitem arr1 j x.

(** [quick_sort(copy, less=less, swap=swap, end=len(copy))] *)
Definition quick_sort_list (arr : list K) : option (result exn (list K)) :=
quick_sort list_less list_swap arr (Z.of_nat (length arr)) 0.

(** [for i in range(len(array)): selection_sort_step(array, less, swap,
end=len(array), begin=i)] *)
Definition selection_sort_list (arr : list K) : result exn (list K) :=
let n := Z.of_nat (length arr) in
selection_sort_steps list_less list_swap arr n (seqZ 0 n).
End PyList.

(** [return False if record is None else "blank" in record.casefold()]; a
    number has no [casefold]. *)
Definition is_blank (record : option value) : result exn bool :=
  match record with
  | None => Ok false
  | Some (VStr s) => Ok (contains "blank" (casefold s))
  | Some (VNum _) => Raise AttributeError
  end.

End utils.


(** ** State and exceptions

    A function that mutates objects and may raise maps the state of those
    objects to their state afterwards (at the [raise], if it raises) and the
    outcome. *)
Definition SE (S A : Type) : Type := S → S * result exn A.

Global Instance SE_ret {S} : MRet (SE S) := fun _ a s => (s, Ok a).
Global Instance SE_bind {S} : MBind (SE S) := fun _ _ k m s =>
  match m s with
  | (s', Ok a) => k a s'
  | (s', Raise e) => (s', Raise e)
  end.

Definition get_state {S} : SE S S := fun s => (s, Ok s).
Definition gets {S A} (f : S → A) : SE S A := fun s => (s, Ok (f s)).
Definition modify {S} (f : S → S) : SE S unit := fun s => (f s, Ok tt).
Definition raise {S A} (e : exn) : SE S A := fun s => (s, Raise e).
Definition lift_result {S A} (r : result exn A) : SE S A := fun s => (s, r).

(** A local variable of type [L] next to the state [S]. *)
Definition lift_fst {S L A} (m : SE S A) : SE (S * L) A := fun s =>
  let '(s', r) := m s.1 in ((s', s.2), r).
Definition get_local {S L} : SE (S * L) L := gets snd.
Definition set_local {S L} (l : L) : SE (S * L) unit := modify (fun s => (s.1, l)).
Definition run_local {S L A} (init : L) (m : SE (S * L) A) : SE S A := fun s =>
  let '(s', r) := m (s, init) in (s'.1, r).

(** [for x in l: body] *)
Fixpoint for_ {S A} (l : list A) (body : A → SE S unit) : SE S unit :=
  match l with
  | [] => mret tt
  | x :: l' => _ ← body x; for_ l' body
  end.

(** A loop whose body may [return]: [Some r] leaves the loop with [r]. *)
Fixpoint for_return {S A R} (l : list A) (body : A → SE S (option R))
    : SE S (option R) :=
  match l with
  | [] => mret None
  | x :: l' =>
      r ← body x;
      match r with
      | Some v => mret (Some v)
      | None => for_return l' body
      end
  end.

(** [l[i]] for a list position. *)
Definition item {S A} (l : list A) (i : nat) : SE S A :=
  match l !! i with
  | Some x => mret x
  | None => raise IndexError
  end.

(** A list comprehension of pure calls that may raise. *)
Fixpoint map_result {E A B} (f : A → result E B) (l : list A) : result E (list B) :=
  match l with
  | [] => Ok []
  | x :: l' =>
      match f x with
      | Raise e => Raise e
      | Ok y =>
          match map_result f l' with
          | Raise e => Raise e
          | Ok ys => Ok (y :: ys)
          end
      end
  end.

(** [[f(x) for x in l]] *)
Fixpoint comprehension {S A B} (l : list A) (f : A → SE S B) : SE S (list B) :=
  match l with
  | [] => mret []
  | x :: l' => y ← f x; ys ← comprehension l' f; mret (y :: ys)
  end.

(** [range(a, b)] over coordinates and [enumerate(l)]. *)
Definition range (a b : nat) : list nat := seq a (b - a).
Definition enumerate {A} (l : list A) : list (nat * A) := zip (seq 0 (length l)) l.

(** ** The tabular store: openpyxl's [Worksheet]

    A worksheet is a dictionary of cell objects keyed by (row, column), both
    at least 1; a cell object holds a value or [None].  Looking a cell up
    creates it, [max_row] and [max_column] are computed from the keys, and
    [append] writes below [_current_row].  The limits of the file format on
    the number of rows and columns and on cell contents are left out. *)
Module openpyxl.

Record Worksheet : Type := mkWorksheet {
  title : string;
  _cells : gmap (nat * nat) (option value);
  _current_row : nat;
}.

(** A cell object, known by its coordinate in its sheet. *)
Definition Cell : Type := (nat * nat)%type.

(** [Workbook.create_sheet(title)] *)
Definition create_sheet (t : string) : Worksheet :=
  {| title := t; _cells := ∅; _current_row := 0 |}.

Definition keys (ws : Worksheet) : list (nat * nat) := (map_to_list (_cells ws)).*1.

Definition max_row (ws : Worksheet) : nat :=
  if decide (_cells ws = ∅) then 1%nat else max_list (fst <$> keys ws).

Definition max_column (ws : Worksheet) : nat :=
  if decide (_cells ws = ∅) then 1%nat else max_list (snd <$> keys ws).

Definition _add_cell (row column : nat) (ws : Worksheet) : Worksheet :=
  {| title := title ws;
     _cells := <[(row, column) := None]> (_cells ws);
     _current_row := Nat.max row (_current_row ws) |}.

Definition _get_cell (row column : nat) (ws : Worksheet) : Worksheet :=
  match _cells ws !! (row, column) with
  | Some _ => ws
  | None => _add_cell row column ws
  end.

Definition set_value (c : Cell) (v : option value) (ws : Worksheet) : Worksheet :=
  {| title := title ws;
     _cells := <[c := v]> (_cells ws);
     _current_row := _current_row ws |}.

(** The value read at a coordinate: [None] where there is no cell. *)
Definition value_at (ws : Worksheet) (row column : nat) : option value :=
  default None (_cells ws !! (row, column)).

(** [ws.cell(row, column, value)] *)
Definition cell (row column : nat) (v : option value) : SE Worksheet Cell :=
  if ((row <? 1) || (column <? 1))%nat then raise ValueError
  else
    _ ← modify (_get_cell row column);
    _ ← match v with
        | Some _ => modify (set_value (row, column) v)
        | None => mret tt
        end;
    mret (row, column).

(** [c.value] and [c.value = v] *)
Definition value_of (c : Cell) : SE Worksheet (option value) :=
  gets (fun ws => value_at ws c.1 c.2).

Definition assign_value (c : Cell) (v : option value) : SE Worksheet unit :=
  modify (set_value c v).

(** [ws.append(iterable)] for a list of values. *)
Definition append (iterable : list (option value)) : SE Worksheet unit :=
  modify (fun ws =>
    let row_idx := (_current_row ws + 1)%nat in
    {| title := title ws;
       _cells := foldl (fun m p => <[(row_idx, p.1) := p.2]> m) (_cells ws)
                       (zip (seq 1 (length iterable)) iterable);
       _current_row := row_idx |}).

(** [ws.iter_rows(min_row, max_row, min_col, max_col)]: the bounds are fixed
    at the call; the rows are produced one at a time by [row_cells]. *)
Record bounds : Type := mkBounds {
  b_rows : list nat;
  b_min_col : nat;
  b_max_col : nat;
}.

Definition or_default (o : option nat) (d : nat) : nat :=
  match o with
  | Some (S n) => S n
  | _ => d
  end.

Definition any_given (l : list (option nat)) : bool :=
  existsb (fun o => match o with Some (S _) => true | _ => false end) l.

Definition iter_rows (min_row max_row' min_col max_col : option nat)
    : SE Worksheet bounds :=
  ws ← get_state;
  if ((_current_row ws =? 0)%nat
      && negb (any_given [min_col; min_row; max_col; max_row']))
  then mret (mkBounds [] 1 0)
  else
    let lo := or_default min_row 1 in
    let hi := or_default max_row' (max_row ws) in
    mret (mkBounds (range lo (hi + 1))
                   (or_default min_col 1) (or_default max_col (max_column ws))).

(** One row of [_cells_by_row]: the cell objects, each looked up, hence
    created where missing. *)
Definition row_cells (b : bounds) (row : nat) : SE Worksheet (list Cell) :=
  comprehension (range (b_min_col b) (b_max_col b + 1))
                (fun column => cell row column None).

(** The same with [values_only=True]: each cell is looked up and read. *)
Definition row_values (b : bounds) (row : nat) : SE Worksheet (list (option value)) :=
  comprehension (range (b_min_col b) (b_max_col b + 1))
                (fun column => c ← cell row column None; value_of c).

(** [ws.iter_cols(min_col=c, max_col=c)], one column: the rows in range. *)
Definition iter_col (column : nat) : SE Worksheet (list nat) :=
  ws ← get_state;
  mret (range 1 (max_row ws + 1)).

Definition col_values (column : nat) (rows : list nat) : SE Worksheet (list (option value)) :=
  comprehension rows (fun row => c ← cell row column None; value_of c).

(** A sheet as [load_workbook] builds it from rows of values: a cell for
    every value that is not empty, and [_current_row] set to [max_row]. *)
Definition load_row (row : nat) (values : list (option value))
    (m : gmap (nat * nat) (option value)) : gmap (nat * nat) (option value) :=
  foldl (fun m p => match p.2 with
                    | Some _ => <[(row, p.1) := p.2]> m
                    | None => m
                    end)
        m (zip (seq 1 (length values)) values).

Definition load_cells (rows : list (list (option value)))
    : gmap (nat * nat) (option value) :=
  foldl (fun m p => load_row p.1 p.2 m) ∅ (zip (seq 1 (length rows)) rows).

Definition load_sheet (t : string) (rows : list (list (option value))) : Worksheet :=
  let m := load_cells rows in
  {| title := t; _cells := m; _current_row := max_row (mkWorksheet t m 0) |}.

(** The rows of a sheet as [iter_rows(values_only=True)] lists them. *)
Definition dump (ws : Worksheet) : list (list (option value)) :=
  (fun r => (fun c => value_at ws r c) <$> seq 1 (max_column ws))
  <$> seq 1 (max_row ws).

End openpyxl.

(** ** xutils.py *)
Module xutils.
Import openpyxl.

(** [next(sheet.iter_rows(min_row=1, max_row=1, values_only=True))] *)
Definition get_class_names : SE Worksheet (list (option value)) :=
  b ← iter_rows (Some 1%nat) (Some 1%nat) None None;
  match b_rows b with
  | row :: _ => row_values b row
  | [] => raise IndexError
  end.

(** [next(sheet.iter_cols(min_col=1, max_col=1, values_only=True))] *)
Definition get_record_names : SE Worksheet (list (option value)) :=
  rows ← iter_col 1;
  col_values 1 rows.

(** *** validate_input *)

(** The messages of the findings, the f-strings with their arguments. *)
Inductive message : Type :=
| NonEmptyA1
| DuplicateClass (cls : value)
| DuplicateRecord (rec : value)
| NonEmptyInBlank
| NonEmptyInEmptyClassColumn
| NonEmptyInEmptyRecordRow
| DuplicateAcrossWorkbooks (cls rec : value).

Inductive InputInconsistency : Type :=
| mkInputInconsistency (msg : message) (workbook sheet : string) (row col : nat).

(** The objects [validate_input] works on: the sheet being validated, the
    [result] list and the [context] dictionary. *)
Record VState : Type := mkVState {
  v_sheet : Worksheet;
  v_result : list InputInconsistency;
  v_context : gmap (string * value * value) (string * nat * nat);
}.

Record VState_all : Type := mkVState_all {
  a_sheets : list Worksheet;
  a_result : list InputInconsistency;
  a_context : gmap (string * value * value) (string * nat * nat);
}.

Definition on_sheet {A} (m : SE Worksheet A) : SE VState A := fun s =>
  let '(ws, r) := m (v_sheet s) in
  (mkVState ws (v_result s) (v_context s), r).

Section validate_input.
Variable name : string.
Variable ignore_blanks : bool.

Definition add (msg : message) (workbook sheet : string) (row col : nat)
: SE VState unit :=
modify (fun s =>
mkVState (v_sheet s)
     (v_result s ++ [mkInputInconsistency msg workbook sheet row col])
     (v_context s)).

Definition sheet_title : SE VState string := gets (fun s => title (v_sheet s)).

(** [sheet.cell(row, col).value] *)
Definition read (row col : nat) : SE VState (option value) :=
on_sheet (c ← cell row col None; value_of c).

(** The duplicate scan of [validate_sheet], written once for the class
names and the record names: they differ in the test [skip] on blanks,
in the message [mk] and in the position [pos] reported for a list
index.  [already_found] is the local variable. *)
Definition duplicates (names : list (option value))
(skip : value → SE VState bool) (mk : value → message)
(pos : nat → nat * nat) : SE VState unit :=
t ← sheet_title;
run_local ([] : list value)
(for_ (enumerate names) (fun '(i, o) =>
 match o with
 | None => mret tt
 | Some x =>
   already_found ← get_local;
   if decide (x ∈ already_found) then mret tt
   else
     b ← lift_fst (skip x);
     if b : bool then mret tt
     else
       for_ (range (i + 1) (length names)) (fun j =>
         if decide (names !! j = Some (Some x)) then
           already_found ← get_local;
           _ ← (if decide (x ∈ already_found) then mret tt
                else
                  _ ← lift_fst (add (mk x) name t (pos i).1 (pos i).2);
                  set_local (already_found ++ [x]));
           lift_fst (add (mk x) name t (pos j).1 (pos j).2)
         else mret tt)
 end)).

Definition validate_sheet : SE VState unit :=
(* .. is lipimerge sheet *)
a1 ← read 1 1;
t ← sheet_title;
match a1 with
| Some _ => add NonEmptyA1 name t 1 1
| None =>
(* .. has no duplicate classes *)
cls_names ← on_sheet get_class_names;
_ ← duplicates cls_names (fun _ => mret false) DuplicateClass
    (fun i => (1, i + 1)%nat);
(* .. has no duplicate records *)
rec_names ← on_sheet get_record_names;
_ ← duplicates rec_names
    (fun rec => if ignore_blanks
                then lift_result (utils.is_blank (Some rec))
                else mret false)
    DuplicateRecord (fun i => (i + 1, 1)%nat);
(* .. all blanks have no values *)
if negb ignore_blanks then
for_ (enumerate rec_names) (fun '(i, rec) =>
  b ← lift_result (utils.is_blank rec);
  if negb b then mret tt
  else
    let irow := (i + 1)%nat in
    ws ← gets v_sheet;
    for_ (range 2 (max_column ws)) (fun icol =>
      v ← read irow icol;
      match v with
      | Some _ => add NonEmptyInBlank name t irow icol
      | None => mret tt
      end))
else mret tt
end.

Definition validate_empty_cells : SE VState unit :=
t ← sheet_title;
ws ← gets v_sheet;
_ ← for_ (range 2 (max_column ws + 1)) (fun icol =>
h ← read 1 icol;
match h with
| Some _ => mret tt
| None =>
    ws ← gets v_sheet;
    for_ (range 2 (max_row ws + 1)) (fun irow =>
      v ← read irow icol;
      match v with
      | Some _ => add NonEmptyInEmptyClassColumn name t irow icol
      | None => mret tt
      end)
end);
ws ← gets v_sheet;
for_ (range 2 (max_row ws + 1)) (fun irow =>
h ← read irow 1;
match h with
| Some _ => mret tt
| None =>
ws ← gets v_sheet;
for_ (range 2 (max_column ws + 1)) (fun icol =>
  v ← read irow icol;
  match v with
  | Some _ => add NonEmptyInEmptyRecordRow name t irow icol
  | None => mret tt
  end)
end).

Definition validate_duplicates_across_workbooks : SE VState unit :=
records ← on_sheet get_record_names;
for_ (enumerate records) (fun '(i, record) =>
match record with
| None => mret tt
| Some rec =>
b ← (if ignore_blanks then lift_result (utils.is_blank record)
     else mret false);
if b : bool then mret tt
else
  classes ← on_sheet get_class_names;
  for_ (enumerate classes) (fun '(j, o) =>
    match o with
    | None => mret tt
    | Some cls =>
        t ← sheet_title;
        let key := (t, rec, cls) in
        context ← gets v_context;
        match context !! key with
        | None =>
            modify (fun s =>
              mkVState (v_sheet s) (v_result s)
                (<[key := (name, (i + 1)%nat, (j + 1)%nat)]> (v_context s)))
        | Some (name0, row0, col0) =>
            if decide (name0 = name) then mret tt
            else
              _ ← add (DuplicateAcrossWorkbooks cls rec) name0 t row0 col0;
              add (DuplicateAcrossWorkbooks cls rec) name t (i + 1) (j + 1)
        end
    end)
end).

(** The body of [for sheet in workbook.worksheets]. *)
Definition validate_one : SE VState unit :=
_ ← validate_sheet;
_ ← validate_empty_cells;
validate_duplicates_across_workbooks.

(** The state of [validate_input]: the sheets of the workbook, the
[result] list and the [context] dictionary, at the return or at the
raise.  The value returned is the [result] list itself. *)
Fixpoint validate_input (workbook : list Worksheet)
(result_ : list InputInconsistency)
(context : gmap (string * value * value) (string * nat * nat))
: VState_all * result exn unit :=
match workbook with
| [] => (mkVState_all [] result_ context, Ok tt)
| sheet :: rest =>
match validate_one (mkVState sheet result_ context) with
| (s, Ok _) =>
  let '(a, o) := validate_input rest (v_result s) (v_context s) in
  (mkVState_all (v_sheet s :: a_sheets a) (a_result a) (a_context a), o)
| (s, Raise e) =>
  (mkVState_all (v_sheet s :: rest) (v_result s) (v_context s), Raise e)
end
end.
End validate_input.

(** *** merge, column_swap, clear_found_values, has_empty_data_set *)

(** The two sheets a merge or a verification works on.  They are distinct
    objects: a sheet is never merged into itself. *)
Record Sheets : Type := mkSheets {
  destination : Worksheet;
  source : Worksheet;
}.

Definition on_destination {A} (m : SE Worksheet A) : SE Sheets A := fun s =>
  let '(ws, r) := m (destination s) in (mkSheets ws (source s), r).

Definition on_source {A} (m : SE Worksheet A) : SE Sheets A := fun s =>
  let '(ws, r) := m (source s) in (mkSheets (destination s) ws, r).

(** [mapper] of [merge].  Its first line, [if str is None: return None],
    tests the builtin [str] and never returns. *)
Definition merge_mapper (dst_classes : list (option value)) (v : option value)
    : SE Worksheet (option nat) :=
  match list_index dst_classes v with
  | Some k => mret (Some (k + 1)%nat)
  | None =>
      ws ← get_state;
      _ ← cell 1 (max_column ws + 1) v;
      ws' ← get_state;
      mret (Some (max_column ws'))
  end.

Definition merge (ignore_blanks : bool) : SE Sheets unit :=
  dst_classes ← on_destination get_class_names;
  src_classes ← on_source get_class_names;
  dst_records ← on_destination get_record_names;
  (* mapper may already modify destination *)
  src_dst_map ← comprehension src_classes
                  (fun v => on_destination (merge_mapper dst_classes v));
  b ← on_source (iter_rows (Some 2%nat) None None None);
  for_ (b_rows b) (fun r =>
    row ← on_source (row_values b r);
    row0 ← item row 0;
    match row0 with
    | None => mret tt
    | Some _ =>
        bl ← (if ignore_blanks then lift_result (utils.is_blank row0)
              else mret false);
        if bl : bool then mret tt
        else
          irow ← match list_index dst_records row0 with
                 | Some k => mret (k + 1)%nat
                 | None =>
                     _ ← on_destination (append [row0]);
                     gets (fun s => max_row (destination s))
                 end;
          for_ (range 1 (length src_dst_map)) (fun icol =>
            m ← item src_dst_map icol;
            match m with
            | None => mret tt
            | Some dcol =>
                v ← item row icol;
                _ ← on_destination (cell irow dcol v);
                mret tt
            end)
    end).

(** [row[k]] for a Python integer [k] that is not negative here. *)
Definition tuple_item {S A} (l : list A) (k : Z) : SE S A :=
  if k <? 0 then item l (Z.to_nat (Z.of_nat (length l) + k))
  else item l (Z.to_nat k).

Definition column_swap (i j : Z) : SE Worksheet unit :=
  ws ← get_state;
  degenerate ←
    (if (0 <? i) && (0 <? j)
        && (max_column ws =? 1)%nat && (max_row ws =? 1)%nat
     then c ← cell 1 1 None; a1 ← value_of c; mret (bool_decide (a1 = None))
     else mret false);
  if degenerate : bool then mret tt
  else
    ws ← get_state;
    if (i <? 1) || (j <? 1) then
      raise (InvalidCellIndex "column_swap" (Z.min i j) 1
               (Z.of_nat (max_column ws)) (Z.of_nat (max_row ws)))
    else if (Z.of_nat (max_column ws) <? i) || (Z.of_nat (max_column ws) <? j) then
      raise (InvalidCellIndex "column_swap" (Z.max i j) 1
               (Z.of_nat (max_column ws)) (Z.of_nat (max_row ws)))
    else if i =? j then mret tt
    else
      b ← iter_rows None None None None;
      for_ (b_rows b) (fun r =>
        row ← row_cells b r;
        cj ← tuple_item row (j - 1);
        vj ← value_of cj;
        ci ← tuple_item row (i - 1);
        vi ← value_of ci;
        ci' ← tuple_item row (i - 1);
        _ ← assign_value ci' vj;
        cj' ← tuple_item row (j - 1);
        assign_value cj' vi).

(** [mapper] of [clear_found_values]: [Raise v] is
    [raise Exception(f"{value}")]. *)
Definition clear_mapper (dst_items : list (option value)) (v : option value)
    : result (option value) (option nat) :=
  match list_index dst_items v with
  | Some k => Ok (Some (k + 1)%nat)
  | None => Raise v
  end.

Definition trim_class_name (v : option value) : result exn (option value) :=
  match v with
  | None => Ok None
  | Some (VStr s) => Ok (Some (VStr (strip s)))
  | Some (VNum _) => Raise AttributeError
  end.

Definition not_found : string := "Source data not found in destination.".
Definition differs : string := "Source data differs for destination.".

(** [sheet.cell(row, col).value] on one of the two sheets. *)
Definition read_cell (row col : nat) : SE Worksheet (option value) :=
  c ← cell row col None; value_of c.

(** The details of the two errors of the cell loop, read from the sheets. *)
Definition cell_details (src_row src_col : nat) (src_val : value)
    (dst_row dst_col : nat) (dst_val : option value) : SE Sheets (list detail) :=
  sr ← on_source (read_cell src_row 1);
  sc ← on_source (read_cell 1 src_col);
  dr ← on_destination (read_cell dst_row 1);
  dc ← on_destination (read_cell 1 dst_col);
  mret [SourceRecord sr src_row; SourceLipidClass sc src_col;
        SourceValue src_val;
        DestinationRecord dr dst_row; DestinationLipidClass dc dst_col;
        DestinationValue dst_val].

(** The body of the inner loop of [clear_found_values], for a source cell
    that is not empty. *)
Definition clear_cell (src_dst_record_map src_dst_classes_map : list (option nat))
    (src_row src_col : nat) (src_val : value) : SE Sheets unit :=
  (* We index openpyxl cells 1-base, but python list maps 0-based *)
  dst_row ← item src_dst_record_map (src_row - 1);
  dst_col ← item src_dst_classes_map (src_col - 1);
  match dst_row, dst_col with
  | Some dst_row, Some dst_col =>
      dst_val ← on_destination (read_cell dst_row dst_col);
      match dst_val with
      | None =>
          ds ← cell_details src_row src_col src_val dst_row dst_col None;
          raise (ConsistencyError not_found ds)
      | Some dv =>
          close ← lift_result (isclose src_val dv);
          if close : bool then
            on_destination (c ← cell dst_row dst_col None; assign_value c None)
          else
            ds ← cell_details src_row src_col src_val dst_row dst_col dst_val;
            raise (ConsistencyError differs ds)
      end
  | _, _ => raise TypeError
  end.

Definition clear_found_values (ignore_blanks trim_class_names : bool)
    : SE Sheets unit :=
  dst_records ← on_destination get_record_names;
  src_records ← on_source get_record_names;
  dst_classes ← on_destination get_class_names;
  src_classes ← on_source get_class_names;
  src_records ←
    (if ignore_blanks then
       lift_result (map_result
         (fun r => b ← utils.is_blank r; Ok (if b : bool then None else r))
         src_records)
     else mret src_records);
  src_dst_record_map ←
    match map_result (clear_mapper dst_records) src_records with
    | Ok m => mret m
    | Raise v => raise (ConsistencyError not_found [DataRecord v])
    end;
  src_dst_classes_map ←
    match map_result
            (fun v =>
               match (if trim_class_names then trim_class_name v else Ok v) with
               | Raise _ => Raise LipidClassError
               | Ok v' =>
                   match clear_mapper dst_classes v' with
                   | Ok k => Ok k
                   | Raise w => Raise (LipidClass w)
                   end
               end)
            src_classes with
    | Ok m => mret m
    | Raise d => raise (ConsistencyError not_found [d])
    end;
  src ← gets source;
  for_ (range 2 (max_row src + 1)) (fun src_row =>
    h ← on_source (read_cell src_row 1);
    match h with
    | None => mret tt
    | Some _ =>
        bl ← (if ignore_blanks then
                h' ← on_source (read_cell src_row 1);
                lift_result (utils.is_blank h')
              else mret false);
        if bl : bool then mret tt
        else
          src ← gets source;
          for_ (range 2 (max_column src + 1)) (fun src_col =>
            src_val ← on_source (read_cell src_row src_col);
            match src_val with
            | None => mret tt
            | Some sv =>
                clear_cell src_dst_record_map src_dst_classes_map
                           src_row src_col sv
            end)
    end).

Definition has_empty_data_set : SE Worksheet bool :=
  b ← iter_rows (Some 2%nat) None None None;
  r ← for_return (b_rows b) (fun r =>
        row ← row_values b r;
        (* row index is now 0-based *)
        mret (if forallb (fun v => bool_decide (v = None)) (drop 1 row)
              then None else Some false));
  mret (default true r).

(** *** equal

    The state is the two sheets; they are two objects. *)
Definition on_first {A} (m : SE Worksheet A) : SE (Worksheet * Worksheet) A :=
  fun s => let '(ws, r) := m s.1 in ((ws, s.2), r).

Definition on_second {A} (m : SE Worksheet A) : SE (Worksheet * Worksheet) A :=
  fun s => let '(ws, r) := m s.2 in ((s.1, ws), r).

Definition equal : SE (Worksheet * Worksheet) bool :=
  s ← get_state;
  if negb (max_row s.1 =? max_row s.2)%nat
     || negb (max_column s.1 =? max_column s.2)%nat
  then mret false
  else
    s ← get_state;
    r ← for_return (range 1 (max_row s.1 + 1)) (fun irow =>
          s ← get_state;
          for_return (range 1 (max_column s.1 + 1)) (fun icol =>
            v1 ← on_first (c ← cell irow icol None; value_of c);
            v2 ← on_second (c ← cell irow icol None; value_of c);
            mret (if decide (v1 = v2) then None else Some false)));
    mret (default true r).

End xutils.

(** ** Notions used in the statements *)

Section order.
Context {K : Type} (ltb : K → K → bool).

(** The order [<=] of keys compared with [<]. *)
Definition key_le (x y : K) : Prop := ltb y x = false.

Global Instance key_le_dec x y : Decision (key_le x y).
Proof. unfold key_le. apply _. Defined.

(** No element of [arr] at a position in [[b, s)] is below the one at [m]. *)
Definition is_min_of (arr : list K) (b s m : nat) : Prop :=
∀ k x y, (b ≤ k < s)%nat → arr !! k = Some x → arr !! m = Some y →
   ltb x y = false.

(** The positions before [b] hold, in order, keys that are at most every
key after them. *)
Definition sorted_upto (arr : list K) (b : nat) : Prop :=
∀ i j x y, (i < j)%nat → (i < b)%nat →
     arr !! i = Some x → arr !! j = Some y → key_le x y.

(** The reference sort: a merge sort by [key_le]. *)
Definition reference_sort (arr : list K) : list K := merge_sort key_le arr.
End order.

(** What holds after running [m] from the state [s]: [Q] of the final state
    and the value if it returns, [R] of the state at the raise and the
    exception if it raises. *)
Definition post {S A} (m : SE S A) (s : S)
    (Q : S → A → Prop) (R : S → exn → Prop) : Prop :=
  match m s with
  | (s', Ok a) => Q s' a
  | (s', Raise e) => R s' e
  end.

(** [m] returns from [s]. *)
Definition returns {S A} (m : SE S A) (s : S) (Q : S → A → Prop) : Prop :=
  post m s Q (fun _ _ => False).

(** Two states of a sheet that read the same: the title, the bounds and the
    value at every coordinate. *)
Definition same_table (ws ws' : openpyxl.Worksheet) : Prop :=
  openpyxl.title ws = openpyxl.title ws'
  ∧ openpyxl.max_row ws = openpyxl.max_row ws'
  ∧ openpyxl.max_column ws = openpyxl.max_column ws'
  ∧ ∀ r c, openpyxl.value_at ws r c = openpyxl.value_at ws' r c.

(** The degenerate table: one row, one column, an empty corner. *)
Definition degenerate (ws : openpyxl.Worksheet) : Prop :=
  openpyxl.max_row ws = 1%nat ∧ openpyxl.max_column ws = 1%nat
  ∧ openpyxl.value_at ws 1 1 = None.

(** The state of a sheet that openpyxl keeps: coordinates start at 1, and
    [_current_row] is the last row with a cell ([0] in a sheet just
    created). *)
Definition well_formed (ws : openpyxl.Worksheet) : Prop :=
  (∀ r c, is_Some (openpyxl._cells ws !! (r, c)) → (1 ≤ r ∧ 1 ≤ c)%nat)
  ∧ (openpyxl._current_row ws = openpyxl.max_row ws
     ∨ (openpyxl._cells ws = ∅ ∧ openpyxl._current_row ws = 0%nat)).

(** A sheet that has a cell: then [_current_row] is [max_row], and [append]
    writes below the last row. *)
Definition settled (ws : openpyxl.Worksheet) : Prop :=
  well_formed ws ∧ openpyxl._cells ws ≠ ∅.

(** The same, as a test that runs on a given sheet. *)
Definition well_formedb (ws : openpyxl.Worksheet) : bool :=
  forallb (fun k => (1 <=? k.1)%nat && (1 <=? k.2)%nat) (openpyxl.keys ws)
  && ((openpyxl._current_row ws =? openpyxl.max_row ws)%nat
      || (bool_decide (openpyxl.keys ws = []) && (openpyxl._current_row ws =? 0)%nat)).

(** The first row and the first column of a sheet, as [get_class_names] and
    [get_record_names] return them. *)
Definition class_names (ws : openpyxl.Worksheet) : list (option value) :=
  (fun c => openpyxl.value_at ws 1 c) <$> range 1 (openpyxl.max_column ws + 1).

Definition record_names (ws : openpyxl.Worksheet) : list (option value) :=
  (fun r => openpyxl.value_at ws r 1) <$> range 1 (openpyxl.max_row ws + 1).

(** *** Tables and their content

    The content of a table is the set of its triples: the name of a record,
    the name of a class, and the value in the cell of that row and that
    column. *)
Definition triple (ws : openpyxl.Worksheet) (rl cl v : value) : Prop :=
  ∃ r c, (2 ≤ r)%nat ∧ (2 ≤ c)%nat
    ∧ openpyxl.value_at ws r 1 = Some rl
    ∧ openpyxl.value_at ws 1 c = Some cl
    ∧ openpyxl.value_at ws r c = Some v.

(** The rows of a source that [merge] and [clear_found_values] take: those
    with a name, which is not the name of a blank sample when blanks are
    ignored. *)
Definition taken (ignore_blanks : bool) (record : option value) : bool :=
  match record with
  | None => false
  | Some _ =>
      if ignore_blanks
      then match utils.is_blank record with
           | Ok b => negb b
           | Raise _ => false
           end
      else true
  end.

(** What the validator asks of one sheet, as far as [merge] and
    [clear_found_values] rely on it. *)
Record valid_table (ignore_blanks : bool) (ws : openpyxl.Worksheet) : Prop := {
  valid_well_formed : well_formed ws;
  valid_corner : openpyxl.value_at ws 1 1 = None;
  valid_classes : ∀ i j x,
    class_names ws !! i = Some (Some x) → class_names ws !! j = Some (Some x) →
    i = j;
  valid_records : ∀ i j x,
    taken ignore_blanks (Some x) = true →
    record_names ws !! i = Some (Some x) → record_names ws !! j = Some (Some x) →
    i = j;
  valid_columns : ∀ r c,
    (2 ≤ c)%nat → openpyxl.value_at ws 1 c = None → taken ignore_blanks (openpyxl.value_at ws r 1) = true →
    openpyxl.value_at ws r c = None;
  valid_strings : ∀ r x,
    ignore_blanks = true → openpyxl.value_at ws r 1 = Some x →
    ∃ s, x = VStr s;
}.

(** Two sheets of two workbooks may not both have a cell for the same
    record and the same class. *)
Definition compatible (ignore_blanks : bool) (a b : openpyxl.Worksheet) : Prop :=
  ∀ rl cl,
    taken ignore_blanks (Some rl) = true →
    Some rl ∈ record_names a → Some cl ∈ class_names a →
    Some rl ∈ record_names b → Some cl ∈ class_names b → False.

(** Two sheets agree when they have the same value wherever both have a
    value for the same taken record and the same class.  Compatible sheets
    agree, and so does a valid sheet with itself. *)
Definition agree (ignore_blanks : bool) (a b : openpyxl.Worksheet) : Prop :=
  ∀ rl cl v v',
    taken ignore_blanks (Some rl) = true →
    triple a rl cl v → triple b rl cl v' → v = v'.

(** A table as [merge] builds it: an empty corner, and names that are all
    there and all different. *)
Record tidy (ws : openpyxl.Worksheet) : Prop := {
  tidy_well_formed : well_formed ws;
  tidy_corner : openpyxl.value_at ws 1 1 = None;
  tidy_classes : ∀ c, (2 ≤ c ≤ openpyxl.max_column ws)%nat → openpyxl.value_at ws 1 c ≠ None;
  tidy_classes_NoDup : NoDup (class_names ws);
  tidy_records : ∀ r, (2 ≤ r ≤ openpyxl.max_row ws)%nat → openpyxl.value_at ws r 1 ≠ None;
  tidy_records_NoDup : NoDup (record_names ws);
}.

(** The two notions as tests that run on a given sheet. *)
Definition has_name (o : option value) : Prop := o ≠ None.

Definition valid_tableb (ignore_blanks : bool) (ws : openpyxl.Worksheet) : bool :=
  well_formedb ws
  && bool_decide (openpyxl.value_at ws 1 1 = None)
  && bool_decide (NoDup (filter has_name (class_names ws)))
  && bool_decide (NoDup (filter (fun o => taken ignore_blanks o = true)
                                (record_names ws)))
  && forallb (fun c =>
       bool_decide (openpyxl.value_at ws 1 c ≠ None)
       || forallb (fun r =>
            negb (taken ignore_blanks (openpyxl.value_at ws r 1))
            || bool_decide (openpyxl.value_at ws r c = None))
            (range 1 (openpyxl.max_row ws + 1)))
       (range 2 (openpyxl.max_column ws + 1))
  && (negb ignore_blanks
      || forallb (fun o => match o with Some (VNum _) => false | _ => true end)
                 (record_names ws)).

Definition tidyb (ws : openpyxl.Worksheet) : bool :=
  well_formedb ws
  && bool_decide (openpyxl.value_at ws 1 1 = None)
  && forallb (fun o => bool_decide (o ≠ None)) (drop 1 (class_names ws))
  && bool_decide (NoDup (class_names ws))
  && forallb (fun o => bool_decide (o ≠ None)) (drop 1 (record_names ws))
  && bool_decide (NoDup (record_names ws)).

(** The value a source has for two names, among the cells before row [nr],
    and before column [nc] in row [nr].  With [nr] beyond the last row it is
    the value of the source for the two names. *)
Definition src_at (ignore_blanks : bool) (a : openpyxl.Worksheet) (nr nc : nat)
    (rl cl : option value) : option value :=
  match rl, cl with
  | Some _, Some _ =>
      match list_index (record_names a) rl, list_index (class_names a) cl with
      | Some i, Some j =>
          if taken ignore_blanks rl
             && ((i + 1 <? nr) || ((i + 1 =? nr) && (j + 1 <? nc)))%nat
          then openpyxl.value_at a (i + 1) (j + 1)
          else None
      | _, _ => None
      end
  | _, _ => None
  end.

(** The names of a destination [d0] after the merge of a source [a]: the
    names it had, then the new ones of the source in their order; [n] is the
    number of rows of the source that have been seen. *)
Definition merged_classes (d0 a : openpyxl.Worksheet) : list (option value) :=
  class_names d0 ++ filter (fun x => x ∉ class_names d0) (class_names a).

Definition merged_records (ignore_blanks : bool) (d0 a : openpyxl.Worksheet) (n : nat)
    : list (option value) :=
  record_names d0
  ++ filter (fun o => taken ignore_blanks o = true ∧ o ∉ record_names d0)
            (take n (record_names a)).

(** The state of [merge] while it maps the classes [l1] of the source to
    the columns [ys] of the destination. *)
Definition header_inv (d0 a : openpyxl.Worksheet) (l1 : list (option value))
    (ys : list (option nat)) (s : xutils.Sheets) : Prop :=
  same_table a (xutils.source s)
  ∧ settled (xutils.destination s)
  ∧ openpyxl.title (xutils.destination s) = openpyxl.title d0
  ∧ class_names (xutils.destination s)
    = class_names d0 ++ filter (fun x => x ∉ class_names d0) l1
  ∧ record_names (xutils.destination s) = record_names d0
  ∧ (∀ r c, (2 ≤ r)%nat →
       openpyxl.value_at (xutils.destination s) r c = openpyxl.value_at d0 r c)
  ∧ Forall2 (fun x y => ∃ k, y = Some (k + 1)%nat
                         ∧ class_names (xutils.destination s) !! k = Some x) l1 ys.

(** The state of [merge] in its loop over the rows of the source: [nrec]
    rows have been looked up among the records, and the cells before row
    [nr], and before column [nc] in row [nr], have been written. *)
Definition merge_inv (ignore_blanks : bool) (d0 a : openpyxl.Worksheet)
    (nrec nr nc : nat) (s : xutils.Sheets) : Prop :=
  same_table a (xutils.source s)
  ∧ settled (xutils.destination s)
  ∧ openpyxl.title (xutils.destination s) = openpyxl.title d0
  ∧ class_names (xutils.destination s) = merged_classes d0 a
  ∧ record_names (xutils.destination s) = merged_records ignore_blanks d0 a nrec
  ∧ ∀ r c, (2 ≤ r)%nat → (2 ≤ c)%nat →
      openpyxl.value_at (xutils.destination s) r c
      = from_option Some (openpyxl.value_at d0 r c)
          (src_at ignore_blanks a nr nc
             (openpyxl.value_at (xutils.destination s) r 1)
             (openpyxl.value_at (xutils.destination s) 1 c)).

(** [d] is [d0] with some of its cells emptied: the same title and bounds,
    and every cell holds the value it had or none. *)
Definition emptied (d0 d : openpyxl.Worksheet) : Prop :=
  openpyxl.title d = openpyxl.title d0
  ∧ openpyxl.max_row d = openpyxl.max_row d0
  ∧ openpyxl.max_column d = openpyxl.max_column d0
  ∧ ∀ r c, openpyxl.value_at d r c = openpyxl.value_at d0 r c
           ∨ openpyxl.value_at d r c = None.

(** The state of [clear_found_values]: the source reads as [a], and the
    destination is [d0] with cells emptied. *)
Definition clearing (d0 a : openpyxl.Worksheet) (s : xutils.Sheets) : Prop :=
  same_table a (xutils.source s)
  ∧ well_formed (xutils.destination s)
  ∧ emptied d0 (xutils.destination s).

(** The column that holds, after columns [i] and [j] are exchanged, what
    column [c] held. *)
Definition swapped_column (i j c : nat) : nat :=
  if decide (c = i) then j else if decide (c = j) then i else c.

(** A sheet whose data cells hold values that [math.isclose] finds close to
    themselves.  These are the numbers that convert to a double; a string
    and an integer beyond the range of a double are not. *)
Definition self_close (ws : openpyxl.Worksheet) : Prop :=
  ∀ r c x, (2 ≤ r)%nat → (2 ≤ c)%nat → openpyxl.value_at ws r c = Some x →
    isclose x x = Ok true.

Definition self_closeb (ws : openpyxl.Worksheet) : bool :=
  forallb (fun k => (k.1 <? 2)%nat || (k.2 <? 2)%nat
                    || match openpyxl.value_at ws k.1 k.2 with
                       | Some x =>
                           match isclose x x with Ok true => true | _ => false end
                       | None => true
                       end)
          (openpyxl.keys ws).

(** A sheet whose data cells hold numbers that convert to a double. *)
Definition numeric (ws : openpyxl.Worksheet) : Prop :=
  ∀ r c x, (2 ≤ r)%nat → (2 ≤ c)%nat → openpyxl.value_at ws r c = Some x →
    ∃ d, as_double x = Ok d.

(** The record names of the source as [clear_found_values] looks them up:
    the names of the records it does not take are replaced by [None]. *)
Definition masked (ignore_blanks : bool) (o : option value) : option value :=
  if taken ignore_blanks o then o else None.

(** The state of [clear_found_values] in its loop over the cells of the
    source [a], for the destination [m] at the call: the cells of [m] for
    which the source has a value before row [nr], and before column [nc]
    in row [nr], are emptied. *)
Definition clear_inv (ignore_blanks : bool) (m a : openpyxl.Worksheet)
    (nr nc : nat) (s : xutils.Sheets) : Prop :=
  same_table a (xutils.source s)
  ∧ well_formed (xutils.destination s)
  ∧ openpyxl.title (xutils.destination s) = openpyxl.title m
  ∧ class_names (xutils.destination s) = class_names m
  ∧ record_names (xutils.destination s) = record_names m
  ∧ ∀ r c, (2 ≤ r)%nat → (2 ≤ c)%nat →
      openpyxl.value_at (xutils.destination s) r c
      = match src_at ignore_blanks a nr nc
                (openpyxl.value_at m r 1) (openpyxl.value_at m 1 c) with
        | Some _ => None
        | None => openpyxl.value_at m r c
        end.

(** What [clear_found_values] needs of a destination [dst] to go through a
    source [src]: the names of the source are names of the destination, and
    for every value of the source the destination has a value that
    [isclose] accepts, for the same names. *)
Record covers (ignore_blanks : bool) (dst src : openpyxl.Worksheet) : Prop := {
  covers_records : ∀ rl,
    taken ignore_blanks (Some rl) = true → Some rl ∈ record_names src →
    Some rl ∈ record_names dst;
  covers_classes : ∀ cl, Some cl ∈ class_names src → Some cl ∈ class_names dst;
  covers_values : ∀ rl cl v,
    taken ignore_blanks (Some rl) = true → triple src rl cl v →
    ∃ v', triple dst rl cl v' ∧ isclose v v' = Ok true;
}.

Definition close_tob (dst : openpyxl.Worksheet) (rl cl v : value) : bool :=
  existsb (fun r =>
    existsb (fun c =>
      bool_decide (openpyxl.value_at dst r 1 = Some rl)
      && bool_decide (openpyxl.value_at dst 1 c = Some cl)
      && match openpyxl.value_at dst r c with
         | Some v' => match isclose v v' with Ok true => true | _ => false end
         | None => false
         end)
      (range 2 (openpyxl.max_column dst + 1)))
    (range 2 (openpyxl.max_row dst + 1)).

Definition coversb (ignore_blanks : bool) (dst src : openpyxl.Worksheet) : bool :=
  forallb (fun o => negb (taken ignore_blanks o) || bool_decide (o ∈ record_names dst))
          (record_names src)
  && forallb (fun o => bool_decide (o = None ∨ o ∈ class_names dst)) (class_names src)
  && forallb (fun r =>
       forallb (fun c =>
         match openpyxl.value_at src r 1, openpyxl.value_at src 1 c,
               openpyxl.value_at src r c with
         | Some rl, Some cl, Some v =>
             negb (taken ignore_blanks (Some rl)) || close_tob dst rl cl v
         | _, _, _ => true
         end)
         (range 2 (openpyxl.max_column src + 1)))
       (range 2 (openpyxl.max_row src + 1)).

(** Two sources with no cell for the same record and the same class. *)
Definition disjoint (ignore_blanks : bool) (a b : openpyxl.Worksheet) : Prop :=
  ∀ rl cl v v',
    taken ignore_blanks (Some rl) = true →
    triple a rl cl v → triple b rl cl v' → False.

Fixpoint pairwise_disjoint (ignore_blanks : bool) (l : list openpyxl.Worksheet)
    : Prop :=
  match l with
  | [] => True
  | a :: rest =>
      Forall (disjoint ignore_blanks a) rest ∧ pairwise_disjoint ignore_blanks rest
  end.

(** The loop of [process] over the inputs, for the sheets of one name:
    [xutils.merge(result[sheet_name], sheet, ignore_blanks)]. *)
Fixpoint merge_all (ignore_blanks : bool) (dst : openpyxl.Worksheet)
    (sources : list openpyxl.Worksheet) : openpyxl.Worksheet * result exn unit :=
  match sources with
  | [] => (dst, Ok tt)
  | src :: rest =>
      match xutils.merge ignore_blanks (xutils.mkSheets dst src) with
      | (s, Ok _) => merge_all ignore_blanks (xutils.destination s) rest
      | (s, Raise e) => (xutils.destination s, Raise e)
      end
  end.

(** The loop of [process] that verifies the output against the inputs, for
    the sheets of one name:
    [xutils.clear_found_values(out[sheet.title], sheet, ignore_blanks, trim_class_names)]. *)
Fixpoint verify_all (ignore_blanks trim_class_names : bool)
    (dst : openpyxl.Worksheet) (sources : list openpyxl.Worksheet)
    : openpyxl.Worksheet * result exn unit :=
  match sources with
  | [] => (dst, Ok tt)
  | src :: rest =>
      match xutils.clear_found_values ignore_blanks trim_class_names
              (xutils.mkSheets dst src) with
      | (s, Ok _) => verify_all ignore_blanks trim_class_names (xutils.destination s) rest
      | (s, Raise e) => (xutils.destination s, Raise e)
      end
  end.

(** The exceptions other than a [ConsistencyError] with exactly one detail,
    which is what a failed lookup of a label raises in
    [clear_found_values]. *)
Definition plain (e : exn) : Prop :=
  match e with
  | ConsistencyError _ [_] => False
  | _ => True
  end.

(** [m] raises nothing but [plain] exceptions. *)
Definition harmless {S A} (m : SE S A) : Prop :=
  ∀ s, post m s (fun _ _ => True) (fun _ e => plain e).

(** [m] keeps the invariant [I], whether it returns or raises. *)
Definition keeps {S A} (I : S → Prop) (m : SE S A) : Prop :=
  ∀ s, I s → post m s (fun s' _ => I s') (fun s' _ => I s').

(** What a validator may do to its state: the sheet still reads as [ws0]
    did, and the [result] list has grown at its end, from [res0]. *)
Definition framed (ws0 : openpyxl.Worksheet)
    (res0 : list xutils.InputInconsistency) (s : xutils.VState) : Prop :=
  same_table ws0 (xutils.v_sheet s) ∧ res0 `prefix_of` xutils.v_result s.

(** What the single detail of a failed lookup says, for the destination
    [dst] as it was at the call. *)
Definition lookup_failed (dst : openpyxl.Worksheet) (d : detail) : Prop :=
  d = LipidClassError
  ∨ (∃ v, d = DataRecord v ∧ v ∉ record_names dst)
  ∨ (∃ v, d = LipidClass v ∧ v ∉ class_names dst).

(** * Properties of the sorter *)

Section list_container.
Context {K : Type}.
Implicit Types (arr : list K) (i j : nat).

Lemma getitem_lookup arr i x :
arr !! i = Some x → utils.getitem arr (Z.of_nat i) = Ok x.
Proof.
  intros Hx. pose proof (lookup_lt_Some _ _ _ Hx) as Hlt.
  unfold utils.getitem.
  destruct (Z.ltb_spec (Z.of_nat i) 0) as [?|_]; [lia|].
  destruct (Z.leb_spec 0 (Z.of_nat i)) as [_|?]; [|lia].
  destruct (Z.ltb_spec (Z.of_nat i) (Z.of_nat (length arr))) as [_|?]; [|lia].
  simpl. by rewrite Nat2Z.id, Hx.
Qed.

Lemma setitem_insert arr i x :
(i < length arr)%nat →
utils.setitem arr (Z.of_nat i) x = Ok (<[i := x]> arr).
Proof.
  intros Hlt. unfold utils.setitem.
  destruct (Z.ltb_spec (Z.of_nat i) 0) as [?|_]; [lia|].
  destruct (Z.leb_spec 0 (Z.of_nat i)) as [_|?]; [|lia].
  destruct (Z.ltb_spec (Z.of_nat i) (Z.of_nat (length arr))) as [_|?]; [|lia].
  simpl. by rewrite Nat2Z.id.
Qed.

Lemma list_less_lookup (ltb : K → K → bool) arr i j x y :
arr !! i = Some x → arr !! j = Some y →
utils.list_less ltb arr (Z.of_nat i) (Z.of_nat j) = Ok (ltb x y).
Proof.
  intros Hx Hy. unfold utils.list_less.
  by rewrite (getitem_lookup _ _ _ Hx), (getitem_lookup _ _ _ Hy).
Qed.

Lemma list_swap_lookup arr i j x y :
arr !! i = Some x → arr !! j = Some y →
utils.list_swap arr (Z.of_nat i) (Z.of_nat j) = Ok (<[j := x]> (<[i := y]> arr)).
Proof.
  intros Hx Hy. unfold utils.list_swap.
  rewrite (getitem_lookup _ _ _ Hx), (getitem_lookup _ _ _ Hy). simpl.
  rewrite setitem_insert by eauto using lookup_lt_Some. simpl.
  rewrite setitem_insert; [done|].
  rewrite length_insert. eauto using lookup_lt_Some.
Qed.
End list_container.

Section swap_lists.
Context {K : Type}.
Implicit Types (arr : list K) (i j : nat).

Lemma insert_head_Permutation arr j x y :
arr !! j = Some y → y :: <[j := x]> arr ≡ₚ x :: arr.
Proof.
  revert j. induction arr as [|a arr IH]; intros [|j] Hj; simplify_eq/=.
  - apply perm_swap.
  - rewrite (perm_swap a y), (IH _ Hj). apply perm_swap.
Qed.

Lemma swap_Permutation arr i j x y :
arr !! i = Some x → arr !! j = Some y →
<[j := x]> (<[i := y]> arr) ≡ₚ arr.
Proof.
  revert i j. induction arr as [|a arr IH]; intros [|i] [|j] Hi Hj;
  simplify_eq/=; try done.
  - by apply insert_head_Permutation.
  - by apply insert_head_Permutation.
  - by rewrite (IH _ _ Hi Hj).
Qed.

(** What a swap leaves at each position. *)
Lemma swap_lookup arr i j x y k :
arr !! i = Some x → arr !! j = Some y →
<[j := x]> (<[i := y]> arr) !! k
= if decide (k = j) then Some x
else if decide (k = i) then Some y else arr !! k.
Proof.
  intros Hi Hj.
  pose proof (lookup_lt_Some _ _ _ Hi). pose proof (lookup_lt_Some _ _ _ Hj).
  destruct (decide (k = j)) as [->|].
  { rewrite list_lookup_insert_eq; [done|by rewrite length_insert]. }
  rewrite list_lookup_insert_ne by done.
  destruct (decide (k = i)) as [->|].
  { by rewrite list_lookup_insert_eq. }
  by rewrite list_lookup_insert_ne.
Qed.
End swap_lists.

Section selection_sort.
Context {K : Type} (ltb : K → K → bool).
Hypothesis ltb_irrefl : ∀ x, ltb x x = false.
Hypothesis ltb_trans : ∀ x y z, ltb x y = true → ltb y z = true → ltb x z = true.
Implicit Types (arr : list K) (b m s c : nat).

Lemma find_min_body_Ok {E C} (less : C → Z → Z → result E bool) cont res i r :
less cont i res = Ok r →
utils.find_min_body less cont (Ok res) i = Ok (if r then i else res).
Proof. intros H. unfold utils.find_min_body. simpl. by rewrite H. Qed.

Lemma find_min_loop arr b c : ∀ s res,
(b ≤ res < s)%nat → (s + c ≤ length arr)%nat → is_min_of ltb arr b s res →
∃ m, foldl (utils.find_min_body (utils.list_less ltb) arr)
       (Ok (Z.of_nat res)) (seqZ (Z.of_nat s) (Z.of_nat c))
 = Ok (Z.of_nat m)
 ∧ (b ≤ m < s + c)%nat ∧ is_min_of ltb arr b (s + c) m.
Proof.
  induction c as [|c IH]; intros s res Hres Hlen Hmin.
  { exists res. rewrite Nat.add_0_r. split_and!; try done; lia. }
  rewrite seqZ_cons by lia. cbn [foldl].
  destruct (lookup_lt_is_Some_2 arr s) as [xs Hxs]; [lia|].
  destruct (lookup_lt_is_Some_2 arr res) as [xr Hxr]; [lia|].
  rewrite (find_min_body_Ok _ _ _ _ _ (list_less_lookup ltb _ _ _ _ _ Hxs Hxr)).
  replace (Z.succ (Z.of_nat s)) with (Z.of_nat (S s)) by lia.
  replace (Z.pred (Z.of_nat (S c))) with (Z.of_nat c) by lia.
  destruct (ltb xs xr) eqn:Hlt.
  - destruct (IH (S s) s) as (m & Hm & ? & ?); [lia|lia| |].
  + intros k x y Hk Hx Hy. rewrite Hxs in Hy. injection Hy as <-.
  destruct (decide (k = s)) as [->|].
  { rewrite Hxs in Hx. injection Hx as <-. apply ltb_irrefl. }
  destruct (ltb x xs) eqn:Hxy; [|done].
  rewrite <-(Hmin k x xr); [|lia|done|done]. symmetry. by eapply ltb_trans.
  + exists m. rewrite Hm.
  replace (s + S c)%nat with (S s + c)%nat by lia.
  split_and!; try done; lia.
  - destruct (IH (S s) res) as (m & Hm & ? & ?); [lia|lia| |].
  + intros k x y Hk Hx Hy. rewrite Hxr in Hy. injection Hy as <-.
  destruct (decide (k = s)) as [->|].
  { rewrite Hxs in Hx. by injection Hx as <-. }
  eapply Hmin; [|done..]. lia.
  + exists m. rewrite Hm.
  replace (s + S c)%nat with (S s + c)%nat by lia.
  split_and!; try done; lia.
Qed.

Lemma find_min_spec arr b :
(b < length arr)%nat →
∃ m, utils.find_min (utils.list_less ltb) arr (Z.of_nat (length arr)) (Z.of_nat b)
 = Ok (Z.of_nat m)
 ∧ (b ≤ m < length arr)%nat ∧ is_min_of ltb arr b (length arr) m.
Proof.
  intros Hb. unfold utils.find_min.
  replace (Z.of_nat b + 1) with (Z.of_nat (S b)) by lia.
  replace (Z.of_nat (length arr) - Z.of_nat (S b))
  with (Z.of_nat (length arr - S b)) by lia.
  destruct (find_min_loop arr b (length arr - S b) (S b) b) as (m & Hm & ? & Hmin).
  - lia.
  - lia.
  - intros k x y Hk Hx Hy. assert (k = b) as -> by lia.
  rewrite Hx in Hy. injection Hy as <-. apply ltb_irrefl.
  - exists m. rewrite Hm. replace (S b + (length arr - S b))%nat with (length arr) in * by lia.
  done.
Qed.
End selection_sort.

Section selection_sort_correct.
Context {K : Type} (ltb : K → K → bool).
Hypothesis ltb_irrefl : ∀ x, ltb x x = false.
Hypothesis ltb_trans : ∀ x y z, ltb x y = true → ltb y z = true → ltb x z = true.
Hypothesis ltb_total : ∀ x y, ltb x y = false → ltb y x = false → x = y.
Implicit Types (arr l : list K) (b m c n : nat).

Local Abbreviation less := (utils.list_less ltb).
Local Abbreviation swap := utils.list_swap.
Local Abbreviation le := (key_le ltb).

Lemma selection_sort_step_spec l b :
(b < length l)%nat →
∃ m x y, l !! b = Some x ∧ l !! m = Some y ∧ (b ≤ m < length l)%nat
∧ is_min_of ltb l b (length l) m
∧ utils.selection_sort_step less swap l (Z.of_nat (length l)) (Z.of_nat b)
= Ok (<[m := x]> (<[b := y]> l)).
Proof.
  intros Hb.
  destruct (find_min_spec ltb ltb_irrefl ltb_trans l b Hb) as (m & Hm & Hrange & Hmin).
  destruct (lookup_lt_is_Some_2 l b) as [x Hx]; [lia|].
  destruct (lookup_lt_is_Some_2 l m) as [y Hy]; [lia|].
  exists m, x, y. split_and!; try done; try lia.
  unfold utils.selection_sort_step. rewrite Hm. simpl.
  by apply list_swap_lookup.
Qed.

Lemma step_sorted_upto l b m x y :
l !! b = Some x → l !! m = Some y → (b ≤ m < length l)%nat →
is_min_of ltb l b (length l) m → sorted_upto ltb l b →
sorted_upto ltb (<[m := x]> (<[b := y]> l)) (S b).
Proof.
  intros Hx Hy Hm Hmin Hs i j xi xj Hij Hi.
  rewrite !(swap_lookup l b m x y) by done.
  intros Hxi Hxj.
  assert (∃ j', (i < j' ∨ (i = b ∧ b ≤ j'))%nat ∧ l !! j' = Some xj) as (j' & Hj' & Hlj).
  { destruct (decide (j = m)) as [->|].
  { exists b. split; [lia|congruence]. }
  destruct (decide (j = b)) as [->|].
  { exists m. split; [lia|congruence]. }
  exists j. split; [lia|done]. }
  destruct (decide (i = b)) as [->|Hne].
  - assert (xi = y) as ->.
  { destruct (decide (b = m)); congruence. }
  unfold key_le. eapply (Hmin j'); [|done..].
  split; [lia|]. by eapply lookup_lt_Some.
  - assert (l !! i = Some xi) as Hli.
  { destruct (decide (i = m)); [lia|done]. }
  eapply (Hs i j'); [lia|lia|done..].
Qed.

Lemma selection_sort_steps_spec n c : ∀ b l,
length l = n → (b + c = n)%nat → sorted_upto ltb l b →
∃ l', utils.selection_sort_steps less swap l (Z.of_nat n)
    (seqZ (Z.of_nat b) (Z.of_nat c)) = Ok l'
  ∧ l' ≡ₚ l ∧ length l' = n ∧ sorted_upto ltb l' n.
Proof.
  unfold utils.selection_sort_steps.
  induction c as [|c IH]; intros b l Hlen Hbc Hs.
  { exists l. assert (b = n) as -> by lia. done. }
  rewrite seqZ_cons by lia. cbn [foldl]. simpl (Ok l ≫= _).
  destruct (selection_sort_step_spec l b) as (m & x & y & Hx & Hy & Hm & Hmin & Hstep);
  [lia|].
  rewrite <-Hlen, Hstep, Hlen.
  replace (Z.succ (Z.of_nat b)) with (Z.of_nat (S b)) by lia.
  replace (Z.pred (Z.of_nat (S c))) with (Z.of_nat c) by lia.
  destruct (IH (S b) (<[m := x]> (<[b := y]> l))) as (l' & Hl' & Hperm & Hlen' & Hs').
  - by rewrite !length_insert.
  - lia.
  - by apply step_sorted_upto.
  - exists l'. split_and!; try done.
  by rewrite Hperm, (swap_Permutation l b m x y).
Qed.

Lemma sorted_upto_StronglySorted l :
sorted_upto ltb l (length l) → StronglySorted le l.
Proof.
  induction l as [|a l IH]; intros Hs; constructor.
  - apply IH. intros i j x y Hij Hi Hx Hy.
  apply (Hs (S i) (S j)); simpl; [lia|lia|done..].
  - apply Forall_lookup. intros j y Hy.
  apply (Hs 0%nat (S j)); simpl; [lia|lia|done..].
Qed.

Global Instance key_le_total : Total le.
Proof.
  intros x y. unfold key_le.
  destruct (ltb y x) eqn:Hyx; [|by left].
  right. destruct (ltb x y) eqn:Hxy; [|done].
  by rewrite <-(ltb_irrefl x), <-(ltb_trans _ _ _ Hxy Hyx).
Qed.

Global Instance key_le_trans : Transitive le.
Proof.
  intros x y z Hxy Hyz. unfold key_le in *.
  destruct (ltb z x) eqn:Hzx; [|done].
  destruct (ltb y z) eqn:E.
  - by rewrite <-Hxy, <-(ltb_trans _ _ _ E Hzx).
  - assert (y = z) as -> by by apply ltb_total.
  congruence.
Qed.

Global Instance key_le_antisymm : AntiSymm (=) le.
Proof. intros x y Hxy Hyx. by apply ltb_total. Qed.
End selection_sort_correct.

(** C8: for keys under a strict total order, one [selection_sort_step] per
    [begin] from [0] to [len - 1], with [end = len], element comparison as
    [less] and element exchange as [swap], returns without raising the
    sequence sorted in ascending order, a permutation of the input equal to
    the reference sort; each step, at any [begin] below the length, exchanges
    the element at [begin] with a minimum of [[begin, end)]; on the empty, a
    single-element or an already sorted sequence the result is the input. *)
Theorem selection_sort_sorts {K : Type} (ltb : K → K → bool)
    (ltb_irrefl : ∀ x, ltb x x = false)
    (ltb_trans : ∀ x y z, ltb x y = true → ltb y z = true → ltb x z = true)
    (ltb_total : ∀ x y, ltb x y = false → ltb y x = false → x = y)
    (arr : list K) :
  (∃ out, utils.selection_sort_list ltb arr = Ok out
          ∧ Sorted (key_le ltb) out ∧ out ≡ₚ arr
          ∧ out = reference_sort ltb arr)
  ∧ (∀ b, (b < length arr)%nat →
       ∃ m x y, arr !! b = Some x ∧ arr !! m = Some y
         ∧ (b ≤ m < length arr)%nat
         ∧ is_min_of ltb arr b (length arr) m
         ∧ utils.selection_sort_step (utils.list_less ltb) utils.list_swap arr
             (Z.of_nat (length arr)) (Z.of_nat b)
           = Ok (<[m := x]> (<[b := y]> arr)))
  ∧ utils.selection_sort_list ltb [] = Ok []
  ∧ (∀ x, utils.selection_sort_list ltb [x] = Ok [x])
  ∧ (Sorted (key_le ltb) arr → utils.selection_sort_list ltb arr = Ok arr).
Proof.
  pose proof (key_le_total ltb ltb_irrefl ltb_trans) as Htot.
  pose proof (key_le_trans ltb ltb_trans ltb_total) as Htr.
  pose proof (key_le_antisymm ltb ltb_total) as Hanti.
  assert (∀ l, ∃ out, utils.selection_sort_list ltb l = Ok out
                      ∧ Sorted (key_le ltb) out ∧ out ≡ₚ l
                      ∧ out = reference_sort ltb l) as Hsort.
  { intros l.
    destruct (selection_sort_steps_spec ltb ltb_irrefl ltb_trans
                (length l) (length l) 0%nat l) as (out & Hout & Hperm & Hlen & Hs);
      [done|done|by intros i j x y _ Hi; lia|].
    assert (Sorted (key_le ltb) out) as Hsorted.
    { apply StronglySorted_Sorted, sorted_upto_StronglySorted. by rewrite Hlen. }
    exists out. split_and!; try done.
    apply (Sorted_unique (key_le ltb)); [done|apply Sorted_merge_sort; apply _|].
    unfold reference_sort. by rewrite merge_sort_Permutation. }
  assert (∀ l, Sorted (key_le ltb) l → utils.selection_sort_list ltb l = Ok l) as Hnoop.
  { intros l Hl. destruct (Hsort l) as (out & -> & Hout & Hperm & _).
    f_equal. by apply (Sorted_unique (key_le ltb)). }
  split_and!.
  - apply Hsort.
  - intros b Hb. by apply selection_sort_step_spec.
  - apply Hnoop. constructor.
  - intros x. apply Hnoop. by repeat constructor.
  - apply Hnoop.
Qed.

Lemma selection_sort_sorts_witness :
  ∃ out, utils.selection_sort_list Z.ltb [3; 1; 2] = Ok out
         ∧ Sorted (key_le Z.ltb) out ∧ out ≡ₚ [3; 1; 2]
         ∧ out = reference_sort Z.ltb [3; 1; 2].
Proof.
  refine (proj1 (selection_sort_sorts Z.ltb _ _ _ [3; 1; 2])).
  - intros x. apply Z.ltb_irrefl.
  - intros x y z. rewrite !Z.ltb_lt. lia.
  - intros x y. rewrite !Z.ltb_ge. lia.
Defined.

(** The arrays of [test_selection_sort]. *)
Example selection_sort_tests :
  Forall (fun arr => utils.selection_sort_list Z.ltb arr = Ok (merge_sort Z.le arr))
    [ []; [1]; [5; 5; 5; 5]; [2; 1]; [3; 1; 2]; [1; 3; 2];
      [1; 2; 3; 4; 5]; [10; 20; 30; 40; 50];
      [5; 4; 3; 2; 1]; [50; 40; 30; 20; 10];
      [3; 6; 8; 10; 1; 2; 1]; [5; 2; 9; 1; 5; 6]; [9; 7; 5; 11; 12; 6; 2];
      [4; -1; 0; -1; 3; 4]; [10; -10; 0; 5; -5; 10] ].
Proof. repeat constructor. Qed.

(** The arrays of [test_quick_sort_default]: all of them come out sorted. *)
Example quick_sort_tests :
  Forall (fun arr => utils.quick_sort_list Z.ltb arr = Some (Ok (merge_sort Z.le arr)))
    [ []; [1]; [5; 5; 5; 5]; [2; 1]; [3; 1; 2]; [1; 3; 2];
      [1; 2; 3; 4; 5]; [10; 20; 30; 40; 50];
      [5; 4; 3; 2; 1]; [50; 40; 30; 20; 10];
      [3; 6; 8; 10; 1; 2; 1]; [5; 2; 9; 1; 5; 6]; [9; 7; 5; 11; 12; 6; 2];
      [4; -1; 0; -1; 3; 4]; [10; -10; 0; 5; -5; 10] ].
Proof. repeat constructor. Qed.

(** C2: [quick_sort] does not always sort.  [partition3] keeps the pivot as
    the index [last]; the first exchange with [gt = last] moves a larger
    element there, and the elements equal to the old pivot that were already
    skipped stay in the middle block.  On [[1; 3; 2; 1]] the call returns
    [[1; 2; 1; 3]]. *)
Theorem quick_sort_not_sorted :
  utils.quick_sort_list Z.ltb [1; 3; 2; 1] = Some (Ok [1; 2; 1; 3])
  ∧ ¬ Sorted Z.le [1; 2; 1; 3]
  ∧ utils.partition3 (utils.list_less Z.ltb) utils.list_swap [1; 3; 2; 1] 3 0
    = Some (Ok ([1; 2; 1; 3], (2, 2))).
Proof.
  split_and!; [done| |done].
  intros H. inversion H as [|? ? H1 _]; subst.
  inversion H1 as [|? ? _ H2]; subst.
  inversion H2 as [|? ? Hle]; subst. lia.
Qed.

(** * Reasoning about stateful code *)

Section post_rules.
Context {S : Type}.
Implicit Types (s : S) (R : S → exn → Prop).

Lemma SE_bind_unfold {A B} (m : SE S A) (k : A → SE S B) s :
(m ≫= k) s = match m s with
         | (s', Ok a) => k a s'
         | (s', Raise e) => (s', Raise e)
         end.
Proof. reflexivity. Qed.

Lemma post_ret {A} (a : A) s (Q : S → A → Prop) R :
Q s a → post (mret a) s Q R.
Proof. done. Qed.

Lemma post_bind {A B} (m : SE S A) (k : A → SE S B) s (Q : S → B → Prop) R :
post m s (fun s' a => post (k a) s' Q R) R → post (m ≫= k) s Q R.
Proof.
  unfold post. rewrite SE_bind_unfold.
  by destruct (m s) as [s' [a|e]].
Qed.

Lemma post_bind_inv {A B} (m : SE S A) (k : A → SE S B) s (Q : S → B → Prop) R :
post (m ≫= k) s Q R → post m s (fun s' a => post (k a) s' Q R) R.
Proof.
  unfold post. rewrite SE_bind_unfold.
  by destruct (m s) as [s' [a|e]].
Qed.

Lemma post_mono {A} (m : SE S A) s (Q Q' : S → A → Prop) R R' :
post m s Q R → (∀ s' a, Q s' a → Q' s' a) → (∀ s' e, R s' e → R' s' e) →
post m s Q' R'.
Proof. unfold post. destruct (m s) as [s' [a|e]]; eauto. Qed.

Lemma post_and {A} (m : SE S A) s (Q Q' : S → A → Prop) R R' :
post m s Q R → post m s Q' R' →
post m s (fun s' a => Q s' a ∧ Q' s' a) (fun s' e => R s' e ∧ R' s' e).
Proof. unfold post. destruct (m s) as [s' [a|e]]; eauto. Qed.

Lemma post_get_state s (Q : S → S → Prop) R : Q s s → post get_state s Q R.
Proof. done. Qed.

Lemma post_gets {A} (f : S → A) s (Q : S → A → Prop) R :
Q s (f s) → post (gets f) s Q R.
Proof. done. Qed.

Lemma post_modify (f : S → S) s (Q : S → unit → Prop) R :
Q (f s) tt → post (modify f) s Q R.
Proof. done. Qed.

Lemma post_raise {A} e s (Q : S → A → Prop) R : R s e → post (raise e) s Q R.
Proof. done. Qed.

Lemma post_lift_result {A} (r : result exn A) s (Q : S → A → Prop) R :
match r with Ok a => Q s a | Raise e => R s e end →
post (lift_result r) s Q R.
Proof. unfold post, lift_result. by destruct r. Qed.

Lemma post_item {A} (l : list A) i s (Q : S → A → Prop) R :
match l !! i with Some x => Q s x | None => R s IndexError end →
post (item l i) s Q R.
Proof. unfold post, item. by destruct (l !! i). Qed.

(** A loop keeps an invariant that its body keeps. *)
Lemma post_for {A} (I : S → Prop) (l : list A) (body : A → SE S unit) s R :
I s →
(∀ x s', x ∈ l → I s' → post (body x) s' (fun s'' _ => I s'') R) →
post (for_ l body) s (fun s' _ => I s') R.
Proof.
  revert s. induction l as [|x l IH]; intros s HI Hbody; simpl.
  { by apply post_ret. }
  apply post_bind. eapply post_mono; [apply (Hbody x s); [left|done]| |done].
  intros s' [] HI'. apply IH; [done|].
  intros y s'' Hy. apply Hbody. by right.
Qed.

(** The same for a loop over positions: the invariant may mention how far
the loop has come. *)
Lemma post_for_prefix {A} (I : list A → S → Prop) (l : list A)
(body : A → SE S unit) s R :
I [] s →
(∀ l1 x l2 s', l = l1 ++ x :: l2 → I l1 s' →
 post (body x) s' (fun s'' _ => I (l1 ++ [x]) s'') R) →
post (for_ l body) s (fun s' _ => I l s') R.
Proof.
  intros HI Hbody.
  assert (∀ l1 l2 s, l = l1 ++ l2 → I l1 s →
        post (for_ l2 body) s (fun s' _ => I l s') R) as H.
  { intros l1 l2. revert l1. induction l2 as [|x l2 IH]; intros l1 s1 Hl H1; simpl.
  { apply post_ret. by rewrite Hl, app_nil_r. }
  apply post_bind. eapply post_mono; [by apply (Hbody l1 x l2)| |done].
  intros s' [] HI'. apply (IH (l1 ++ [x])); [|done].
  by rewrite <-app_assoc. }
  by apply (H [] l).
Qed.

Lemma post_comprehension {A B} (I : S → Prop) (P : A → B → Prop) (l : list A)
(f : A → SE S B) s R :
I s →
(∀ x s', x ∈ l → I s' → post (f x) s' (fun s'' y => I s'' ∧ P x y) R) →
post (comprehension l f) s (fun s' ys => I s' ∧ Forall2 P l ys) R.
Proof.
  revert s. induction l as [|x l IH]; intros s HI Hf; simpl.
  { apply post_ret. by split. }
  apply post_bind. eapply post_mono; [apply (Hf x s); [left|done]| |done].
  intros s' y [HI' HP]. apply post_bind.
  eapply post_mono; [apply IH; [done|]| |done].
  - intros z s'' Hz. apply Hf. by right.
  - intros s'' ys [HI'' Hys]. apply post_ret. split; [done|by constructor].
Qed.

Lemma post_for_return {A B} (I : S → Prop) (P : option B → Prop) (l : list A)
(body : A → SE S (option B)) s R :
I s → P None →
(∀ x s', x ∈ l → I s' → post (body x) s' (fun s'' r => I s'' ∧ P r) R) →
post (for_return l body) s (fun s' r => I s' ∧ P r) R.
Proof.
  revert s. induction l as [|x l IH]; intros s HI HP Hbody; simpl.
  { by apply post_ret. }
  apply post_bind. eapply post_mono; [apply (Hbody x s); [left|done]| |done].
  intros s' [b|] [HI' HP']; simpl.
  - by apply post_ret.
  - apply IH; [done..|]. intros y s'' Hy. apply Hbody. by right.
Qed.
End post_rules.

(** Running on one component of the state. *)
Lemma post_lift_fst {S L A} (m : SE S A) (s : S * L) (Q : S * L → A → Prop) R :
  post m s.1 (fun s' a => Q (s', s.2) a) (fun s' e => R (s', s.2) e) →
  post (lift_fst m) s Q R.
Proof. unfold post, lift_fst. by destruct (m s.1) as [s' [a|e]]. Qed.

Lemma post_run_local {S L A} (init : L) (m : SE (S * L) A) (s : S)
    (Q : S → A → Prop) R :
  post m (s, init) (fun s' a => Q s'.1 a) (fun s' e => R s'.1 e) →
  post (run_local init m) s Q R.
Proof. unfold post, run_local. by destruct (m (s, init)) as [s' [a|e]]. Qed.

(** * The worksheet: bounds and cell access *)

Section worksheet.
Import openpyxl.
Implicit Types (ws : Worksheet) (r c : nat) (v : option value).

Lemma elem_of_keys ws k : k ∈ keys ws ↔ is_Some (_cells ws !! k).
Proof.
  unfold keys. rewrite list_elem_of_fmap. split.
  - intros [[k' x] [-> Hx]]. apply elem_of_map_to_list in Hx. by exists x.
  - intros [x Hx]. exists (k, x). split; [done|]. by apply elem_of_map_to_list.
Qed.

Lemma keys_nil ws : keys ws = [] ↔ _cells ws = ∅.
Proof.
  unfold keys. rewrite <-map_to_list_empty_iff. split.
  - apply fmap_nil_inv.
  - by intros ->.
Qed.

Lemma max_row_ge ws r c : is_Some (_cells ws !! (r, c)) → (r ≤ max_row ws)%nat.
Proof.
  intros Hk. unfold max_row. destruct (decide (_cells ws = ∅)) as [He|_].
  { rewrite He, lookup_empty in Hk. by destruct Hk. }
  apply max_list_elem_of_le, list_elem_of_fmap.
  exists (r, c). split; [done|]. by apply elem_of_keys.
Qed.

Lemma max_column_ge ws r c : is_Some (_cells ws !! (r, c)) → (c ≤ max_column ws)%nat.
Proof.
  intros Hk. unfold max_column. destruct (decide (_cells ws = ∅)) as [He|_].
  { rewrite He, lookup_empty in Hk. by destruct Hk. }
  apply max_list_elem_of_le, list_elem_of_fmap.
  exists (r, c). split; [done|]. by apply elem_of_keys.
Qed.

Lemma max_row_attained ws :
_cells ws ≠ ∅ → ∃ c, is_Some (_cells ws !! (max_row ws, c)).
Proof.
  intros Hne. unfold max_row. destruct (decide (_cells ws = ∅)); [done|].
  assert (fst <$> keys ws ≠ []) as Hl.
  { intros Hn%fmap_nil_inv. by apply keys_nil in Hn. }
  apply max_list_elem_of, list_elem_of_fmap in Hl as ([r c] & Hr & Hk).
  exists c. simpl in Hr. rewrite Hr. by apply elem_of_keys.
Qed.

Lemma max_column_attained ws :
_cells ws ≠ ∅ → ∃ r, is_Some (_cells ws !! (r, max_column ws)).
Proof.
  intros Hne. unfold max_column. destruct (decide (_cells ws = ∅)); [done|].
  assert (snd <$> keys ws ≠ []) as Hl.
  { intros Hn%fmap_nil_inv. by apply keys_nil in Hn. }
  apply max_list_elem_of, list_elem_of_fmap in Hl as ([r c] & Hr & Hk).
  exists r. simpl in Hr. rewrite Hr. by apply elem_of_keys.
Qed.

Lemma max_row_unique ws n :
(∃ c, is_Some (_cells ws !! (n, c))) →
(∀ r c, is_Some (_cells ws !! (r, c)) → (r ≤ n)%nat) →
max_row ws = n.
Proof.
  intros [c Hc] Hub.
  assert (_cells ws ≠ ∅) as Hne.
  { intros He. rewrite He, lookup_empty in Hc. by destruct Hc. }
  destruct (max_row_attained ws Hne) as [c' Hc'].
  pose proof (Hub _ _ Hc'). pose proof (max_row_ge _ _ _ Hc). lia.
Qed.

Lemma max_column_unique ws n :
(∃ r, is_Some (_cells ws !! (r, n))) →
(∀ r c, is_Some (_cells ws !! (r, c)) → (c ≤ n)%nat) →
max_column ws = n.
Proof.
  intros [r Hr] Hub.
  assert (_cells ws ≠ ∅) as Hne.
  { intros He. rewrite He, lookup_empty in Hr. by destruct Hr. }
  destruct (max_column_attained ws Hne) as [r' Hr'].
  pose proof (Hub _ _ Hr'). pose proof (max_column_ge _ _ _ Hr). lia.
Qed.

Lemma max_row_empty ws : _cells ws = ∅ → max_row ws = 1%nat.
Proof. intros He. unfold max_row. by rewrite decide_True. Qed.

Lemma max_column_empty ws : _cells ws = ∅ → max_column ws = 1%nat.
Proof. intros He. unfold max_column. by rewrite decide_True. Qed.

(** The bounds after a cell is put at a coordinate, whatever the rest of the
sheet's state. *)
Lemma max_row_insert ws ws' r c v :
(1 ≤ r)%nat → _cells ws' = <[(r, c) := v]> (_cells ws) →
max_row ws' = Nat.max r (max_row ws).
Proof.
  intros Hr Hc. apply max_row_unique.
  - destruct (decide (_cells ws = ∅)) as [He|Hne].
  + exists c. rewrite (max_row_empty _ He), Nat.max_l, Hc, lookup_insert_eq by done.
  done.
  + destruct (max_row_attained ws Hne) as [c' Hc'].
  destruct (Nat.max_spec r (max_row ws)) as [[? ->]|[? ->]].
  * exists c'. rewrite Hc. rewrite lookup_insert_ne; [done|]. intros [=]. lia.
  * exists c. by rewrite Hc, lookup_insert_eq.
  - intros r' c'. rewrite Hc. intros Hk.
  destruct (decide ((r, c) = (r', c'))) as [[= <- <-]|Hne]; [lia|].
  rewrite lookup_insert_ne in Hk by done.
  pose proof (max_row_ge _ _ _ Hk). lia.
Qed.

Lemma max_column_insert ws ws' r c v :
(1 ≤ c)%nat → _cells ws' = <[(r, c) := v]> (_cells ws) →
max_column ws' = Nat.max c (max_column ws).
Proof.
  intros Hr Hc. apply max_column_unique.
  - destruct (decide (_cells ws = ∅)) as [He|Hne].
  + exists r. rewrite (max_column_empty _ He), Nat.max_l, Hc, lookup_insert_eq by done.
  done.
  + destruct (max_column_attained ws Hne) as [r' Hr'].
  destruct (Nat.max_spec c (max_column ws)) as [[? ->]|[? ->]].
  * exists r'. rewrite Hc. rewrite lookup_insert_ne; [done|]. intros [=]. lia.
  * exists r. by rewrite Hc, lookup_insert_eq.
  - intros r' c'. rewrite Hc. intros Hk.
  destruct (decide ((r, c) = (r', c'))) as [[= <- <-]|Hne]; [lia|].
  rewrite lookup_insert_ne in Hk by done.
  pose proof (max_column_ge _ _ _ Hk). lia.
Qed.

Lemma value_at_in_box ws r c :
value_at ws r c ≠ None → (r ≤ max_row ws ∧ c ≤ max_column ws)%nat.
Proof.
  unfold value_at. intros Hv.
  destruct (_cells ws !! (r, c)) as [x|] eqn:Hk; [|done].
  split; [eapply max_row_ge|eapply max_column_ge]; by rewrite Hk.
Qed.

(** *** [_get_cell]: looking a cell up *)

Lemma title_get_cell ws r c : title (_get_cell r c ws) = title ws.
Proof. unfold _get_cell. by destruct (_cells ws !! (r, c)). Qed.

Lemma value_at_get_cell ws r c r' c' :
value_at (_get_cell r c ws) r' c' = value_at ws r' c'.
Proof.
  unfold _get_cell, value_at. destruct (_cells ws !! (r, c)) eqn:Hk; [done|].
  simpl. destruct (decide ((r, c) = (r', c'))) as [[= <- <-]|Hne].
  - by rewrite lookup_insert_eq, Hk.
  - by rewrite lookup_insert_ne.
Qed.

Lemma cells_get_cell ws r c :
_cells (_get_cell r c ws)
= <[(r, c) := default None (_cells ws !! (r, c))]> (_cells ws).
Proof.
  unfold _get_cell. destruct (_cells ws !! (r, c)) eqn:Hk; simpl; [|done].
  by rewrite insert_id.
Qed.

Lemma max_row_get_cell ws r c :
(1 ≤ r)%nat → max_row (_get_cell r c ws) = Nat.max r (max_row ws).
Proof. intros Hr. eapply max_row_insert; [done|apply cells_get_cell]. Qed.

Lemma max_column_get_cell ws r c :
(1 ≤ c)%nat → max_column (_get_cell r c ws) = Nat.max c (max_column ws).
Proof. intros Hr. eapply max_column_insert; [done|apply cells_get_cell]. Qed.

Lemma lookup_get_cell ws r c : is_Some (_cells (_get_cell r c ws) !! (r, c)).
Proof. rewrite cells_get_cell, lookup_insert_eq. done. Qed.

(** Looking up a cell inside the bounds leaves the table as it reads. *)
Lemma same_table_get_cell ws r c :
(1 ≤ r ≤ max_row ws)%nat → (1 ≤ c ≤ max_column ws)%nat →
same_table ws (_get_cell r c ws).
Proof.
  intros Hr Hc. split_and!.
  - by rewrite title_get_cell.
  - rewrite max_row_get_cell; lia.
  - rewrite max_column_get_cell; lia.
  - intros. by rewrite value_at_get_cell.
Qed.

Global Instance same_table_equiv : Equivalence same_table.
Proof.
  split.
  - by intros ws.
  - intros ws ws' (?&?&?&?). by split_and!.
  - intros w1 w2 w3 (?&?&?&Hv1) (?&?&?&Hv2). split_and!; try congruence.
Qed.
End worksheet.

Section cell_access.
Import openpyxl.
Implicit Types (ws : Worksheet) (r c : nat) (v : option value).

Lemma cell_None_run ws r c :
(1 ≤ r)%nat → (1 ≤ c)%nat →
cell r c None ws = (_get_cell r c ws, Ok (r, c)).
Proof.
  intros Hr Hc. unfold cell.
  destruct (Nat.ltb_spec r 1); [lia|]. destruct (Nat.ltb_spec c 1); [lia|].
  reflexivity.
Qed.

Lemma cell_Some_run ws r c x :
(1 ≤ r)%nat → (1 ≤ c)%nat →
cell r c (Some x) ws = (set_value (r, c) (Some x) (_get_cell r c ws), Ok (r, c)).
Proof.
  intros Hr Hc. unfold cell.
  destruct (Nat.ltb_spec r 1); [lia|]. destruct (Nat.ltb_spec c 1); [lia|].
  reflexivity.
Qed.

Lemma read_cell_run ws r c :
(1 ≤ r)%nat → (1 ≤ c)%nat →
xutils.read_cell r c ws = (_get_cell r c ws, Ok (value_at ws r c)).
Proof.
  intros Hr Hc. unfold xutils.read_cell. rewrite SE_bind_unfold, cell_None_run by done.
  unfold value_of, gets. simpl. by rewrite value_at_get_cell.
Qed.

Lemma post_read_cell ws r c (Q : Worksheet → option value → Prop) R :
(1 ≤ r)%nat → (1 ≤ c)%nat →
Q (_get_cell r c ws) (value_at ws r c) → post (xutils.read_cell r c) ws Q R.
Proof. intros Hr Hc HQ. unfold post. by rewrite read_cell_run. Qed.
End cell_access.

Section reading.
Import openpyxl.
Implicit Types (ws : Worksheet) (r c : nat) (v : option value).

Lemma cell_value_run ws r c :
(1 ≤ r)%nat → (1 ≤ c)%nat →
(k ← cell r c None; value_of k) ws = (_get_cell r c ws, Ok (value_at ws r c)).
Proof. apply read_cell_run. Qed.

(** Reading a cell inside the bounds of a table. *)
Lemma post_read_in_box ws0 ws r c :
same_table ws0 ws →
(1 ≤ r ≤ max_row ws0)%nat → (1 ≤ c ≤ max_column ws0)%nat →
returns (k ← cell r c None; value_of k) ws
(fun ws' v => same_table ws0 ws' ∧ v = value_at ws0 r c).
Proof.
  intros Hs Hr Hc. unfold returns, post. rewrite cell_value_run by lia.
  destruct Hs as (Ht & Hmr & Hmc & Hv). split; [|by rewrite Hv].
  etrans; [by split_and!|]. apply same_table_get_cell; lia.
Qed.

Lemma Forall2_fmap_eq {A B} (f : A → B) (l : list A) (k : list B) :
Forall2 (fun x y => y = f x) l k → k = f <$> l.
Proof. induction 1 as [|x y l k -> _ ->]; by simpl. Qed.

Lemma elem_of_range a b x : x ∈ range a b ↔ (a ≤ x < b)%nat.
Proof. unfold range. rewrite elem_of_seq. lia. Qed.

Lemma length_range a b : length (range a b) = (b - a)%nat.
Proof. unfold range. apply length_seq. Qed.

Lemma post_row_values ws0 ws row lo hi :
same_table ws0 ws →
(1 ≤ row ≤ max_row ws0)%nat → (1 ≤ lo)%nat → (hi ≤ max_column ws0)%nat →
returns (row_values (mkBounds [] lo hi) row) ws
(fun ws' vs => same_table ws0 ws'
             ∧ vs = (fun c => value_at ws0 row c) <$> range lo (hi + 1)).
Proof.
  intros Hs Hrow Hlo Hhi. unfold returns, row_values. cbn [b_min_col b_max_col].
  eapply post_mono with (R := fun _ _ => False);
  [apply (post_comprehension (same_table ws0)
          (fun c v => v = value_at ws0 row c))| |done].
  - done.
  - intros c ws' Hc%elem_of_range Hs'. apply post_read_in_box; [done|lia|lia].
  - intros ws' vs [Hs' Hvs]. split; [done|]. by apply Forall2_fmap_eq.
Qed.

Lemma row_values_bounds b row :
row_values b row = row_values (mkBounds [] (b_min_col b) (b_max_col b)) row.
Proof. done. Qed.

Lemma post_col_values ws0 ws col rows :
same_table ws0 ws →
(1 ≤ col ≤ max_column ws0)%nat →
(∀ r, r ∈ rows → (1 ≤ r ≤ max_row ws0)%nat) →
returns (col_values col rows) ws
(fun ws' vs => same_table ws0 ws'
             ∧ vs = (fun r => value_at ws0 r col) <$> rows).
Proof.
  intros Hs Hcol Hrows. unfold returns, col_values.
  eapply post_mono with (R := fun _ _ => False);
  [apply (post_comprehension (same_table ws0)
          (fun r v => v = value_at ws0 r col))| |done].
  - done.
  - intros r ws' Hr Hs'. apply post_read_in_box; [done|by apply Hrows|lia].
  - intros ws' vs [Hs' Hvs]. split; [done|]. by apply Forall2_fmap_eq.
Qed.

Lemma well_formedb_spec ws : well_formedb ws = true → well_formed ws.
Proof.
  unfold well_formedb, well_formed.
  rewrite andb_true_iff, orb_true_iff, andb_true_iff, forallb_forall.
  rewrite !Nat.eqb_eq, bool_decide_eq_true, keys_nil.
  intros [Hk Hc]. split; [|done].
  intros r c Hrc. apply elem_of_keys, list_elem_of_In, Hk in Hrc.
  apply andb_true_iff in Hrc as [?%Nat.leb_le ?%Nat.leb_le]. done.
Qed.

Lemma well_formed_bounds ws :
well_formed ws → (1 ≤ max_row ws ∧ 1 ≤ max_column ws)%nat.
Proof.
  intros [Hk _]. destruct (decide (_cells ws = ∅)) as [He|Hne].
  { by rewrite max_row_empty, max_column_empty. }
  destruct (max_row_attained ws Hne) as [c Hc].
  destruct (max_column_attained ws Hne) as [r Hr].
  apply Hk in Hc, Hr. lia.
Qed.
End reading.

Section names.
Import openpyxl xutils.
Implicit Types (ws : Worksheet).

Lemma get_class_names_unfold ws :
get_class_names ws = row_values (mkBounds [] 1 (max_column ws)) 1 ws.
Proof.
  unfold get_class_names, iter_rows. rewrite !SE_bind_unfold.
  cbn [get_state any_given existsb negb orb]. by rewrite andb_false_r.
Qed.

Lemma get_record_names_unfold ws :
get_record_names ws = col_values 1 (range 1 (max_row ws + 1)) ws.
Proof. reflexivity. Qed.

Lemma post_get_class_names ws0 ws :
well_formed ws0 → same_table ws0 ws →
returns get_class_names ws
(fun ws' names => same_table ws0 ws' ∧ names = class_names ws0).
Proof.
  intros Hwf Hs. pose proof (well_formed_bounds _ Hwf).
  unfold returns, post. rewrite get_class_names_unfold.
  destruct Hs as (Ht & Hmr & Hmc & Hv). rewrite <-Hmc.
  apply post_row_values; [by split_and!|lia..].
Qed.

Lemma post_get_record_names ws0 ws :
well_formed ws0 → same_table ws0 ws →
returns get_record_names ws
(fun ws' names => same_table ws0 ws' ∧ names = record_names ws0).
Proof.
  intros Hwf Hs. pose proof (well_formed_bounds _ Hwf).
  unfold returns, post. rewrite get_record_names_unfold.
  destruct Hs as (Ht & Hmr & Hmc & Hv). rewrite <-Hmr.
  apply post_col_values; [by split_and!|lia|].
  intros r Hr%elem_of_range. lia.
Qed.

Lemma length_class_names ws : length (class_names ws) = max_column ws.
Proof. unfold class_names. rewrite length_fmap, length_range. lia. Qed.

Lemma length_record_names ws : length (record_names ws) = max_row ws.
Proof. unfold record_names. rewrite length_fmap, length_range. lia. Qed.

Lemma lookup_class_names ws i :
(i < max_column ws)%nat → class_names ws !! i = Some (value_at ws 1 (i + 1)).
Proof.
  intros Hi. unfold class_names, range. rewrite list_lookup_fmap, lookup_seq_lt by lia.
  simpl. by rewrite Nat.add_comm.
Qed.

Lemma lookup_record_names ws i :
(i < max_row ws)%nat → record_names ws !! i = Some (value_at ws (i + 1) 1).
Proof.
  intros Hi. unfold record_names, range. rewrite list_lookup_fmap, lookup_seq_lt by lia.
  simpl. by rewrite Nat.add_comm.
Qed.
End names.

(** * column_swap *)

Section column_swap.
Import openpyxl.
Implicit Types (ws : Worksheet) (i j : Z).

Lemma value_at_Some_get_cell ws r c :
value_at ws r c ≠ None → _get_cell r c ws = ws.
Proof.
  unfold value_at, _get_cell. by destruct (_cells ws !! (r, c)).
Qed.

(** The test of the first [if] of [column_swap], and the state after it. *)
Lemma column_swap_first_test ws i j :
∃ ws' b,
(if (0 <? i) && (0 <? j) && (max_column ws =? 1)%nat && (max_row ws =? 1)%nat
 then c ← cell 1 1 None; a1 ← value_of c; mret (bool_decide (a1 = None))
 else mret false) ws = (ws', Ok b)
∧ (b = true ↔ 0 < i ∧ 0 < j ∧ degenerate ws)
∧ (if b then ws' = _get_cell 1 1 ws else ws' = ws).
Proof.
  destruct (Z.ltb_spec 0 i); cbn [andb];
  [|exists ws, false; split_and!; [done|split; [done|lia]|done]].
  destruct (Z.ltb_spec 0 j); cbn [andb];
  [|exists ws, false; split_and!; [done|split; [done|lia]|done]].
  destruct (Nat.eqb_spec (max_column ws) 1); cbn [andb];
  [|exists ws, false; split_and!; [done|split; [done|by intros (?&?&?&?&?)]|done]].
  destruct (Nat.eqb_spec (max_row ws) 1); cbn [andb];
  [|exists ws, false; split_and!; [done|split; [done|by intros (?&?&?&?&?)]|done]].
  rewrite SE_bind_unfold, cell_None_run by lia.
  rewrite SE_bind_unfold. unfold value_of, gets. cbn [fst snd mret SE_ret].
  rewrite value_at_get_cell.
  destruct (value_at ws 1 1) as [x|] eqn:Hv.
  - exists ws, false. rewrite value_at_Some_get_cell by congruence.
  split_and!; [done| |done].
  split; [done|]. intros (_&_&_&_&Hd). congruence.
  - exists (_get_cell 1 1 ws), true. split_and!; [done| |done].
  split; [|done]. intros _. by split_and!.
Qed.

(** C7: on a table that is not degenerate, [column_swap] raises
[InvalidCellIndex] when [i] or [j] is below 1 or above [max_column], and
the sheet is as it was; on a degenerate table, with [i] and [j] at least
1, it returns, and the sheet reads as before, whatever [i] and [j]. *)
Theorem column_swap_index_check ws i j :
(¬ degenerate ws →
 i < 1 ∨ j < 1 ∨ Z.of_nat (max_column ws) < i ∨ Z.of_nat (max_column ws) < j →
 ∃ icol, xutils.column_swap i j ws
     = (ws, Raise (InvalidCellIndex "column_swap" icol 1
                     (Z.of_nat (max_column ws)) (Z.of_nat (max_row ws)))))
∧ (degenerate ws → 1 ≤ i → 1 ≤ j →
 ∃ ws', xutils.column_swap i j ws = (ws', Ok tt) ∧ same_table ws ws').
Proof.
  destruct (column_swap_first_test ws i j) as (ws1 & b & Hrun & Hb & Hws1).
  unfold xutils.column_swap. rewrite SE_bind_unfold. cbn [get_state].
  rewrite SE_bind_unfold, Hrun. split.
  - intros Hnd Hbad. destruct b.
  { destruct Hb as [Hb _]. destruct Hb as (_&_&?); done. }
  subst ws1. rewrite SE_bind_unfold. cbn [get_state].
  destruct (Z.ltb_spec i 1); cbn [orb]; [by eexists|].
  destruct (Z.ltb_spec j 1); cbn [orb]; [by eexists|].
  destruct (Z.ltb_spec (Z.of_nat (max_column ws)) i); cbn [orb]; [by eexists|].
  destruct (Z.ltb_spec (Z.of_nat (max_column ws)) j); cbn [orb]; [by eexists|].
  lia.
  - intros Hd Hi Hj. destruct b.
  + subst ws1. eexists. split; [done|].
  destruct Hd as (Hr & Hc & _). apply same_table_get_cell; lia.
  + destruct Hb as [_ Hb]. discriminate Hb. split_and!; [lia|lia|done].
Qed.

Lemma column_swap_index_check_witness :
(∃ icol, xutils.column_swap 2 5
       (set_value (1%nat, 2%nat) (Some (VStr "PC")) (create_sheet "Nonempty"))
     = (set_value (1%nat, 2%nat) (Some (VStr "PC")) (create_sheet "Nonempty"),
        Raise (InvalidCellIndex "column_swap" icol 1 2 1)))
∧ (∃ ws', xutils.column_swap 5 5 (create_sheet "Empty") = (ws', Ok tt)
      ∧ same_table (create_sheet "Empty") ws').
Proof.
  split.
  - apply (proj1 (column_swap_index_check
                (set_value (1%nat, 2%nat) (Some (VStr "PC")) (create_sheet "Nonempty"))
                2 5)).
  + intros (_ & Hc & _). vm_compute in Hc. discriminate.
  + right. right. right. vm_compute. reflexivity.
  - apply (proj2 (column_swap_index_check (create_sheet "Empty") 5 5)).
  + split_and!; reflexivity.
  + lia.
  + lia.
Defined.

(** The calls of [test_column_swap_empty_sheet_does_not_raise] and of
[test_column_swap_empty_sheet_raises_InvalidCellIndex_if_index_below_1]. *)
Example column_swap_empty_sheet :
Forall (fun p => (xutils.column_swap p.1 p.2 (create_sheet "Empty")).2 = Ok tt)
[(1, 2); (2, 1); (2, 4); (4, 2); (1, 1); (5, 5)]
∧ Forall (fun p => ∃ k, (xutils.column_swap p.1 p.2 (create_sheet "Empty")).2
                    = Raise (InvalidCellIndex "column_swap" k 1 1 1))
[(0, 0); (-1, 1); (0, 1); (1, 0); (1, -1)].
Proof. split; repeat constructor; by eexists. Qed.
End column_swap.

(** * validate_input on concrete workbooks *)

Section validate_examples.
Import openpyxl xutils.

(** C3: the [return] after the finding for a non-empty A1 leaves
[validate_sheet] only; [validate_input] then still runs
[validate_empty_cells] and [validate_duplicates_across_workbooks] on the
sheet.  A sheet with A1 filled, a data cell under an empty class name in
a row with an empty record name, and one record and one class, gets
three findings, and its labels (A1 among them) enter the context; a
second workbook with the same sheet then gets, after its own three
findings, the findings of duplicates across workbooks. *)
Theorem corner_finding_does_not_skip_the_sheet :
let sheet := load_sheet "S"
[ [str "x"; str "c1"; None];
[str "r1"; None; None];
[None; None; num 1] ] in
let '(a, r) := validate_input "a.xlsx" false [sheet] [] ∅ in
r = Ok tt
∧ a_result a
= [ mkInputInconsistency NonEmptyA1 "a.xlsx" "S" 1 1;
  mkInputInconsistency NonEmptyInEmptyClassColumn "a.xlsx" "S" 3 3;
  mkInputInconsistency NonEmptyInEmptyRecordRow "a.xlsx" "S" 3 3 ]
∧ a_context a !! ("S", VStr "r1", VStr "c1") = Some ("a.xlsx", 2%nat, 2%nat)
∧ (validate_input "b.xlsx" false [sheet] [] (a_context a)).1.(a_result)
= [ mkInputInconsistency NonEmptyA1 "b.xlsx" "S" 1 1;
  mkInputInconsistency NonEmptyInEmptyClassColumn "b.xlsx" "S" 3 3;
  mkInputInconsistency NonEmptyInEmptyRecordRow "b.xlsx" "S" 3 3;
  mkInputInconsistency (DuplicateAcrossWorkbooks (VStr "x") (VStr "x"))
    "a.xlsx" "S" 1 1;
  mkInputInconsistency (DuplicateAcrossWorkbooks (VStr "x") (VStr "x"))
    "b.xlsx" "S" 1 1;
  mkInputInconsistency (DuplicateAcrossWorkbooks (VStr "c1") (VStr "x"))
    "a.xlsx" "S" 1 2;
  mkInputInconsistency (DuplicateAcrossWorkbooks (VStr "c1") (VStr "x"))
    "b.xlsx" "S" 1 2;
  mkInputInconsistency (DuplicateAcrossWorkbooks (VStr "x") (VStr "r1"))
    "a.xlsx" "S" 2 1;
  mkInputInconsistency (DuplicateAcrossWorkbooks (VStr "x") (VStr "r1"))
    "b.xlsx" "S" 2 1;
  mkInputInconsistency (DuplicateAcrossWorkbooks (VStr "c1") (VStr "r1"))
    "a.xlsx" "S" 2 2;
  mkInputInconsistency (DuplicateAcrossWorkbooks (VStr "c1") (VStr "r1"))
    "b.xlsx" "S" 2 2 ].
Proof. vm_compute. split_and!; reflexivity. Qed.

(** C4: the scan of a blank row is [range(2, sheet.max_column)], which stops
before the last column.  A blank row with a value in the last column
gets no finding; the same value one column to the left gets one. *)
Theorem blank_row_last_column_not_checked :
(validate_input "a.xlsx" false
 [load_sheet "S" [ [None; str "c1"; str "c2"];
                 [str "Blank 1"; None; num 5] ]] [] ∅).1.(a_result)
= []
∧ (validate_input "a.xlsx" false
 [load_sheet "S" [ [None; str "c1"; str "c2"];
                   [str "Blank 1"; num 5; None] ]] [] ∅).1.(a_result)
= [ mkInputInconsistency NonEmptyInBlank "a.xlsx" "S" 2 2 ].
Proof. vm_compute. split; reflexivity. Qed.
End validate_examples.

(** * clear_found_values: one cell *)

Section clear_cell.
Import openpyxl xutils.
Implicit Types (s : Sheets) (ws : Worksheet).

Lemma on_destination_read_cell s r c :
(1 ≤ r)%nat → (1 ≤ c)%nat →
on_destination (read_cell r c) s
= (mkSheets (_get_cell r c (destination s)) (source s),
 Ok (value_at (destination s) r c)).
Proof. intros. unfold on_destination. by rewrite read_cell_run. Qed.

Lemma on_source_read_cell s r c :
(1 ≤ r)%nat → (1 ≤ c)%nat →
on_source (read_cell r c) s
= (mkSheets (destination s) (_get_cell r c (source s)),
 Ok (value_at (source s) r c)).
Proof. intros. unfold on_source. by rewrite read_cell_run. Qed.

(** Reading the details of an error changes no value of the destination. *)
Lemma cell_details_run s src_row src_col sv dst_row dst_col dv :
(1 ≤ src_row)%nat → (1 ≤ src_col)%nat → (1 ≤ dst_row)%nat → (1 ≤ dst_col)%nat →
∃ s' ds, cell_details src_row src_col sv dst_row dst_col dv s = (s', Ok ds)
∧ ∀ r c, value_at (destination s') r c = value_at (destination s) r c.
Proof.
  intros. unfold cell_details.
  rewrite SE_bind_unfold, on_source_read_cell by lia.
  rewrite SE_bind_unfold, on_source_read_cell by lia.
  rewrite SE_bind_unfold, on_destination_read_cell by lia.
  rewrite SE_bind_unfold, on_destination_read_cell by lia.
  eexists _, _. split; [reflexivity|].
  intros r c. cbn [destination]. by rewrite !value_at_get_cell.
Qed.

Lemma value_at_set_value ws k v r c :
value_at (set_value k v ws) r c
= if decide (k = (r, c)) then v else value_at ws r c.
Proof.
  unfold value_at, set_value. cbn [_cells]. case_decide as Hk.
  - subst k. by rewrite lookup_insert_eq.
  - by rewrite lookup_insert_ne.
Qed.

Lemma clear_cell_step (rmap cmap : list (option nat))
(src_row src_col : nat) (sv : value) (dst_row dst_col : nat) s :
(1 ≤ dst_row)%nat → (1 ≤ dst_col)%nat →
rmap !! (src_row - 1)%nat = Some (Some dst_row) →
cmap !! (src_col - 1)%nat = Some (Some dst_col) →
clear_cell rmap cmap src_row src_col sv s
= match value_at (destination s) dst_row dst_col with
| None =>
  ds ← cell_details src_row src_col sv dst_row dst_col None;
  raise (ConsistencyError not_found ds)
| Some dv =>
  close ← lift_result (isclose sv dv);
  if close : bool then
    on_destination (c ← cell dst_row dst_col None; assign_value c None)
  else
    ds ← cell_details src_row src_col sv dst_row dst_col (Some dv);
    raise (ConsistencyError differs ds)
end (mkSheets (_get_cell dst_row dst_col (destination s)) (source s)).
Proof.
  intros Hdr Hdc Hr Hc. unfold clear_cell.
  rewrite SE_bind_unfold. unfold item at 1. rewrite Hr. cbn [mret SE_ret].
  rewrite SE_bind_unfold. unfold item at 1. rewrite Hc. cbn [mret SE_ret].
  rewrite SE_bind_unfold, on_destination_read_cell by done.
  by destruct (value_at (destination s) dst_row dst_col).
Qed.

(** C5: [clear_found_values] does not accept equal strings.  Verifying a
sheet against itself, with the string ["n/a"] in its only data cell, raises
[TypeError] and leaves the cell as it is, where the claim has no error and
the cell nulled; against a destination holding another string it raises
[TypeError] too, not the error "differs". *)
Lemma clear_found_values_on_strings :
let src := load_sheet "S" [[None; str "c1"]; [str "r1"; str "n/a"]] in
let dst := load_sheet "S" [[None; str "c1"]; [str "r1"; str "n.d."]] in
(clear_found_values false false (mkSheets src src)).2 = Raise TypeError
∧ value_at (destination (clear_found_values false false (mkSheets src src)).1) 2 2
= str "n/a"
∧ (clear_found_values false false (mkSheets dst src)).2 = Raise TypeError.
Proof. vm_compute. split_and!; reflexivity. Qed.
End clear_cell.

(** * clear_found_values: a failed lookup of a label *)

Create HintDb harmless discriminated.

Lemma harmless_ret {S A} (a : A) : harmless (mret a : SE S A).
Proof. by intros s. Qed.

Lemma harmless_bind {S A B} (m : SE S A) (k : A → SE S B) :
  harmless m → (∀ a, harmless (k a)) → harmless (m ≫= k).
Proof.
  intros Hm Hk s. apply post_bind. eapply post_mono; [apply Hm| |done].
  intros s' a _. apply Hk.
Qed.

Lemma harmless_gets {S A} (f : S → A) : harmless (gets f).
Proof. by intros s. Qed.

Lemma harmless_modify {S} (f : S → S) : harmless (modify f).
Proof. by intros s. Qed.

Lemma harmless_raise {S A} (e : exn) : plain e → harmless (raise e : SE S A).
Proof. by intros He s. Qed.

Lemma harmless_item {S A} (l : list A) i : harmless (item l i : SE S A).
Proof. intros s. apply post_item. by destruct (l !! i). Qed.

Lemma harmless_for {S A} (l : list A) (body : A → SE S unit) :
  (∀ x, harmless (body x)) → harmless (for_ l body).
Proof.
  intros Hbody s.
  apply (post_for (fun _ => True)); [done|]. intros x s' _ _. apply Hbody.
Qed.

Lemma harmless_is_blank {S} (o : option value) :
  harmless (lift_result (utils.is_blank o) : SE S bool).
Proof. intros s. apply post_lift_result. by destruct o as [[]|]. Qed.

Lemma harmless_isclose {S} (x y : value) :
  harmless (lift_result (isclose x y) : SE S bool).
Proof.
  intros s. apply post_lift_result. unfold isclose, as_double.
  destruct x as [?|x]; [done|]. destruct (is_infinity (to_double x)); [done|].
  destruct y as [?|y]; [done|]. by destruct (is_infinity (to_double y)).
Qed.

Lemma harmless_cell r c v : harmless (openpyxl.cell r c v).
Proof.
  intros ws. unfold post, openpyxl.cell.
  destruct ((r <? 1)%nat || (c <? 1)%nat); [done|]. by destruct v.
Qed.

Lemma harmless_value_of k : harmless (openpyxl.value_of k).
Proof. by intros ws. Qed.

Lemma harmless_assign_value k v : harmless (openpyxl.assign_value k v).
Proof. by intros ws. Qed.

Lemma harmless_on_destination {A} (m : SE openpyxl.Worksheet A) :
  harmless m → harmless (xutils.on_destination m).
Proof.
  intros Hm s. specialize (Hm (xutils.destination s)). unfold post, xutils.on_destination in *.
  by destruct (m (xutils.destination s)) as [ws [a|e]].
Qed.

Lemma harmless_on_source {A} (m : SE openpyxl.Worksheet A) :
  harmless m → harmless (xutils.on_source m).
Proof.
  intros Hm s. specialize (Hm (xutils.source s)). unfold post, xutils.on_source in *.
  by destruct (m (xutils.source s)) as [ws [a|e]].
Qed.

#[global] Hint Resolve harmless_ret harmless_gets harmless_modify harmless_item
  harmless_is_blank harmless_isclose harmless_cell harmless_value_of
  harmless_assign_value : harmless.

Ltac harmless :=
  repeat first
    [ progress intros
    | solve [eauto with harmless]
    | apply harmless_bind
    | apply harmless_for
    | apply harmless_on_destination
    | apply harmless_on_source
    | apply harmless_raise; exact I
    | match goal with
      | |- harmless (match ?x with _ => _ end) => destruct x
      | |- harmless (if ?x then _ else _) => destruct x
      | |- harmless (let '(_, _) := ?x in _) => destruct x
      end ].

Lemma harmless_cell_value r c :
  harmless (k ← openpyxl.cell r c None; openpyxl.value_of k).
Proof. harmless. Qed.

Lemma harmless_read_cell r c : harmless (xutils.read_cell r c).
Proof. apply harmless_cell_value. Qed.

(** The errors of the cell loop carry six details. *)
Lemma harmless_details_raise {A} m sr sc sv dr dc dv :
  harmless (ds ← xutils.cell_details sr sc sv dr dc dv;
            (raise (ConsistencyError m ds) : SE xutils.Sheets A)).
Proof.
  intros s. apply post_bind. unfold xutils.cell_details.
  apply post_bind.
  eapply post_mono; [apply harmless_on_source, harmless_read_cell| |done].
  intros s1 x1 _. apply post_bind.
  eapply post_mono; [apply harmless_on_source, harmless_read_cell| |done].
  intros s2 x2 _. apply post_bind.
  eapply post_mono; [apply harmless_on_destination, harmless_read_cell| |done].
  intros s3 x3 _. apply post_bind.
  eapply post_mono; [apply harmless_on_destination, harmless_read_cell| |done].
  intros s4 x4 _. apply post_ret. by apply post_raise.
Qed.

#[global] Hint Resolve harmless_read_cell harmless_details_raise : harmless.

Lemma harmless_clear_cell rmap cmap sr sc sv :
  harmless (xutils.clear_cell rmap cmap sr sc sv).
Proof. unfold xutils.clear_cell. harmless. Qed.

Lemma harmless_comprehension {S A B} (l : list A) (f : A → SE S B) :
  (∀ x, harmless (f x)) → harmless (comprehension l f).
Proof.
  intros Hf s.
  eapply post_mono;
    [apply (post_comprehension (fun _ => True) (fun _ _ => True) l f s
              (fun _ e => plain e)); [done|]| |done].
  - intros x s' _ _. eapply post_mono; [apply Hf| |done]. done.
  - done.
Qed.

Lemma harmless_get_state {S} : harmless (get_state : SE S S).
Proof. by intros s. Qed.

Lemma harmless_col_values c rows : harmless (openpyxl.col_values c rows).
Proof. apply harmless_comprehension. intros r. apply harmless_cell_value. Qed.

Lemma harmless_row_values b r : harmless (openpyxl.row_values b r).
Proof. apply harmless_comprehension. intros c. apply harmless_cell_value. Qed.

#[global] Hint Resolve harmless_get_state harmless_col_values harmless_row_values : harmless.

Lemma harmless_get_record_names : harmless xutils.get_record_names.
Proof. unfold xutils.get_record_names, openpyxl.iter_col. harmless. Qed.

Lemma harmless_get_class_names : harmless xutils.get_class_names.
Proof. unfold xutils.get_class_names, openpyxl.iter_rows. harmless. Qed.


Section lookup_failure.
Import openpyxl xutils.
Implicit Types (s : Sheets) (ws : Worksheet).

Lemma map_result_Raise {E A B} (f : A → result E B) (l : list A) e :
map_result f l = Raise e → ∃ x, x ∈ l ∧ f x = Raise e.
Proof.
  induction l as [|x l IH]; simpl; [done|].
  destruct (f x) as [y|e'] eqn:Hx.
  - destruct (map_result f l) as [ys|e'']; [done|].
  intros [= ->]. destruct IH as (z & Hz & Hfz); [done|].
  exists z. split; [by right|done].
  - intros [= ->]. exists x. split; [by left|done].
Qed.

Lemma list_index_None {A} `{EqDecision A} (l : list A) x :
list_index l x = None ↔ x ∉ l.
Proof.
  induction l as [|y l IH]; simpl.
  - split; [|done]. intros _. apply not_elem_of_nil.
  - rewrite not_elem_of_cons. case_decide as Hy.
  + split; [done|]. intros [? _]. congruence.
  + rewrite fmap_None, IH. naive_solver.
Qed.

Lemma post_on_destination {A} (m : SE Worksheet A) s
(Q : Sheets → A → Prop) R :
post m (destination s) (fun ws a => Q (mkSheets ws (source s)) a)
                   (fun ws e => R (mkSheets ws (source s)) e) →
post (on_destination m) s Q R.
Proof. unfold post, on_destination. by destruct (m (destination s)) as [ws [a|e]]. Qed.

Lemma post_on_source {A} (m : SE Worksheet A) s
(Q : Sheets → A → Prop) R :
post m (source s) (fun ws a => Q (mkSheets (destination s) ws) a)
              (fun ws e => R (mkSheets (destination s) ws) e) →
post (on_source m) s Q R.
Proof. unfold post, on_source. by destruct (m (source s)) as [ws [a|e]]. Qed.

(** C10: when [clear_found_values] raises the error of a label of the source
that is not among the labels of the destination (or of a class name that
cannot be trimmed), the destination reads as it did at the call: the two
maps are built before the first cell is nulled. *)
Theorem clear_found_values_lookup_failure_atomic
(ignore_blanks trim_class_names : bool) s s' (d : detail) :
well_formed (destination s) →
clear_found_values ignore_blanks trim_class_names s
= (s', Raise (ConsistencyError not_found [d])) →
same_table (destination s) (destination s')
∧ lookup_failed (destination s) d.
Proof.
  intros Hwf Hrun.
  set (dst0 := destination s).
  enough (post (clear_found_values ignore_blanks trim_class_names) s
        (fun _ _ => True)
        (fun s' e => ∀ d, e = ConsistencyError not_found [d] →
           same_table dst0 (destination s') ∧ lookup_failed dst0 d)) as Hpost.
  { unfold post in Hpost. rewrite Hrun in Hpost. by apply Hpost. }
  assert (∀ s' e, plain e → ∀ d, e = ConsistencyError not_found [d] →
        same_table dst0 (destination s') ∧ lookup_failed dst0 d) as Hplain.
  { intros ? ? He ? ->. destruct He. }
  unfold clear_found_values.
  (* dst_records *)
  apply post_bind, post_on_destination.
  eapply post_mono; [apply (post_get_record_names dst0); [done|done]| |done].
  intros ws1 dst_records [Hs1 ->]. cbn beta.
  (* src_records *)
  apply post_bind, post_on_source.
  eapply post_mono; [apply harmless_get_record_names| |by eauto].
  intros wsa src_records _. cbn [destination source].
  (* dst_classes *)
  apply post_bind, post_on_destination. cbn [destination source].
  eapply post_mono; [apply (post_get_class_names dst0); [done|done]| |done].
  intros ws2 dst_classes [Hs2 ->]. cbn beta.
  (* src_classes *)
  apply post_bind, post_on_source.
  eapply post_mono; [apply harmless_get_class_names| |by eauto].
  intros wsb src_classes _. cbn [destination source].
  (* blanks *)
  apply post_bind.
  eapply post_mono with (Q := fun s' _ => destination s' = ws2)
                    (R := fun _ e => e = AttributeError).
  { destruct ignore_blanks; [|by apply post_ret].
  apply post_lift_result.
  destruct (map_result _ src_records) as [l|e] eqn:Hmap; [done|].
  apply map_result_Raise in Hmap as (x & _ & Hx).
  destruct x as [[]|]; simpl in Hx; by try injection Hx as <-. }
  2:{ by intros ? ? ->. }
  intros s3 src_records' Hs3.
  (* the record map *)
  apply post_bind.
  destruct (map_result (clear_mapper (record_names dst0)) src_records')
  as [rmap|v] eqn:Hrmap.
  2:{ apply post_raise. intros d' [= <-]. rewrite Hs3. split; [done|].
  right. left. exists v. split; [done|].
  apply map_result_Raise in Hrmap as (x & _ & Hx). unfold clear_mapper in Hx.
  destruct (list_index (record_names dst0) x) eqn:Hi; [done|].
  injection Hx as <-. by apply list_index_None. }
  apply post_ret.
  (* the class map *)
  apply post_bind.
  destruct (map_result _ src_classes) as [cmap|d'] eqn:Hcmap.
  2:{ apply post_raise. intros d'' [= <-]. rewrite Hs3. split; [done|].
  apply map_result_Raise in Hcmap as (x & _ & Hx).
  destruct (if trim_class_names then trim_class_name x else Ok x) as [x'|];
    [|injection Hx as <-; by left].
  unfold clear_mapper in Hx.
  destruct (list_index (class_names dst0) x') eqn:Hi; [done|].
  injection Hx as <-. right. right. exists x'. split; [done|].
  by apply list_index_None. }
  apply post_ret.
  (* the cell loop *)
  eapply post_mono with (Q := fun _ _ => True); [|done|apply Hplain].
  pose proof harmless_clear_cell.
  match goal with |- post ?m _ _ _ => enough (harmless m) as Hh by apply Hh end.
  harmless.
Qed.

(** A source with the record ["r2"], which the destination does not have. *)
Lemma clear_found_values_lookup_failure_atomic_witness :
let dst := load_sheet "S" [[None; str "c1"]; [str "r1"; str "a"]] in
let src := load_sheet "S" [[None; str "c1"]; [str "r2"; str "a"]] in
same_table dst (destination (clear_found_values false false (mkSheets dst src)).1)
∧ lookup_failed dst (DataRecord (str "r2")).
Proof.
  intros dst src.
  apply (clear_found_values_lookup_failure_atomic false false (mkSheets dst src)
       (clear_found_values false false (mkSheets dst src)).1).
  - apply well_formedb_spec. vm_compute. reflexivity.
  - vm_compute. reflexivity.
Defined.
End lookup_failure.

(** * validate_input: what it leaves as it was *)

Create HintDb keeps discriminated.

Lemma keeps_ret {S A} (I : S → Prop) (a : A) : keeps I (mret a : SE S A).
Proof. by intros s. Qed.

Lemma keeps_bind_with {S A B} (I : S → Prop) (P : A → Prop)
    (m : SE S A) (k : A → SE S B) :
  (∀ s, I s → post m s (fun s' a => I s' ∧ P a) (fun s' _ => I s')) →
  (∀ a, P a → keeps I (k a)) →
  keeps I (m ≫= k).
Proof.
  intros Hm Hk s Hs. apply post_bind. eapply post_mono; [by apply Hm| |done].
  intros s' a [Hs' Ha]. by apply Hk.
Qed.

Lemma keeps_bind {S A B} (I : S → Prop) (m : SE S A) (k : A → SE S B) :
  keeps I m → (∀ a, keeps I (k a)) → keeps I (m ≫= k).
Proof.
  intros Hm Hk. apply (keeps_bind_with I (fun _ => True)); [|by auto].
  intros s Hs. eapply post_mono; [by apply Hm|by auto|done].
Qed.

Lemma keeps_gets {S A} (I : S → Prop) (f : S → A) : keeps I (gets f).
Proof. by intros s. Qed.

Lemma keeps_raise {S A} (I : S → Prop) e : keeps I (raise e : SE S A).
Proof. by intros s. Qed.

Lemma keeps_lift_result {S A} (I : S → Prop) (r : result exn A) :
  keeps I (lift_result r : SE S A).
Proof. intros s Hs. apply post_lift_result. by destruct r. Qed.

Lemma keeps_for {S A} (I : S → Prop) (l : list A) (body : A → SE S unit) :
  (∀ x, x ∈ l → keeps I (body x)) → keeps I (for_ l body).
Proof.
  intros Hbody s Hs. apply (post_for I); [done|].
  intros x s' Hx Hs'. by apply Hbody.
Qed.

Lemma keeps_lift_fst {S L A} (I : S → Prop) (m : SE S A) :
  keeps I m → keeps (fun p : S * L => I p.1) (lift_fst m).
Proof. intros Hm s Hs. apply post_lift_fst. by apply Hm. Qed.

Lemma keeps_get_local {S L} (I : S → Prop) :
  keeps (fun p : S * L => I p.1) get_local.
Proof. by intros s. Qed.

Lemma keeps_set_local {S L} (I : S → Prop) (l : L) :
  keeps (fun p : S * L => I p.1) (set_local l).
Proof. by intros s. Qed.

Lemma keeps_run_local {S L A} (I : S → Prop) (init : L) (m : SE (S * L) A) :
  keeps (fun p => I p.1) m → keeps I (run_local init m).
Proof. intros Hm s Hs. apply post_run_local. by apply (Hm (s, init)). Qed.

#[global] Hint Resolve keeps_ret keeps_gets keeps_raise keeps_lift_result
  keeps_get_local keeps_set_local : keeps.

Ltac keeps :=
  repeat first
    [ progress intros
    | solve [eauto with keeps]
    | apply keeps_bind
    | apply keeps_for
    | apply keeps_lift_fst
    | apply keeps_run_local
    | match goal with
      | |- keeps _ (match ?x with _ => _ end) => destruct x
      | |- keeps _ (if ?x then _ else _) => destruct x
      | |- keeps _ (let '(_, _) := ?x in _) => destruct x
      end ].

Lemma elem_of_enumerate {A} (l : list A) i x :
  (i, x) ∈ enumerate l → l !! i = Some x.
Proof.
  unfold enumerate. intros (k & Hk)%list_elem_of_lookup_1.
  apply lookup_zip_with_Some in Hk as (i' & x' & [= <- <-] & Hi & Hx).
  apply lookup_seq in Hi as [-> _]. done.
Qed.

Section frame.
Import openpyxl xutils.
Variable name : string.
Variable ignore_blanks : bool.
Variable ws0 : Worksheet.
Variable res0 : list InputInconsistency.
Hypothesis Hwf : well_formed ws0.

Local Abbreviation I := (framed ws0 res0).

Lemma keeps_add msg wb sh r c : keeps I (add msg wb sh r c).
Proof.
  intros s [Hs Hr]. apply post_modify. split; [done|]. simpl.
  by apply prefix_app_r.
Qed.

Lemma keeps_sheet_title : keeps I sheet_title.
Proof. apply keeps_gets. Qed.

Lemma framed_on_sheet {A} (m : SE Worksheet A) (P : A → Prop) s :
I s →
returns m (v_sheet s) (fun ws' a => same_table ws0 ws' ∧ P a) →
post (on_sheet m) s (fun s' a => I s' ∧ P a) (fun s' _ => I s').
Proof.
  intros [Hs Hr] Hm. unfold returns, post, on_sheet in *.
  destruct (m (v_sheet s)) as [ws' [a|e]]; [|done].
  destruct Hm as [Hs' Ha]. by split.
Qed.

Lemma keeps_read r c :
(1 ≤ r ≤ max_row ws0)%nat → (1 ≤ c ≤ max_column ws0)%nat →
keeps I (read r c).
Proof.
  intros Hr Hc s Hs. unfold read.
  eapply post_mono;
    [apply (framed_on_sheet _ (fun v => v = value_at ws0 r c)); [done|]| |done].
  - apply post_read_in_box; [apply Hs|done..].
  - by intros s' a [? _].
Qed.

Lemma framed_class_names s :
I s →
post (on_sheet get_class_names) s
  (fun s' l => I s' ∧ l = class_names ws0) (fun s' _ => I s').
Proof.
  intros Hs. apply framed_on_sheet; [done|].
  apply post_get_class_names; [done|apply Hs].
Qed.

Lemma framed_record_names s :
I s →
post (on_sheet get_record_names) s
  (fun s' l => I s' ∧ l = record_names ws0) (fun s' _ => I s').
Proof.
  intros Hs. apply framed_on_sheet; [done|].
  apply post_get_record_names; [done|apply Hs].
Qed.

Lemma framed_sheet s :
I s →
post (gets v_sheet) s (fun s' ws => I s' ∧ same_table ws0 ws) (fun s' _ => I s').
Proof. intros Hs. apply post_gets. split; [done|apply Hs]. Qed.

Lemma keeps_duplicates names skip mk pos :
(∀ x, keeps I (skip x)) →
keeps I (duplicates name names skip mk pos).
Proof.
  intros Hskip. pose proof keeps_add. pose proof keeps_sheet_title.
  unfold duplicates. keeps.
Qed.

Lemma keeps_validate_sheet : keeps I (validate_sheet name ignore_blanks).
Proof.
  pose proof (well_formed_bounds _ Hwf) as [? ?].
  pose proof keeps_add. pose proof keeps_sheet_title.
  unfold validate_sheet.
  apply keeps_bind; [by apply keeps_read|]. intros a1.
  apply keeps_bind; [done|]. intros t.
  destruct a1 as [x|]; [done|].
  apply keeps_bind_with with (P := fun _ => True).
  { intros s Hs. eapply post_mono; [by apply framed_class_names| |done].
    by intros s' l [? _]. }
  intros cls_names _.
  apply keeps_bind; [apply keeps_duplicates; keeps|]. intros _.
  apply keeps_bind_with with (P := fun l => l = record_names ws0);
    [apply framed_record_names|].
  intros rec_names ->.
  apply keeps_bind; [apply keeps_duplicates; keeps|]. intros _.
  destruct (negb ignore_blanks); [|keeps].
  apply keeps_for. intros [i rec] Hi%elem_of_enumerate.
  apply lookup_lt_Some in Hi. rewrite length_record_names in Hi.
  apply keeps_bind; [keeps|]. intros b.
  destruct (negb b); [keeps|].
  apply keeps_bind_with with (P := fun ws => same_table ws0 ws);
    [apply framed_sheet|].
  intros ws (_ & _ & Hmc & _).
  apply keeps_for. intros icol Hicol%elem_of_range.
  apply keeps_bind; [apply keeps_read; lia|]. intros v.
  by destruct v.
Qed.

Lemma keeps_validate_empty_cells : keeps I (validate_empty_cells name).
Proof.
  pose proof (well_formed_bounds _ Hwf) as [? ?].
  pose proof keeps_add. pose proof keeps_sheet_title.
  unfold validate_empty_cells.
  apply keeps_bind; [done|]. intros t.
  apply keeps_bind_with with (P := fun ws => same_table ws0 ws);
    [apply framed_sheet|].
  intros ws (_ & _ & Hmc & _).
  apply keeps_bind.
  { apply keeps_for. intros icol Hicol%elem_of_range.
    apply keeps_bind; [apply keeps_read; lia|]. intros h.
    destruct h; [keeps|].
    apply keeps_bind_with with (P := fun ws => same_table ws0 ws);
      [apply framed_sheet|].
    intros ws' (_ & Hmr & _ & _).
    apply keeps_for. intros irow Hirow%elem_of_range.
    apply keeps_bind; [apply keeps_read; lia|]. intros v.
    by destruct v. }
  intros _.
  apply keeps_bind_with with (P := fun ws => same_table ws0 ws);
    [apply framed_sheet|].
  intros ws' (_ & Hmr & _ & _).
  apply keeps_for. intros irow Hirow%elem_of_range.
  apply keeps_bind; [apply keeps_read; lia|]. intros h.
  destruct h; [keeps|].
  apply keeps_bind_with with (P := fun ws => same_table ws0 ws);
    [apply framed_sheet|].
  intros ws'' (_ & _ & Hmc' & _).
  apply keeps_for. intros icol Hicol%elem_of_range.
  apply keeps_bind; [apply keeps_read; lia|]. intros v.
  by destruct v.
Qed.

Lemma keeps_context (f : VState → gmap (string * value * value) (string * nat * nat)) :
keeps I (modify (fun s => mkVState (v_sheet s) (v_result s) (f s))).
Proof. by intros s Hs. Qed.

Lemma keeps_validate_duplicates :
keeps I (validate_duplicates_across_workbooks name ignore_blanks).
Proof.
  pose proof keeps_add. pose proof keeps_sheet_title.
  unfold validate_duplicates_across_workbooks.
  apply keeps_bind_with with (P := fun _ => True).
  { intros s Hs. eapply post_mono; [by apply framed_record_names| |done].
    by intros s' l [? _]. }
  intros records _. apply keeps_for. intros [i record] _.
  destruct record as [rec|]; [|keeps].
  apply keeps_bind; [keeps|]. intros b. destruct b; [keeps|].
  apply keeps_bind_with with (P := fun _ => True).
  { intros s Hs. eapply post_mono; [by apply framed_class_names| |done].
    by intros s' l [? _]. }
  intros classes _. apply keeps_for. intros [j o] _.
  destruct o as [cls|]; [|keeps].
  apply keeps_bind; [done|]. intros t.
  apply keeps_bind; [keeps|]. intros context.
  destruct (context !! _) as [[[name0 row0] col0]|]; [keeps|].
  apply keeps_context.
Qed.

Lemma keeps_validate_one : keeps I (validate_one name ignore_blanks).
Proof.
  unfold validate_one.
  apply keeps_bind; [apply keeps_validate_sheet|]. intros _.
  apply keeps_bind; [apply keeps_validate_empty_cells|]. intros _.
  apply keeps_validate_duplicates.
Qed.
End frame.

(** C9: [validate_input] leaves every sheet of the workbook reading as it
    did (title, [max_row], [max_column] and the value at every coordinate),
    whether it returns or raises, and the [result] list it returns is the
    one it was given with the findings appended.  The sheets are those a
    workbook can hold: no cell at a row or column below 1. *)
Theorem validate_input_frame (name : string) (ignore_blanks : bool)
    (workbook : list openpyxl.Worksheet)
    (result_ : list xutils.InputInconsistency)
    (context : gmap (string * value * value) (string * nat * nat)) :
  Forall well_formed workbook →
  let a := (xutils.validate_input name ignore_blanks workbook result_ context).1 in
  Forall2 same_table workbook (xutils.a_sheets a)
  ∧ result_ `prefix_of` xutils.a_result a.
Proof.
  intros Hwf. revert result_ context.
  induction Hwf as [|sheet rest Hsheet Hrest IH]; intros result_ context; simpl.
  { split; [constructor|done]. }
  pose proof (keeps_validate_one name ignore_blanks sheet result_ Hsheet
                (xutils.mkVState sheet result_ context)) as Hone.
  unfold post in Hone.
  destruct (xutils.validate_one _ _ _) as [s [[]|e]].
  - destruct Hone as [Hs Hr]; [by split|].
    specialize (IH (xutils.v_result s) (xutils.v_context s)).
    destruct (xutils.validate_input _ _ rest _ _) as [a o]. simpl in *.
    destruct IH as [IHs IHr]. split; [by constructor|by etrans].
  - destruct Hone as [Hs Hr]; [by split|]. simpl. split; [|done].
    constructor; [done|]. by apply Forall_Forall2_diag, Forall_true.
Qed.

(** A workbook of one sheet with a value in a blank row: a finding is
    appended, the sheet is as it was. *)
Lemma validate_input_frame_witness :
  let ws := openpyxl.load_sheet "S"
              [[None; str "c1"; str "c2"]; [str "Blank 1"; str "a"; None]] in
  let a := (xutils.validate_input "a.xlsx" false [ws] [] ∅).1 in
  Forall2 same_table [ws] (xutils.a_sheets a) ∧ [] `prefix_of` xutils.a_result a.
Proof.
  intros ws.
  apply (validate_input_frame "a.xlsx" false [ws] [] ∅).
  apply List.Forall_cons; [|apply List.Forall_nil].
  apply well_formedb_spec. vm_compute. reflexivity.
Defined.

(** * Writing to a sheet: [cell] with a value, [append] *)

Lemma keeps_comprehension {S A B} (I : S → Prop) (l : list A) (f : A → SE S B) :
  (∀ x, x ∈ l → keeps I (f x)) → keeps I (comprehension l f).
Proof.
  intros Hf s Hs.
  eapply post_mono with (R := fun s' _ => I s');
    [apply (post_comprehension I (fun _ _ => True)); [done|]| |done].
  - intros x s' Hx Hs'. eapply post_mono; [by apply Hf|by auto|done].
  - by intros s' ys [? _].
Qed.

Lemma keeps_item {S A} (I : S → Prop) (l : list A) i : keeps I (item l i : SE S A).
Proof. intros s Hs. apply post_item. by destruct (l !! i). Qed.

#[global] Hint Resolve keeps_item : keeps.

Section writing.
Import openpyxl.
Implicit Types (ws : Worksheet) (r c : nat) (v : option value).

Lemma settled_current_row ws : settled ws → _current_row ws = max_row ws.
Proof. intros [[_ [?|[? _]]] ?]; done. Qed.

Lemma settled_bounds ws : settled ws → (1 ≤ max_row ws ∧ 1 ≤ max_column ws)%nat.
Proof. intros [? _]. by apply well_formed_bounds. Qed.

Lemma well_formed_get_cell ws r c :
(1 ≤ r)%nat → (1 ≤ c)%nat → well_formed ws → well_formed (_get_cell r c ws).
Proof.
  intros Hr Hc [Hk Hcur]. unfold _get_cell.
  destruct (_cells ws !! (r, c)) eqn:Hl; [done|].
  split.
  - intros r' c'. simpl. destruct (decide ((r, c) = (r', c'))) as [[= <- <-]|Hne].
  + done.
  + rewrite lookup_insert_ne by done. apply Hk.
  - left. rewrite (max_row_insert ws _ r c None) by done. simpl.
  destruct Hcur as [->|[He ->]]; [done|].
  rewrite (max_row_empty _ He). lia.
Qed.

Lemma cells_get_cell_ne ws r c : _cells (_get_cell r c ws) ≠ ∅.
Proof.
  intros He. pose proof (lookup_get_cell ws r c) as Hl.
  rewrite He, lookup_empty in Hl. by destruct Hl.
Qed.

Lemma settled_get_cell ws r c :
(1 ≤ r)%nat → (1 ≤ c)%nat → well_formed ws → settled (_get_cell r c ws).
Proof.
  intros. split; [by apply well_formed_get_cell|apply cells_get_cell_ne].
Qed.

Lemma settled_set_value ws r c v :
is_Some (_cells ws !! (r, c)) → settled ws → settled (set_value (r, c) v ws).
Proof.
  intros Hl [[Hk Hcur] Hne].
  destruct (Hk _ _ Hl) as [Hr Hc].
  split; [split|].
  - intros r' c'. simpl. destruct (decide ((r, c) = (r', c'))) as [[= <- <-]|Hn].
  + done.
  + rewrite lookup_insert_ne by done. apply Hk.
  - left. rewrite (max_row_insert ws _ r c v) by done. simpl.
  pose proof (max_row_ge _ _ _ Hl).
  destruct Hcur as [->|[He _]]; [lia|done].
  - simpl. apply insert_non_empty.
Qed.

Lemma value_at_set_value_eq ws r c v r' c' :
value_at (set_value (r, c) v ws) r' c'
= if decide ((r', c') = (r, c)) then v else value_at ws r' c'.
Proof.
  unfold value_at, set_value. simpl. case_decide as Hd.
  - injection Hd as -> ->. by rewrite lookup_insert_eq.
  - rewrite lookup_insert_ne; [done|]. congruence.
Qed.

(** [ws.cell(r, c, v)]: the cell is there afterwards, with the value [v]
unless [v] is [None]. *)
Lemma cell_run ws r c v :
(1 ≤ r)%nat → (1 ≤ c)%nat → well_formed ws →
∃ ws', cell r c v ws = (ws', Ok (r, c))
∧ settled ws' ∧ title ws' = title ws
∧ max_row ws' = Nat.max r (max_row ws)
∧ max_column ws' = Nat.max c (max_column ws)
∧ ∀ r' c', value_at ws' r' c'
           = if decide ((r', c') = (r, c))
             then from_option Some (value_at ws r c) v
             else value_at ws r' c'.
Proof.
  intros Hr Hc Hwf. pose proof (settled_get_cell ws r c Hr Hc Hwf) as Hs.
  destruct v as [x|].
  - rewrite cell_Some_run by done. eexists. split; [done|].
  pose proof (lookup_get_cell ws r c) as Hl. split_and!.
  + by apply settled_set_value.
  + simpl. apply title_get_cell.
  + rewrite (max_row_insert (_get_cell r c ws) _ r c (Some x)) by done.
    rewrite max_row_get_cell by done. lia.
  + rewrite (max_column_insert (_get_cell r c ws) _ r c (Some x)) by done.
    rewrite max_column_get_cell by done. lia.
  + intros r' c'. rewrite value_at_set_value_eq. case_decide; [done|].
    apply value_at_get_cell.
  - rewrite cell_None_run by done. eexists. split; [done|]. split_and!.
  + done.
  + apply title_get_cell.
  + by apply max_row_get_cell.
  + by apply max_column_get_cell.
  + intros r' c'. rewrite value_at_get_cell. case_decide as Hd; [|done].
    by injection Hd as -> ->.
Qed.

(** [ws.append([x])] on a sheet that has a cell: a new last row. *)
Lemma append_run ws x :
settled ws →
∃ ws', append [x] ws = (ws', Ok tt)
∧ settled ws' ∧ title ws' = title ws
∧ max_row ws' = (max_row ws + 1)%nat
∧ max_column ws' = max_column ws
∧ ∀ r' c', value_at ws' r' c'
           = if decide ((r', c') = ((max_row ws + 1)%nat, 1%nat))
             then x else value_at ws r' c'.
Proof.
  intros Hs. pose proof (settled_current_row _ Hs) as Hcur.
  pose proof (settled_bounds _ Hs) as [Hmr Hmc]. destruct Hs as [[Hk _] Hne].
  eexists. split; [reflexivity|]. simpl. rewrite Hcur.
  match goal with |- settled ?w ∧ _ => set (ws' := w) end.
  assert (_cells ws' = <[((max_row ws + 1)%nat, 1%nat) := x]> (_cells ws)) as Hc.
  { reflexivity. }
  assert (max_row ws' = (max_row ws + 1)%nat) as Hmr'.
  { rewrite (max_row_insert ws ws' (max_row ws + 1) 1 x ltac:(lia) Hc). lia. }
  split_and!.
  - split; [split|].
  + intros r' c'. rewrite Hc.
    destruct (decide (((max_row ws + 1)%nat, 1%nat) = (r', c'))) as [[= <- <-]|Hn].
    * lia.
    * rewrite lookup_insert_ne by done. apply Hk.
  + left. by rewrite Hmr'.
  + rewrite Hc. apply insert_non_empty.
  - done.
  - done.
  - rewrite (max_column_insert ws ws' (max_row ws + 1) 1 x ltac:(lia) Hc). lia.
  - intros r' c'. unfold value_at. rewrite Hc. case_decide as Hd.
  + injection Hd as -> ->. by rewrite lookup_insert_eq.
  + rewrite lookup_insert_ne; [done|]. congruence.
Qed.

Lemma keeps_cell_well_formed r c v : keeps well_formed (cell r c v).
Proof.
  intros ws Hwf. unfold post.
  destruct (decide (1 ≤ r ∧ 1 ≤ c)%nat) as [[Hr Hc]|Hn].
  - destruct (cell_run ws r c v Hr Hc Hwf) as (ws' & -> & [? _] & _). done.
  - unfold cell. destruct (Nat.ltb_spec r 1); [done|].
  destruct (Nat.ltb_spec c 1); [done|]. lia.
Qed.

Lemma keeps_cell_settled r c v : keeps settled (cell r c v).
Proof.
  intros ws [Hwf Hne]. unfold post.
  destruct (decide (1 ≤ r ∧ 1 ≤ c)%nat) as [[Hr Hc]|Hn].
  - destruct (cell_run ws r c v Hr Hc Hwf) as (ws' & -> & ? & _). done.
  - unfold cell. destruct (Nat.ltb_spec r 1); [done|].
  destruct (Nat.ltb_spec c 1); [done|]. lia.
Qed.

Lemma keeps_value_of (I : Worksheet → Prop) k : keeps I (value_of k).
Proof. apply keeps_gets. Qed.

Lemma keeps_get_state {S} (I : S → Prop) : keeps I get_state.
Proof. by intros s. Qed.
End writing.

#[global] Hint Resolve keeps_cell_well_formed keeps_cell_settled keeps_value_of
  keeps_get_state : keeps.

Section reading_names.
Import openpyxl xutils.

Lemma keeps_get_class_names (I : Worksheet → Prop) :
(∀ r c v, keeps I (cell r c v)) → keeps I get_class_names.
Proof.
  intros Hcell. unfold get_class_names, iter_rows, row_values. keeps.
  all: apply keeps_comprehension; keeps.
Qed.

Lemma keeps_get_record_names (I : Worksheet → Prop) :
(∀ r c v, keeps I (cell r c v)) → keeps I get_record_names.
Proof.
  intros Hcell. unfold get_record_names, iter_col, col_values. keeps.
  all: apply keeps_comprehension; keeps.
Qed.

(** The first read of the names of a sheet leaves it with a cell. *)
Lemma settled_after_get_class_names ws :
well_formed ws →
post get_class_names ws (fun ws' _ => settled ws') (fun ws' _ => settled ws').
Proof.
  intros Hwf. pose proof (well_formed_bounds _ Hwf) as [Hmr Hmc].
  unfold post. rewrite get_class_names_unfold.
  unfold row_values. cbn [b_min_col b_max_col].
  replace (range 1 (max_column ws + 1)) with (1%nat :: range 2 (max_column ws + 1)).
  2:{ unfold range.
    replace (max_column ws + 1 - 1)%nat with (S (max_column ws + 1 - 2)) by lia.
    done. }
  cbn [comprehension]. rewrite SE_bind_unfold, cell_value_run by done.
  cbn [fst snd].
  pose proof (settled_get_cell ws 1 1 ltac:(lia) ltac:(lia) Hwf) as Hs1.
  match goal with |- context [?m (_get_cell 1 1 ws)] =>
  enough (keeps settled m) as Hk by apply (Hk _ Hs1) end.
  keeps. apply keeps_comprehension. keeps.
Qed.

Lemma get_class_names_settles ws :
well_formed ws →
returns get_class_names ws
(fun ws' names => same_table ws ws' ∧ names = class_names ws ∧ settled ws').
Proof.
  intros Hwf. unfold returns.
  eapply post_mono;
  [apply post_and; [by apply (post_get_class_names ws ws)
                   |by apply settled_after_get_class_names]| |].
  - by intros ws' names [[? ?] ?].
  - by intros ws' e [? _].
Qed.

Lemma get_record_names_settled ws :
settled ws →
returns get_record_names ws
(fun ws' names => same_table ws ws' ∧ names = record_names ws ∧ settled ws').
Proof.
  intros Hs. unfold returns.
  eapply post_mono;
  [apply post_and; [apply (post_get_record_names ws ws); [apply Hs|done]
                   |apply keeps_get_record_names; [keeps|done]]| |].
  - by intros ws' names [[? ?] ?].
  - by intros ws' e [? _].
Qed.

Lemma get_class_names_settled ws :
settled ws →
returns get_class_names ws
(fun ws' names => same_table ws ws' ∧ names = class_names ws ∧ settled ws').
Proof. intros [Hwf _]. by apply get_class_names_settles. Qed.
End reading_names.

(** * merge: what the destination holds afterwards *)

Lemma post_comprehension_prefix {S A B} (I : list A → list B → S → Prop)
    (l : list A) (f : A → SE S B) s R :
  I [] [] s →
  (∀ l1 x l2 ys s', l = l1 ++ x :: l2 → I l1 ys s' →
     post (f x) s' (fun s'' y => I (l1 ++ [x]) (ys ++ [y]) s'') R) →
  post (comprehension l f) s (fun s' ys => I l ys s') R.
Proof.
  intros HI Hf.
  assert (∀ l1 l2 ys s, l = l1 ++ l2 → I l1 ys s →
            post (comprehension l2 f) s (fun s' zs => I l (ys ++ zs) s') R) as H.
  { intros l1 l2. revert l1. induction l2 as [|x l2 IH]; intros l1 ys s1 Hl H1; simpl.
    { apply post_ret. by rewrite Hl, !app_nil_r. }
    apply post_bind. eapply post_mono; [by apply (Hf l1 x l2)| |done].
    intros s' y HI'. apply post_bind.
    eapply post_mono; [apply (IH (l1 ++ [x]) (ys ++ [y])); [|done]| |done].
    - by rewrite <-app_assoc.
    - intros s'' zs HI''. apply post_ret.
      replace (ys ++ y :: zs) with ((ys ++ [y]) ++ zs); [done|].
      by rewrite <-app_assoc. }
  by apply (H [] l []).
Qed.

Section list_index.
Context {A : Type} `{EqDecision A}.
Implicit Types (l : list A) (x : A).

Lemma list_index_Some l x i :
list_index l x = Some i → l !! i = Some x ∧ ∀ j, (j < i)%nat → l !! j ≠ Some x.
Proof.
  revert i. induction l as [|y l IH]; intros i; simpl; [done|].
  case_decide as Hy.
  - intros [= <-]. split; [by rewrite Hy|]. intros j ?. lia.
  - destruct (list_index l x) as [k|] eqn:Hk; [|done]. intros [= <-].
  destruct (IH k eq_refl) as [Hl Hlt]. split; [done|].
  intros [|j] Hj; simpl; [congruence|]. apply Hlt. lia.
Qed.

Lemma list_index_is_Some l x : x ∈ l → is_Some (list_index l x).
Proof.
  intros Hx. destruct (list_index l x) eqn:Hi; [done|].
  by apply list_index_None in Hi.
Qed.

Lemma list_index_first l x i :
l !! i = Some x → (∀ j, (j < i)%nat → l !! j ≠ Some x) → list_index l x = Some i.
Proof.
  intros Hi Hlt. destruct (list_index_is_Some l x) as [k Hk].
  { by eapply list_elem_of_lookup_2. }
  destruct (list_index_Some _ _ _ Hk) as [Hk1 Hk2]. rewrite Hk. f_equal.
  destruct (Nat.lt_trichotomy k i) as [?|[?|?]]; [|done|].
  - by destruct (Hlt k).
  - by destruct (Hk2 i).
Qed.

Lemma list_index_NoDup l x i : NoDup l → l !! i = Some x → list_index l x = Some i.
Proof.
  intros Hnd Hi. apply list_index_first; [done|]. intros j Hj Hjx.
  pose proof (NoDup_lookup _ _ _ _ Hnd Hi Hjx). lia.
Qed.

Lemma list_index_app_l l l' x i :
list_index l x = Some i → list_index (l ++ l') x = Some i.
Proof.
  intros [Hi Hlt]%list_index_Some. apply list_index_first.
  - by apply lookup_app_l_Some.
  - intros j Hj. rewrite lookup_app_l; [by apply Hlt|].
  apply lookup_lt_Some in Hi. lia.
Qed.
End list_index.

Lemma NoDup_filter_lookup {A} (P : A → Prop) `{∀ x, Decision (P x)} (l : list A) :
  (∀ i j x, P x → l !! i = Some x → l !! j = Some x → i = j) →
  NoDup (filter P l).
Proof.
  induction l as [|y l IH]; intros Hl; [constructor|].
  assert (NoDup (filter P l)) as Hnd.
  { apply IH. intros i j x Hx Hi Hj. by injection (Hl (S i) (S j) x Hx Hi Hj). }
  rewrite filter_cons. case_decide as Hy; [|done].
  constructor; [|done].
  intros [_ Hin]%list_elem_of_filter.
  apply list_elem_of_lookup_1 in Hin as [j Hj].
  by pose proof (Hl 0%nat (S j) y Hy eq_refl Hj).
Qed.

Section names.
Import openpyxl xutils.
Implicit Types (ws : Worksheet).

Lemma same_table_class_names ws ws' :
same_table ws ws' → class_names ws = class_names ws'.
Proof.
  intros (_ & _ & Hmc & Hv). unfold class_names. rewrite Hmc.
  apply list_fmap_ext. intros ? c _. apply Hv.
Qed.

Lemma same_table_record_names ws ws' :
same_table ws ws' → record_names ws = record_names ws'.
Proof.
  intros (_ & Hmr & _ & Hv). unfold record_names. rewrite Hmr.
  apply list_fmap_ext. intros ? r _. apply Hv.
Qed.

Lemma class_names_lookup ws i x :
class_names ws !! i = Some x ↔ (i < max_column ws)%nat ∧ x = value_at ws 1 (i + 1).
Proof.
  split.
  - intros Hi. pose proof (lookup_lt_Some _ _ _ Hi) as Hlt.
  rewrite length_class_names in Hlt. rewrite lookup_class_names in Hi by done.
  split; [done|congruence].
  - intros [Hlt ->]. by apply lookup_class_names.
Qed.

Lemma record_names_lookup ws i x :
record_names ws !! i = Some x ↔ (i < max_row ws)%nat ∧ x = value_at ws (i + 1) 1.
Proof.
  split.
  - intros Hi. pose proof (lookup_lt_Some _ _ _ Hi) as Hlt.
  rewrite length_record_names in Hlt. rewrite lookup_record_names in Hi by done.
  split; [done|congruence].
  - intros [Hlt ->]. by apply lookup_record_names.
Qed.
End names.

Section names_after_writes.
Import openpyxl xutils.
Implicit Types (ws : Worksheet).

Lemma range_snoc a n : (a ≤ n)%nat → range a (n + 1) = range a n ++ [n].
Proof.
  intros Han. unfold range.
  replace (n + 1 - a)%nat with (S (n - a)) by lia.
  rewrite seq_S. do 2 f_equal. lia.
Qed.

Lemma class_names_snoc ws ws' x :
max_column ws' = (max_column ws + 1)%nat →
(∀ c, (c ≤ max_column ws)%nat → value_at ws' 1 c = value_at ws 1 c) →
value_at ws' 1 (max_column ws + 1) = x →
class_names ws' = class_names ws ++ [x].
Proof.
  intros Hmc Hv Hx. unfold class_names. rewrite Hmc.
  rewrite range_snoc, fmap_app by lia. simpl. rewrite Hx. f_equal.
  apply list_fmap_ext. intros ? c Hc. apply Hv.
  apply list_elem_of_lookup_2, elem_of_range in Hc. lia.
Qed.

Lemma class_names_same ws ws' :
max_column ws' = max_column ws →
(∀ c, value_at ws' 1 c = value_at ws 1 c) →
class_names ws' = class_names ws.
Proof.
  intros Hmc Hv. unfold class_names. rewrite Hmc.
  apply list_fmap_ext. intros ? c _. apply Hv.
Qed.

Lemma record_names_snoc ws ws' x :
max_row ws' = (max_row ws + 1)%nat →
(∀ r, (r ≤ max_row ws)%nat → value_at ws' r 1 = value_at ws r 1) →
value_at ws' (max_row ws + 1) 1 = x →
record_names ws' = record_names ws ++ [x].
Proof.
  intros Hmc Hv Hx. unfold record_names. rewrite Hmc.
  rewrite range_snoc, fmap_app by lia. simpl. rewrite Hx. f_equal.
  apply list_fmap_ext. intros ? c Hc. apply Hv.
  apply list_elem_of_lookup_2, elem_of_range in Hc. lia.
Qed.

Lemma record_names_same ws ws' :
max_row ws' = max_row ws →
(∀ r, value_at ws' r 1 = value_at ws r 1) →
record_names ws' = record_names ws.
Proof.
  intros Hmc Hv. unfold record_names. rewrite Hmc.
  apply list_fmap_ext. intros ? c _. apply Hv.
Qed.

Lemma class_names_head ws : well_formed ws → class_names ws !! 0%nat = Some (value_at ws 1 1).
Proof.
  intros [? ?]%well_formed_bounds. apply class_names_lookup. split; [lia|done].
Qed.

Lemma record_names_head ws : well_formed ws → record_names ws !! 0%nat = Some (value_at ws 1 1).
Proof.
  intros [? ?]%well_formed_bounds. apply record_names_lookup. split; [lia|done].
Qed.
End names_after_writes.

Section merge.
Import openpyxl xutils.
Variable ignore_blanks : bool.
Variables d0 a : Worksheet.
Hypothesis Htidy : tidy d0.
Hypothesis Hvalid : valid_table ignore_blanks a.

Lemma None_in_dst_classes : None ∈ class_names d0.
Proof.
  eapply list_elem_of_lookup_2. rewrite class_names_head by apply Htidy.
  by rewrite (tidy_corner _ Htidy).
Qed.

Lemma merge_mapper_step l1 ys x s :
header_inv d0 a l1 ys s →
returns (on_destination (merge_mapper (class_names d0) x)) s
(fun s' y => header_inv d0 a (l1 ++ [x]) (ys ++ [y]) s').
Proof.
  intros (Hsrc & Hset & Ht & Hcls & Hrec & Hval & Hmap).
  unfold returns. apply post_on_destination. unfold merge_mapper.
  destruct (list_index (class_names d0) x) as [k|] eqn:Hk.
  - apply post_ret. unfold header_inv. cbn [destination source].
  split_and!; try done.
  + rewrite filter_app, filter_cons_False, filter_nil, app_nil_r; [done|].
    intros Hx. apply Hx. apply list_index_Some in Hk as [Hk _].
    by eapply list_elem_of_lookup_2.
  + apply Forall2_app; [done|]. constructor; [|constructor].
    exists k. split; [done|]. rewrite Hcls. apply lookup_app_l_Some.
    by apply list_index_Some in Hk as [Hk _].
  - apply list_index_None in Hk.
  destruct x as [x|]; [|destruct Hk; apply None_in_dst_classes].
  pose proof (settled_bounds _ Hset) as [Hmr Hmc].
  set (d := destination s) in *.
  destruct (cell_run d 1 (max_column d + 1) (Some x) ltac:(lia) ltac:(lia)
              (proj1 Hset)) as (d' & Hrun & Hset' & Ht' & Hmr' & Hmc' & Hval').
  unfold post. rewrite !SE_bind_unfold. cbn [get_state fst snd].
  rewrite SE_bind_unfold, Hrun. cbn beta iota. rewrite SE_bind_unfold.
  cbn [get_state mret]. unfold header_inv. cbn [fst snd destination source].
  assert (class_names d' = class_names d ++ [Some x]) as Hcls'.
  { apply class_names_snoc.
    - rewrite Hmc'. lia.
    - intros c Hc. rewrite Hval'. rewrite decide_False; [done|]. intros [=]. lia.
    - rewrite Hval'. by rewrite decide_True. }
  split_and!; try done.
  + congruence.
  + rewrite Hcls', Hcls, filter_app, filter_cons_True, filter_nil by done.
    by rewrite app_assoc.
  + rewrite <-Hrec. apply record_names_same; [rewrite Hmr'; lia|].
    intros r. rewrite Hval'. rewrite decide_False; [done|]. intros [=]. lia.
  + intros r c Hr. rewrite Hval', decide_False; [by apply Hval|].
    intros [=]. lia.
  + apply Forall2_app.
    * eapply Forall2_impl; [done|]. intros x' y' (k & -> & Hk').
      exists k. split; [done|]. rewrite Hcls'. by apply lookup_app_l_Some.
    * constructor; [|constructor]. exists (max_column d). split.
      { f_equal. rewrite Hmc'. lia. }
      rewrite Hcls'. rewrite lookup_app_r; rewrite length_class_names; [|done].
      by rewrite Nat.sub_diag.
Qed.

Lemma merge_header s :
same_table a (source s) → settled (destination s) →
same_table d0 (destination s) →
returns (comprehension (class_names a)
         (fun v => on_destination (merge_mapper (class_names d0) v))) s
(fun s' ys => header_inv d0 a (class_names a) ys s').
Proof.
  intros Hsrc Hset Hdst. unfold returns.
  apply (post_comprehension_prefix (header_inv d0 a)).
  - destruct Hdst as (Ht & Hmr & Hmc & Hv). unfold header_inv.
  rewrite filter_nil, app_nil_r.
  rewrite <-(same_table_class_names d0 (destination s)) by by split_and!.
  rewrite <-(same_table_record_names d0 (destination s)) by by split_and!.
  by split_and!.
  - intros l1 x l2 ys s' _ Hinv. by apply merge_mapper_step.
Qed.

(** The names of the source. *)
Lemma src_corner_class x : class_names a !! 0%nat ≠ Some (Some x).
Proof.
  rewrite class_names_head by apply Hvalid. by rewrite (valid_corner _ _ Hvalid).
Qed.

Lemma src_corner_record x : record_names a !! 0%nat ≠ Some (Some x).
Proof.
  rewrite record_names_head by apply Hvalid. by rewrite (valid_corner _ _ Hvalid).
Qed.

Lemma dst_corner_class x : class_names d0 !! 0%nat ≠ Some (Some x).
Proof.
  rewrite class_names_head by apply Htidy. by rewrite (tidy_corner _ Htidy).
Qed.

Lemma dst_corner_record x : record_names d0 !! 0%nat ≠ Some (Some x).
Proof.
  rewrite record_names_head by apply Htidy. by rewrite (tidy_corner _ Htidy).
Qed.

Lemma src_class_index j x :
class_names a !! j = Some (Some x) → list_index (class_names a) (Some x) = Some j.
Proof.
  intros Hj. apply list_index_first; [done|]. intros j' Hlt Hj'.
  pose proof (valid_classes _ _ Hvalid _ _ _ Hj Hj'). lia.
Qed.

Lemma src_record_index i x :
taken ignore_blanks (Some x) = true →
record_names a !! i = Some (Some x) → list_index (record_names a) (Some x) = Some i.
Proof.
  intros Ht Hi. apply list_index_first; [done|]. intros i' Hlt Hi'.
  pose proof (valid_records _ _ Hvalid _ _ _ Ht Hi Hi'). lia.
Qed.

Local Abbreviation before nr nc i j :=
((i + 1 <? nr) || ((i + 1 =? nr) && (j + 1 <? nc)))%nat.

Lemma src_at_lookup nr nc i j rl cl :
taken ignore_blanks (Some rl) = true →
record_names a !! i = Some (Some rl) → class_names a !! j = Some (Some cl) →
src_at ignore_blanks a nr nc (Some rl) (Some cl)
= if before nr nc i j then value_at a (i + 1) (j + 1) else None.
Proof.
  intros Ht Hi Hj. unfold src_at.
  by rewrite (src_record_index _ _ Ht Hi), (src_class_index _ _ Hj), Ht.
Qed.

Lemma src_at_Some nr nc orl ocl v :
src_at ignore_blanks a nr nc orl ocl = Some v →
∃ i j rl cl, orl = Some rl ∧ ocl = Some cl
∧ taken ignore_blanks (Some rl) = true
∧ record_names a !! i = Some (Some rl) ∧ class_names a !! j = Some (Some cl)
∧ before nr nc i j = true ∧ value_at a (i + 1) (j + 1) = Some v.
Proof.
  unfold src_at. destruct orl as [rl|], ocl as [cl|]; try done.
  destruct (list_index (record_names a) (Some rl)) as [i|] eqn:Hi; [|done].
  destruct (list_index (class_names a) (Some cl)) as [j|] eqn:Hj; [|done].
  apply list_index_Some in Hi as [Hi _]. apply list_index_Some in Hj as [Hj _].
  destruct (taken ignore_blanks (Some rl)) eqn:Ht; [|done]. simpl.
  destruct (before nr nc i j) eqn:Hb; [|done].
  intros Hv. by exists i, j, rl, cl.
Qed.

(** Two bounds that tell the same of every cell with names give the same
values. *)
Lemma src_at_ext nr nc nr' nc' orl ocl :
(∀ i j rl cl,
 taken ignore_blanks (Some rl) = true →
 record_names a !! i = Some (Some rl) → class_names a !! j = Some (Some cl) →
 orl = Some rl → ocl = Some cl →
 before nr nc i j = before nr' nc' i j) →
src_at ignore_blanks a nr nc orl ocl = src_at ignore_blanks a nr' nc' orl ocl.
Proof.
  intros Hb. unfold src_at. destruct orl as [rl|], ocl as [cl|]; try done.
  destruct (list_index (record_names a) (Some rl)) as [i|] eqn:Hi; [|done].
  destruct (list_index (class_names a) (Some cl)) as [j|] eqn:Hj; [|done].
  apply list_index_Some in Hi as [Hi _]. apply list_index_Some in Hj as [Hj _].
  destruct (taken ignore_blanks (Some rl)) eqn:Ht; [|done]. simpl.
  by rewrite (Hb i j rl cl).
Qed.

(** The names of the destination stay different from one another. *)
Lemma NoDup_merged_classes : NoDup (merged_classes d0 a).
Proof.
  unfold merged_classes. apply NoDup_app. split_and!.
  - apply Htidy.
  - intros x Hx [Hn _]%list_elem_of_filter. done.
  - apply NoDup_filter_lookup. intros i j [x|] Hx Hi Hj.
  + by apply (valid_classes _ _ Hvalid i j x).
  + destruct Hx. apply None_in_dst_classes.
Qed.

Lemma NoDup_merged_records n : NoDup (merged_records ignore_blanks d0 a n).
Proof.
  unfold merged_records. apply NoDup_app. split_and!.
  - apply Htidy.
  - intros x Hx [[_ Hn] _]%list_elem_of_filter. done.
  - apply NoDup_filter_lookup. intros i j [x|] [Hx _] Hi Hj; [|done].
  apply lookup_take_Some in Hi as [Hi _]. apply lookup_take_Some in Hj as [Hj _].
  by apply (valid_records _ _ Hvalid i j x).
Qed.

Lemma merged_records_S n o :
record_names a !! n = Some o →
merged_records ignore_blanks d0 a (S n)
= merged_records ignore_blanks d0 a n
++ (if decide (taken ignore_blanks o = true ∧ o ∉ record_names d0)
    then [o] else []).
Proof.
  intros Hn. unfold merged_records.
  rewrite (take_S_r _ _ _ Hn), filter_app, app_assoc. f_equal.
Qed.

Lemma merged_records_all n :
(max_row a ≤ n)%nat →
merged_records ignore_blanks d0 a n
= merged_records ignore_blanks d0 a (max_row a).
Proof.
  intros Hn. unfold merged_records.
  rewrite !take_ge; [done|by rewrite length_record_names..].
Qed.
End merge.

(** * Reading the names of a sheet *)

Section reading_the_names.
Import openpyxl xutils.

Lemma names_of_empty_sheet ws :
  _cells ws = ∅ → class_names ws = [None] ∧ record_names ws = [None].
Proof.
  intros He. unfold class_names, record_names, value_at.
  rewrite (max_column_empty _ He), (max_row_empty _ He), He. simpl.
  by rewrite lookup_empty.
Qed.

(** [get_class_names] returns, without raising, the values of the first
    row, one for each column up to [max_column]; the table reads as
    before.  For a sheet without cells the list is [[None]]. *)
Theorem get_class_names_first_row ws :
  well_formed ws →
  ∃ ws' names,
    get_class_names ws = (ws', Ok names)
    ∧ same_table ws ws'
    ∧ length names = max_column ws
    ∧ (∀ i, (i < max_column ws)%nat → names !! i = Some (value_at ws 1 (i + 1)))
    ∧ (_cells ws = ∅ → names = [None]).
Proof.
  intros Hwf. pose proof (post_get_class_names ws ws Hwf) as Hpost.
  unfold returns, post in Hpost.
  destruct (get_class_names ws) as [ws' [names|e]]; [|by destruct Hpost].
  destruct Hpost as [Hs ->]; [done|]. exists ws', (class_names ws).
  split_and!; try done.
  - apply length_class_names.
  - intros i Hi. by apply lookup_class_names.
  - intros He. by apply names_of_empty_sheet.
Qed.

Lemma get_class_names_first_row_witness :
  let ws := load_sheet "S" [[None; str "c1"]; [str "r1"; str "a"]] in
  ∃ ws' names,
    get_class_names ws = (ws', Ok names)
    ∧ same_table ws ws'
    ∧ length names = max_column ws
    ∧ (∀ i, (i < max_column ws)%nat → names !! i = Some (value_at ws 1 (i + 1)))
    ∧ (_cells ws = ∅ → names = [None]).
Proof.
  intros ws. apply (get_class_names_first_row ws).
  apply well_formedb_spec. vm_compute. reflexivity.
Defined.

(** [get_record_names] returns, without raising, the values of the first
    column, the corner included, one for each row up to [max_row]; the
    table reads as before.  For a sheet without cells the list is
    [[None]]. *)
Theorem get_record_names_first_column ws :
  well_formed ws →
  ∃ ws' names,
    get_record_names ws = (ws', Ok names)
    ∧ same_table ws ws'
    ∧ length names = max_row ws
    ∧ (∀ i, (i < max_row ws)%nat → names !! i = Some (value_at ws (i + 1) 1))
    ∧ (_cells ws = ∅ → names = [None]).
Proof.
  intros Hwf. pose proof (post_get_record_names ws ws Hwf) as Hpost.
  unfold returns, post in Hpost.
  destruct (get_record_names ws) as [ws' [names|e]]; [|by destruct Hpost].
  destruct Hpost as [Hs ->]; [done|]. exists ws', (record_names ws).
  split_and!; try done.
  - apply length_record_names.
  - intros i Hi. by apply lookup_record_names.
  - intros He. by apply names_of_empty_sheet.
Qed.

Lemma get_record_names_first_column_witness :
  let ws := load_sheet "S" [[None; str "c1"]; [str "r1"; str "a"]] in
  ∃ ws' names,
    get_record_names ws = (ws', Ok names)
    ∧ same_table ws ws'
    ∧ length names = max_row ws
    ∧ (∀ i, (i < max_row ws)%nat → names !! i = Some (value_at ws (i + 1) 1))
    ∧ (_cells ws = ∅ → names = [None]).
Proof.
  intros ws. apply (get_record_names_first_column ws).
  apply well_formedb_spec. vm_compute. reflexivity.
Defined.
End reading_the_names.

(** * has_empty_data_set *)

Lemma post_for_return_all {S A B} (I : S → Prop) (G : A → Prop) (P : B → Prop)
    (l : list A) (body : A → SE S (option B)) s R :
  I s →
  (∀ x s', x ∈ l → I s' →
     post (body x) s'
       (fun s'' r => I s'' ∧ match r with Some b => P b | None => G x end) R) →
  post (for_return l body) s
    (fun s' r => I s' ∧ match r with Some b => P b | None => Forall G l end) R.
Proof.
  revert s. induction l as [|x l IH]; intros s HI Hbody; simpl.
  { apply post_ret. split; [done|constructor]. }
  apply post_bind. eapply post_mono; [apply (Hbody x s); [left|done]| |done].
  intros s' [b|] [HI' HP']; simpl.
  - by apply post_ret.
  - eapply post_mono; [apply IH; [done|]| |done].
    + intros y s'' Hy. apply Hbody. by right.
    + intros s'' [b|] [? ?]; [done|]. split; [done|by constructor].
Qed.

Section has_empty_data_set.
Import openpyxl xutils.

Lemma drop_range n a b : drop n (range a b) = range (a + n) b.
Proof.
  unfold range. rewrite drop_seq. f_equal. lia.
Qed.

Lemma forallb_None (l : list (option value)) :
  forallb (fun v => bool_decide (v = None)) l = true ↔ Forall (fun v => v = None) l.
Proof.
  rewrite forallb_forall, Forall_forall. split; intros Hl x Hx.
  - apply list_elem_of_In, Hl in Hx. by apply bool_decide_eq_true in Hx.
  - apply bool_decide_eq_true, Hl. by apply list_elem_of_In.
Qed.

(** The run of [has_empty_data_set] on a table. *)
Lemma has_empty_data_set_run ws :
  well_formed ws →
  ∃ ws' b,
    has_empty_data_set ws = (ws', Ok b)
    ∧ same_table ws ws'
    ∧ (b = true ↔ ∀ r c, (2 ≤ r)%nat → (2 ≤ c)%nat → value_at ws r c = None).
Proof.
  intros Hwf. pose proof (well_formed_bounds _ Hwf) as [Hmr Hmc].
  set (G := fun r => ∀ c, (2 ≤ c)%nat → value_at ws r c = None).
  set (P := fun b : bool => b = false ∧ ∃ r c, (2 ≤ r)%nat ∧ (2 ≤ c)%nat
                                      ∧ value_at ws r c ≠ None).
  assert (post has_empty_data_set ws
            (fun ws' b => same_table ws ws'
               ∧ (b = true ↔ ∀ r c, (2 ≤ r)%nat → (2 ≤ c)%nat → value_at ws r c = None))
            (fun _ _ => False)) as Hpost.
  { unfold has_empty_data_set, iter_rows.
    apply post_bind, post_bind, post_get_state. cbn [any_given existsb orb negb].
    rewrite andb_false_r. apply post_ret. cbn [or_default b_rows].
    apply post_bind.
    eapply post_mono with (R := fun _ _ => False);
      [apply (post_for_return_all (same_table ws) G P); [done|]| |done].
    - intros r ws1 Hr%elem_of_range Hs1. apply post_bind.
      rewrite row_values_bounds. cbn [b_min_col b_max_col].
      eapply post_mono with (R := fun _ _ => False);
        [apply (post_row_values ws); [done|lia..]| |done].
      intros ws2 row [Hs2 ->]. apply post_ret. split; [done|].
      rewrite <-fmap_drop, (drop_range 1 1).
      destruct (forallb _ _) eqn:Hall.
      + apply forallb_None in Hall. intros c Hc.
        destruct (decide (c ≤ max_column ws)%nat) as [Hle|Hgt].
        * rewrite Forall_fmap, Forall_forall in Hall. apply (Hall c).
          apply elem_of_range. lia.
        * destruct (value_at ws r c) eqn:Hv; [|done].
          assert (value_at ws r c ≠ None) as Hne by congruence.
          apply value_at_in_box in Hne. lia.
      + split; [done|]. apply not_true_iff_false in Hall.
        rewrite forallb_None, Forall_fmap in Hall.
        apply not_Forall_Exists in Hall; [|intros ?; apply _].
        apply Exists_exists in Hall as (c & Hc%elem_of_range & Hv).
        exists r, c. split_and!; [lia..|done].
    - intros ws1 [b|] [Hs1 Hres]; apply post_ret; (split; [done|]); simpl.
      + destruct Hres as (-> & r & c & Hr & Hc & Hv). split; [done|].
        intros Hall. by destruct Hv; apply Hall.
      + split; [|done]. intros _ r c Hr Hc.
        destruct (decide (r ≤ max_row ws)%nat) as [Hle|Hgt].
        * rewrite Forall_forall in Hres. apply (Hres r); [|done].
          apply elem_of_range. lia.
        * destruct (value_at ws r c) eqn:Hv; [|done].
          assert (value_at ws r c ≠ None) as Hne by congruence.
          apply value_at_in_box in Hne. lia. }
  unfold post in Hpost.
  destruct (has_empty_data_set ws) as [ws' [b|e]]; [|done].
  by exists ws', b.
Qed.

(** [has_empty_data_set] returns, without raising, whether every cell
    below the first row and right of the first column is empty; the table
    reads as before. *)
Theorem has_empty_data_set_iff ws :
  well_formed ws →
  ∃ ws' b,
    has_empty_data_set ws = (ws', Ok b)
    ∧ same_table ws ws'
    ∧ (b = true ↔ ∀ r c, (2 ≤ r)%nat → (2 ≤ c)%nat → value_at ws r c = None).
Proof. apply has_empty_data_set_run. Qed.

Lemma has_empty_data_set_iff_witness :
  let ws := load_sheet "S" [[None; str "c1"]; [str "r1"; None]] in
  ∃ ws' b,
    has_empty_data_set ws = (ws', Ok b)
    ∧ same_table ws ws'
    ∧ (b = true ↔ ∀ r c, (2 ≤ r)%nat → (2 ≤ c)%nat → value_at ws r c = None).
Proof.
  intros ws. apply (has_empty_data_set_iff ws).
  apply well_formedb_spec. vm_compute. reflexivity.
Defined.
End has_empty_data_set.

(** * validate_input: the corner cell, the context *)

Section validate_more.
Import openpyxl xutils.
Implicit Types (ctx : gmap (string * value * value) (string * nat * nat)).

(** [validate_sheet] on a sheet with a value in the corner cell: one
    finding for the cell A1 is appended and the function returns; the
    context is the same. *)
Theorem validate_sheet_corner name ignore_blanks ws res ctx x :
  well_formed ws → value_at ws 1 1 = Some x →
  ∃ ws',
    validate_sheet name ignore_blanks (mkVState ws res ctx)
    = (mkVState ws' (res ++ [mkInputInconsistency NonEmptyA1 name (title ws) 1 1]) ctx,
       Ok tt)
    ∧ same_table ws ws'.
Proof.
  intros Hwf Hx. pose proof (well_formed_bounds _ Hwf) as [Hmr Hmc].
  exists (_get_cell 1 1 ws). split; [|apply same_table_get_cell; lia].
  unfold validate_sheet, read, on_sheet, sheet_title.
  rewrite SE_bind_unfold. cbn [v_sheet v_result v_context].
  rewrite cell_value_run by done. rewrite Hx.
  rewrite SE_bind_unfold. cbn [gets v_sheet]. unfold add, modify. simpl.
  by rewrite title_get_cell.
Qed.

Lemma validate_sheet_corner_witness :
  let ws := load_sheet "S" [[str "x"; str "c1"]; [str "r1"; str "a"]] in
  ∃ ws',
    validate_sheet "a.xlsx" false (mkVState ws [] ∅)
    = (mkVState ws' ([] ++ [mkInputInconsistency NonEmptyA1 "a.xlsx" (title ws) 1 1]) ∅,
       Ok tt)
    ∧ same_table ws ws'.
Proof.
  intros ws. apply (validate_sheet_corner "a.xlsx" false ws [] ∅ (VStr "x")).
  - apply well_formedb_spec. vm_compute. reflexivity.
  - vm_compute. reflexivity.
Defined.

Local Abbreviation J ctx := (fun s : VState => ctx ⊆ v_context s).

Lemma keeps_context_on_sheet {A} ctx (m : SE Worksheet A) : keeps (J ctx) (on_sheet m).
Proof.
  intros s Hs. unfold post, on_sheet. by destruct (m (v_sheet s)) as [ws [x|e]].
Qed.

Lemma keeps_context_add ctx msg wb sh r c : keeps (J ctx) (add msg wb sh r c).
Proof. by intros s Hs. Qed.

Lemma keeps_context_duplicates name ignore_blanks ctx :
  keeps (J ctx) (validate_duplicates_across_workbooks name ignore_blanks).
Proof.
  pose proof (@keeps_context_on_sheet). pose proof keeps_context_add.
  unfold validate_duplicates_across_workbooks, sheet_title.
  apply keeps_bind; [done|]. intros records. apply keeps_for. intros [i record] _.
  destruct record as [rec|]; [|keeps].
  apply keeps_bind; [keeps|]. intros b. destruct b; [keeps|].
  apply keeps_bind; [done|]. intros classes. apply keeps_for. intros [j o] _.
  destruct o as [cls|]; [|keeps].
  apply keeps_bind; [keeps|]. intros t.
  intros s Hs. apply post_bind, post_gets.
  destruct (v_context s !! (t, rec, cls)) as [[[name0 row0] col0]|] eqn:Hk.
  - match goal with |- post ?m s _ _ =>
      enough (keeps (J ctx) m) as Hm by (by apply Hm) end.
    keeps.
  - apply post_modify. simpl. etrans; [done|]. by apply insert_subseteq.
Qed.

Lemma keeps_context_validate_one name ignore_blanks ctx :
  keeps (J ctx) (validate_one name ignore_blanks).
Proof.
  pose proof (@keeps_context_on_sheet). pose proof keeps_context_add.
  unfold validate_one.
  apply keeps_bind; [|intros _; apply keeps_bind;
                        [|intros _; apply keeps_context_duplicates]].
  - unfold validate_sheet, duplicates, read, sheet_title. keeps.
    all: apply (keeps_lift_fst (J ctx)); keeps.
  - unfold validate_empty_cells, read, sheet_title. keeps.
Qed.

(** [validate_input] only adds to the context: an entry that is there at
    the call is there, unchanged, at the return or at the raise. *)
Theorem validate_input_context_grows name ignore_blanks workbook res ctx :
  ctx ⊆ a_context (validate_input name ignore_blanks workbook res ctx).1.
Proof.
  revert res ctx. induction workbook as [|sheet rest IH]; intros res ctx; simpl.
  { done. }
  pose proof (keeps_context_validate_one name ignore_blanks ctx
                (mkVState sheet res ctx)) as Hone.
  unfold post in Hone.
  destruct (validate_one _ _ _) as [s [[]|e]].
  - specialize (IH (v_result s) (v_context s)).
    destruct (validate_input _ _ rest _ _) as [a o]. simpl in *.
    etrans; [by apply Hone|done].
  - simpl. by apply Hone.
Qed.
End validate_more.

(** * merge and clear_found_values: the source *)

Section source_frame.
Import openpyxl xutils.
Variable a : Worksheet.
Hypothesis Hwf : well_formed a.

Local Abbreviation I := (fun s : Sheets => same_table a (source s)).

Lemma keeps_source_on_destination {A} (m : SE Worksheet A) :
  keeps I (on_destination m).
Proof.
  intros s Hs. unfold post, on_destination.
  by destruct (m (destination s)) as [ws [x|e]].
Qed.

Lemma source_on_source {A} (m : SE Worksheet A) (P : A → Prop) s :
  I s →
  returns m (source s) (fun ws' x => same_table a ws' ∧ P x) →
  post (on_source m) s (fun s' x => I s' ∧ P x) (fun s' _ => I s').
Proof.
  intros Hs Hm. unfold returns, post, on_source in *.
  destruct (m (source s)) as [ws' [x|e]]; [|done]. by destruct Hm.
Qed.

Lemma keeps_source_read_cell r c :
  (1 ≤ r ≤ max_row a)%nat → (1 ≤ c ≤ max_column a)%nat →
  keeps I (on_source (read_cell r c)).
Proof.
  intros Hr Hc s Hs.
  eapply post_mono;
    [apply (source_on_source _ (fun v => v = value_at a r c)); [done|]| |done].
  - by apply post_read_in_box.
  - by intros s' x [? _].
Qed.

Lemma keeps_source_merge ignore_blanks : keeps I (merge ignore_blanks).
Proof.
  pose proof (well_formed_bounds _ Hwf) as [Hmr Hmc].
  pose proof (@keeps_source_on_destination).
  unfold merge.
  apply keeps_bind; [done|]. intros dst_classes.
  apply keeps_bind_with with (P := fun _ => True).
  { intros s Hs. apply source_on_source; [done|].
    eapply post_mono with (R := fun _ _ => False);
      [by apply (post_get_class_names a)| |done].
    by intros ws' l [? _]. }
  intros src_classes _.
  apply keeps_bind; [done|]. intros dst_records.
  apply keeps_bind; [apply keeps_comprehension; keeps|]. intros src_dst_map.
  apply keeps_bind_with
    with (P := fun b => b = mkBounds (range 2 (max_row a + 1)) 1 (max_column a)).
  { intros s [Ht [Hr [Hc Hv]]]. apply source_on_source; [by split_and!|].
    unfold returns, iter_rows. apply post_bind, post_get_state.
    cbn [any_given existsb orb negb]. rewrite andb_false_r. apply post_ret.
    split; [by split_and!|]. cbn [or_default]. by rewrite <-Hr, <-Hc. }
  intros b ->. cbn [b_rows]. apply keeps_for. intros r Hr%elem_of_range.
  apply keeps_bind_with with (P := fun _ => True).
  { intros s Hs. apply source_on_source; [done|].
    rewrite row_values_bounds. cbn [b_min_col b_max_col].
    eapply post_mono with (R := fun _ _ => False);
      [apply (post_row_values a); [done|lia..]| |done].
    by intros ws' l [? _]. }
  intros row _. keeps.
Qed.

(** [merge] leaves the source reading as it did, whatever the
    destination, whether it returns or raises. *)
Theorem merge_keeps_source ignore_blanks (dst : Worksheet) :
  same_table a (source (merge ignore_blanks (mkSheets dst a)).1).
Proof.
  pose proof (keeps_source_merge ignore_blanks (mkSheets dst a)) as Hk.
  unfold post in Hk.
  destruct (merge ignore_blanks (mkSheets dst a)) as [s [[]|e]]; by apply Hk.
Qed.
End source_frame.

Lemma merge_keeps_source_witness :
  let src := openpyxl.load_sheet "S" [[None; str "c1"]; [str "r1"; num 1]] in
  same_table src
    (xutils.source (xutils.merge false (xutils.mkSheets (openpyxl.create_sheet "S") src)).1).
Proof.
  intros src. apply (merge_keeps_source src).
  apply well_formedb_spec. vm_compute. reflexivity.
Defined.

(** * clear_found_values: cells are emptied, nothing else *)

Lemma map_result_Ok {E A B} (f : A → result E B) (l : list A) ys :
  map_result f l = Ok ys → Forall2 (fun x y => f x = Ok y) l ys.
Proof.
  revert ys. induction l as [|x l IH]; intros ys; simpl.
  { intros [= <-]. constructor. }
  destruct (f x) as [y|e] eqn:Hx; [|done].
  destruct (map_result f l) as [zs|e]; [|done].
  intros [= <-]. constructor; [done|by apply IH].
Qed.

Section clearing.
Import openpyxl xutils.
Variables d0 a : Worksheet.
Hypothesis Hwf_a : well_formed a.

Local Abbreviation I := (clearing d0 a).

Lemma emptied_same_table d d' : emptied d0 d → same_table d d' → emptied d0 d'.
Proof.
  intros (Ht & Hr & Hc & Hv) (Ht' & Hr' & Hc' & Hv').
  split_and!; try congruence. intros r c. rewrite <-Hv'. apply Hv.
Qed.

Lemma clearing_on_source {A} (m : SE Worksheet A) (P : A → Prop) s :
  I s →
  returns m (source s) (fun ws' x => same_table a ws' ∧ P x) →
  post (on_source m) s (fun s' x => I s' ∧ P x) (fun s' _ => I s').
Proof.
  intros (Hs & Hwf & He) Hm. unfold returns, post, on_source in *.
  destruct (m (source s)) as [ws' [x|e]]; [|done]. destruct Hm. by split_and!.
Qed.

Lemma keeps_clearing_source_cell r c :
  (1 ≤ r ≤ max_row a)%nat → (1 ≤ c ≤ max_column a)%nat →
  keeps I (on_source (read_cell r c)).
Proof.
  intros Hr Hc s Hs.
  eapply post_mono;
    [apply (clearing_on_source _ (fun v => v = value_at a r c)); [done|]| |done].
  - apply post_read_in_box; [apply Hs|done..].
  - by intros s' x [? _].
Qed.

Lemma keeps_clearing_destination_cell r c :
  (1 ≤ r ≤ max_row d0)%nat → (1 ≤ c ≤ max_column d0)%nat →
  keeps I (on_destination (read_cell r c)).
Proof.
  intros Hr Hc s (Hs & Hwf & He). destruct (He) as (_ & Hmr & Hmc & _).
  unfold post. rewrite on_destination_read_cell by lia.
  split_and!; [done| |].
  - apply well_formed_get_cell; [lia..|done].
  - eapply emptied_same_table; [done|]. apply same_table_get_cell; lia.
Qed.

Lemma clearing_names s :
  I s →
  post (on_destination get_record_names) s
    (fun s' l => I s' ∧ length l = max_row d0) (fun s' _ => I s')
  ∧ post (on_destination get_class_names) s
    (fun s' l => I s' ∧ length l = max_column d0) (fun s' _ => I s').
Proof.
  intros (Hs & Hwf & He). destruct (He) as (_ & Hmr & Hmc & _). split.
  - apply post_on_destination.
    eapply post_mono;
      [apply post_and; [by apply (post_get_record_names (destination s))
                       |apply (keeps_get_record_names well_formed); [keeps|done]]| |].
    + intros ws' l [[Hst ->] Hwf']. cbn [destination source].
      split; [|by rewrite length_record_names].
      split_and!; [done..|by eapply emptied_same_table].
    + by intros ws' e [? _].
  - apply post_on_destination.
    eapply post_mono;
      [apply post_and; [by apply (post_get_class_names (destination s))
                       |apply (keeps_get_class_names well_formed); [keeps|done]]| |].
    + intros ws' l [[Hst ->] Hwf']. cbn [destination source].
      split; [|by rewrite length_class_names].
      split_and!; [done..|by eapply emptied_same_table].
    + by intros ws' e [? _].
Qed.

(** Emptying a cell inside the bounds. *)
Lemma keeps_clearing_null r c :
  (1 ≤ r ≤ max_row d0)%nat → (1 ≤ c ≤ max_column d0)%nat →
  keeps I (on_destination (k ← cell r c None; assign_value k None)).
Proof.
  intros Hr Hc s (Hs & Hwf & He). destruct (He) as (Ht & Hmr & Hmc & Hv).
  apply post_on_destination. unfold post.
  rewrite SE_bind_unfold, cell_None_run by lia. cbn [assign_value modify].
  pose proof (settled_get_cell (destination s) r c ltac:(lia) ltac:(lia) Hwf) as Hset.
  pose proof (lookup_get_cell (destination s) r c) as Hl.
  pose proof (settled_set_value _ r c None Hl Hset) as [Hwf' _].
  unfold clearing, emptied. cbn [destination source].
  split_and!; [done..| | | |].
  - simpl. by rewrite title_get_cell.
  - rewrite (max_row_insert (_get_cell r c (destination s)) _ r c None) by (done || lia).
    rewrite max_row_get_cell by lia. lia.
  - rewrite (max_column_insert (_get_cell r c (destination s)) _ r c None) by (done || lia).
    rewrite max_column_get_cell by lia. lia.
  - intros r' c'. rewrite value_at_set_value_eq, value_at_get_cell.
    case_decide; [by right|apply Hv].
Qed.

Local Abbreviation inside n :=
  (Forall (fun o : option nat => ∀ k, o = Some k → (1 ≤ k ≤ n)%nat)).

Lemma clearing_item (l : list (option nat)) n i s :
  inside n l → I s →
  post (item l i) s (fun s' o => I s' ∧ ∀ k, o = Some k → (1 ≤ k ≤ n)%nat)
                    (fun s' _ => I s').
Proof.
  intros Hl Hs. apply post_item. destruct (l !! i) as [o|] eqn:Hi; [|done].
  split; [done|]. rewrite Forall_forall in Hl. apply Hl.
  by eapply list_elem_of_lookup_2.
Qed.

Lemma keeps_clearing_details sr sc sv dr dc dv :
  (1 ≤ sr ≤ max_row a)%nat → (1 ≤ sc ≤ max_column a)%nat →
  (1 ≤ dr ≤ max_row d0)%nat → (1 ≤ dc ≤ max_column d0)%nat →
  keeps I (cell_details sr sc sv dr dc dv).
Proof.
  intros Hsr Hsc Hdr Hdc. unfold cell_details.
  apply keeps_bind; [apply keeps_clearing_source_cell; lia|]. intros x1.
  apply keeps_bind; [apply keeps_clearing_source_cell; lia|]. intros x2.
  apply keeps_bind; [apply keeps_clearing_destination_cell; lia|]. intros x3.
  apply keeps_bind; [apply keeps_clearing_destination_cell; lia|]. intros x4.
  keeps.
Qed.

Lemma keeps_clearing_clear_cell rmap cmap sr sc sv :
  inside (max_row d0) rmap → inside (max_column d0) cmap →
  (1 ≤ sr ≤ max_row a)%nat → (1 ≤ sc ≤ max_column a)%nat →
  keeps I (clear_cell rmap cmap sr sc sv).
Proof.
  intros Hrmap Hcmap Hsr Hsc. unfold clear_cell.
  eapply keeps_bind_with; [intros s Hs; by apply (clearing_item rmap)|].
  intros dst_row Hdr.
  eapply keeps_bind_with; [intros s Hs; by apply (clearing_item cmap)|].
  intros dst_col Hdc.
  destruct dst_row as [dr|]; [|keeps]. destruct dst_col as [dc|]; [|keeps].
  specialize (Hdr _ eq_refl). specialize (Hdc _ eq_refl).
  apply keeps_bind; [by apply keeps_clearing_destination_cell|]. intros dst_val.
  destruct dst_val as [dv|].
  - apply keeps_bind; [keeps|]. intros close. destruct close.
    + by apply keeps_clearing_null.
    + apply keeps_bind; [by apply keeps_clearing_details|]. keeps.
  - apply keeps_bind; [by apply keeps_clearing_details|]. keeps.
Qed.

Lemma clear_mapper_inside (names : list (option value)) l ys :
  map_result (clear_mapper names) l = Ok ys → inside (length names) ys.
Proof.
  intros HF%map_result_Ok. apply Forall_forall. intros o Ho.
  apply list_elem_of_lookup_1 in Ho as [i Hi].
  destruct (Forall2_lookup_r _ _ _ _ _ HF Hi) as (x & _ & Hx).
  unfold clear_mapper in Hx.
  destruct (list_index names x) as [k|] eqn:Hk; [|done]. injection Hx as <-.
  intros k' [= <-]. apply list_index_Some in Hk as [Hk _].
  apply lookup_lt_Some in Hk. lia.
Qed.

Lemma keeps_clearing ignore_blanks trim_class_names :
  keeps I (clear_found_values ignore_blanks trim_class_names).
Proof.
  pose proof (well_formed_bounds _ Hwf_a) as [Hmr Hmc].
  unfold clear_found_values.
  eapply keeps_bind_with; [intros s Hs; by apply clearing_names|].
  intros dst_records Hdr.
  apply keeps_bind_with with (P := fun _ => True).
  { intros s Hs. apply clearing_on_source; [done|].
    eapply post_mono with (R := fun _ _ => False);
      [apply (post_get_record_names a); [done|apply Hs]| |done].
    by intros ws' l [? _]. }
  intros src_records _.
  eapply keeps_bind_with; [intros s Hs; by apply clearing_names|].
  intros dst_classes Hdc.
  apply keeps_bind_with with (P := fun _ => True).
  { intros s Hs. apply clearing_on_source; [done|].
    eapply post_mono with (R := fun _ _ => False);
      [apply (post_get_class_names a); [done|apply Hs]| |done].
    by intros ws' l [? _]. }
  intros src_classes _.
  apply keeps_bind; [keeps|]. intros src_records'.
  destruct (map_result (clear_mapper dst_records) src_records')
    as [rmap|v] eqn:Hrmap; [|keeps].
  apply clear_mapper_inside in Hrmap. rewrite Hdr in Hrmap.
  apply keeps_bind_with with (P := fun m => m = rmap);
    [intros s Hs; by apply post_ret|]. intros ? ->.
  match goal with |- context [map_result ?f src_classes] =>
    destruct (map_result f src_classes) as [cmap|d] eqn:Hcmap end; [|keeps].
  assert (inside (max_column d0) cmap) as Hcmap'.
  { rewrite <-Hdc. apply map_result_Ok in Hcmap. apply Forall_forall. intros o Ho.
    apply list_elem_of_lookup_1 in Ho as [i Hi].
    destruct (Forall2_lookup_r _ _ _ _ _ Hcmap Hi) as (x & _ & Hx).
    destruct (if trim_class_names then trim_class_name x else Ok x) as [x'|];
      [|done].
    unfold clear_mapper in Hx.
    destruct (list_index dst_classes x') as [k|] eqn:Hk; [|done]. injection Hx as <-.
    intros k' [= <-]. apply list_index_Some in Hk as [Hk _].
    apply lookup_lt_Some in Hk. lia. }
  apply keeps_bind_with with (P := fun m => m = cmap);
    [intros s Hs; by apply post_ret|]. intros ? ->.
  apply keeps_bind_with with (P := fun src => same_table a src).
  { intros s Hs. apply post_gets. split; [done|apply Hs]. }
  intros src (_ & Hsr & _ & _). rewrite <-Hsr.
  apply keeps_for. intros src_row Hrow%elem_of_range.
  apply keeps_bind; [apply keeps_clearing_source_cell; lia|]. intros h.
  destruct h as [h|]; [|keeps].
  apply keeps_bind.
  { destruct ignore_blanks; [|keeps].
    apply keeps_bind; [apply keeps_clearing_source_cell; lia|]. keeps. }
  intros bl. destruct bl; [keeps|].
  apply keeps_bind_with with (P := fun src => same_table a src).
  { intros s Hs. apply post_gets. split; [done|apply Hs]. }
  intros src' (_ & _ & Hsc & _). rewrite <-Hsc.
  apply keeps_for. intros src_col Hcol%elem_of_range.
  apply keeps_bind; [apply keeps_clearing_source_cell; lia|]. intros src_val.
  destruct src_val as [sv|]; [|keeps].
  apply keeps_clearing_clear_cell; [done..|lia|lia].
Qed.
End clearing.

(** [clear_found_values] only empties cells of the destination: whether it
    returns or raises, the destination has the title and the bounds it had,
    and each of its cells holds the value it had or none; the source reads
    as it did. *)
Theorem clear_found_values_only_empties (ignore_blanks trim_class_names : bool)
    (dst src : openpyxl.Worksheet) :
  well_formed dst → well_formed src →
  let s := (xutils.clear_found_values ignore_blanks trim_class_names
              (xutils.mkSheets dst src)).1 in
  emptied dst (xutils.destination s) ∧ same_table src (xutils.source s).
Proof.
  intros Hd Hs.
  pose proof (keeps_clearing dst src Hs ignore_blanks trim_class_names
                (xutils.mkSheets dst src)) as Hk.
  unfold post in Hk.
  assert (clearing dst src (xutils.mkSheets dst src)) as H0.
  { split_and!; try done. split_and!; try done. by left. }
  destruct (xutils.clear_found_values _ _ _) as [s [[]|e]];
    destruct (Hk H0) as (? & ? & ?); done.
Qed.

Lemma clear_found_values_only_empties_witness :
  let dst := openpyxl.load_sheet "S" [[None; str "c1"]; [str "r1"; num 1]] in
  let src := openpyxl.load_sheet "S" [[None; str "c1"]; [str "r1"; num 1]] in
  let s := (xutils.clear_found_values false false (xutils.mkSheets dst src)).1 in
  emptied dst (xutils.destination s) ∧ same_table src (xutils.source s).
Proof.
  intros dst src.
  apply (clear_found_values_only_empties false false dst src);
    apply well_formedb_spec; vm_compute; reflexivity.
Defined.

(** * column_swap: the two columns are exchanged *)

Section swap_effect.
Import openpyxl xutils.
Implicit Types (ws : Worksheet) (r c : nat).

Lemma lookup_get_cell_mono ws r c k :
  is_Some (_cells ws !! k) → is_Some (_cells (_get_cell r c ws) !! k).
Proof.
  intros Hk. rewrite cells_get_cell.
  destruct (decide ((r, c) = k)) as [<-|Hne].
  - by rewrite lookup_insert_eq.
  - by rewrite lookup_insert_ne.
Qed.

Lemma value_at_outside ws r c :
  well_formed ws → ¬ (1 ≤ r ≤ max_row ws)%nat → value_at ws r c = None.
Proof.
  intros [Hk _] Hr. unfold value_at.
  destruct (_cells ws !! (r, c)) as [v|] eqn:Hl; [|done].
  assert (is_Some (_cells ws !! (r, c))) as Hs by by rewrite Hl.
  pose proof (Hk _ _ Hs). pose proof (max_row_ge _ _ _ Hs). lia.
Qed.

(** One row of [iter_rows(values_only=False)]: the cells of the row, all
    of them there afterwards. *)
Lemma row_cells_run ws rows r :
  well_formed ws → (1 ≤ r ≤ max_row ws)%nat →
  returns (row_cells (mkBounds rows 1 (max_column ws)) r) ws
    (fun ws' cells =>
       same_table ws ws' ∧ settled ws'
       ∧ cells = (fun c => (r, c)) <$> range 1 (max_column ws + 1)
       ∧ ∀ c, (1 ≤ c ≤ max_column ws)%nat → is_Some (_cells ws' !! (r, c))).
Proof.
  intros Hwf Hr. unfold returns, row_cells. cbn [b_min_col b_max_col].
  eapply post_mono with (R := fun _ _ => False);
    [apply (post_comprehension_prefix
              (fun l1 ys ws' =>
                 same_table ws ws' ∧ well_formed ws'
                 ∧ (l1 ≠ [] → _cells ws' ≠ ∅)
                 ∧ ys = (fun c => (r, c)) <$> l1
                 ∧ ∀ c, c ∈ l1 → is_Some (_cells ws' !! (r, c))))| |done].
  - split_and!; try done. intros c Hc. by apply elem_of_nil in Hc.
  - intros l1 c l2 ys ws' Hl (Hs & Hwf' & _ & -> & Hc).
    assert (c ∈ range 1 (max_column ws + 1)) as Hin.
    { rewrite Hl. apply elem_of_app. right. left. }
    apply elem_of_range in Hin.
    unfold post. rewrite cell_None_run by lia.
    destruct (Hs) as (_ & Hmr & Hmc & _).
    split_and!.
    + etrans; [done|]. apply same_table_get_cell; lia.
    + apply well_formed_get_cell; [lia..|done].
    + intros _. apply cells_get_cell_ne.
    + by rewrite fmap_app.
    + intros c' [Hc'|Hc']%elem_of_app.
      * by apply lookup_get_cell_mono, Hc.
      * apply list_elem_of_singleton in Hc' as ->. apply lookup_get_cell.
  - intros ws' cells (Hs & Hwf' & Hne & -> & Hc). split_and!; try done.
    + split; [done|]. apply Hne.
      pose proof (well_formed_bounds _ Hwf) as [_ Hmc].
      intros Hnil. apply (f_equal length) in Hnil.
      rewrite length_range in Hnil. simpl in Hnil. lia.
    + intros c Hcr. apply Hc, elem_of_range. lia.
Qed.

Lemma swapped_column_same i c : swapped_column i i c = c.
Proof. unfold swapped_column. by repeat case_decide. Qed.

(** The two assignments of the loop body, on cells that are there. *)
Lemma swap_in_row ws r (i j : nat) :
  settled ws → i ≠ j →
  is_Some (_cells ws !! (r, i)) → is_Some (_cells ws !! (r, j)) →
  let ws' := set_value (r, j) (value_at ws r i)
               (set_value (r, i) (value_at ws r j) ws) in
  settled ws' ∧ title ws' = title ws
  ∧ max_row ws' = max_row ws ∧ max_column ws' = max_column ws
  ∧ ∀ r' c', value_at ws' r' c'
             = if decide (r' = r) then value_at ws r (swapped_column i j c')
               else value_at ws r' c'.
Proof.
  intros Hs Hij Hi Hj ws'.
  pose proof (settled_set_value ws r i (value_at ws r j) Hi Hs) as Hs1.
  assert (is_Some (_cells (set_value (r, i) (value_at ws r j) ws) !! (r, j))) as Hj1.
  { simpl. rewrite lookup_insert_ne; [done|]. congruence. }
  pose proof (settled_set_value _ r j (value_at ws r i) Hj1 Hs1) as Hs2.
  destruct Hs as [[Hk _] _]. destruct (Hk _ _ Hi), (Hk _ _ Hj).
  pose proof (max_row_ge _ _ _ Hi). pose proof (max_column_ge _ _ _ Hi).
  pose proof (max_column_ge _ _ _ Hj).
  split_and!; [done|done| | |].
  - unfold ws'.
    rewrite (max_row_insert (set_value (r, i) (value_at ws r j) ws) _ r j
               (value_at ws r i)) by done.
    rewrite (max_row_insert ws _ r i (value_at ws r j)) by done. lia.
  - unfold ws'.
    rewrite (max_column_insert (set_value (r, i) (value_at ws r j) ws) _ r j
               (value_at ws r i)) by done.
    rewrite (max_column_insert ws _ r i (value_at ws r j)) by done. lia.
  - intros r' c'. unfold ws'. rewrite !value_at_set_value_eq.
    unfold swapped_column. repeat case_decide; simplify_eq; try done.
Qed.

Lemma tuple_item_cell {S} r (n : nat) (k : Z) (s : S) :
  1 ≤ k ≤ Z.of_nat n →
  tuple_item ((fun c => (r, c)) <$> range 1 (n + 1)) (k - 1) s
  = (s, Ok (r, Z.to_nat k)).
Proof.
  intros Hk. unfold tuple_item. destruct (Z.ltb_spec (k - 1) 0); [lia|].
  unfold item. rewrite list_lookup_fmap.
  unfold range. replace (n + 1 - 1)%nat with n by lia.
  rewrite lookup_seq_lt by lia. simpl.
  replace (Datatypes.S (Z.to_nat (k - 1))) with (Z.to_nat k) by lia. done.
Qed.

(** The body of the loop of [column_swap] on one row. *)
Lemma swap_row_run rows r (i j : Z) ws :
  settled ws →
  (1 ≤ r ≤ max_row ws)%nat →
  1 ≤ i ≤ Z.of_nat (max_column ws) → 1 ≤ j ≤ Z.of_nat (max_column ws) → i ≠ j →
  returns (row ← row_cells (mkBounds rows 1 (max_column ws)) r;
           cj ← tuple_item row (j - 1);
           vj ← value_of cj;
           ci ← tuple_item row (i - 1);
           vi ← value_of ci;
           ci' ← tuple_item row (i - 1);
           _ ← assign_value ci' vj;
           cj' ← tuple_item row (j - 1);
           assign_value cj' vi) ws
    (fun ws' _ =>
       settled ws' ∧ title ws' = title ws
       ∧ max_row ws' = max_row ws ∧ max_column ws' = max_column ws
       ∧ ∀ r' c', value_at ws' r' c'
                  = if decide (r' = r)
                    then value_at ws r (swapped_column (Z.to_nat i) (Z.to_nat j) c')
                    else value_at ws r' c').
Proof.
  intros Hs Hr Hi Hj Hij. unfold returns.
  apply post_bind.
  eapply post_mono with (R := fun _ _ => False);
    [apply row_cells_run; [apply Hs|lia]| |done].
  intros ws1 row (Hst & Hs1 & -> & Hcells). unfold post.
  rewrite SE_bind_unfold, tuple_item_cell by lia.
  rewrite SE_bind_unfold. cbn [value_of gets fst snd].
  rewrite SE_bind_unfold, tuple_item_cell by lia.
  rewrite SE_bind_unfold. cbn [value_of gets fst snd].
  rewrite SE_bind_unfold, tuple_item_cell by lia.
  rewrite SE_bind_unfold. cbn [assign_value modify].
  rewrite SE_bind_unfold, tuple_item_cell by lia.
  cbn [assign_value modify].
  destruct (swap_in_row ws1 r (Z.to_nat i) (Z.to_nat j) Hs1)
    as (Hs2 & Ht2 & Hmr2 & Hmc2 & Hv2); [lia|apply Hcells; lia..|].
  destruct Hst as (Ht & Hmr1 & Hmc1 & Hv1).
  split_and!; [done|congruence..|].
  intros r' c'. rewrite Hv2, <-!Hv1. done.
Qed.

(** The run of [column_swap] for two columns of the sheet. *)
Lemma column_swap_run ws (i j : Z) :
  well_formed ws →
  1 ≤ i ≤ Z.of_nat (max_column ws) → 1 ≤ j ≤ Z.of_nat (max_column ws) →
  ∃ ws', column_swap i j ws = (ws', Ok tt)
    ∧ well_formed ws' ∧ title ws' = title ws
    ∧ max_row ws' = max_row ws ∧ max_column ws' = max_column ws
    ∧ ∀ r c, value_at ws' r c
             = value_at ws r (swapped_column (Z.to_nat i) (Z.to_nat j) c).
Proof.
  intros Hwf Hi Hj. pose proof (well_formed_bounds _ Hwf) as [Hmr Hmc].
  destruct (column_swap_first_test ws i j) as (ws1 & b & Hrun & Hb & Hws1).
  unfold column_swap. rewrite SE_bind_unfold. cbn [get_state].
  rewrite SE_bind_unfold, Hrun. destruct b.
  { (* the degenerate table *)
    subst ws1. destruct Hb as [(_ & _ & Hr1 & Hc1 & _) _]; [done|].
    exists (_get_cell 1 1 ws). split; [done|].
    destruct (same_table_get_cell ws 1 1) as (Ht & Hr & Hc & Hv); [lia..|].
    split_and!; [by apply well_formed_get_cell|done..|]. intros r c. rewrite <-Hv.
    replace (Z.to_nat i) with 1%nat by lia. replace (Z.to_nat j) with 1%nat by lia.
    by rewrite swapped_column_same. }
  subst ws1. rewrite SE_bind_unfold. cbn [get_state].
  destruct (Z.ltb_spec i 1); [lia|]. destruct (Z.ltb_spec j 1); [lia|].
  destruct (Z.ltb_spec (Z.of_nat (max_column ws)) i); [lia|].
  destruct (Z.ltb_spec (Z.of_nat (max_column ws)) j); [lia|]. cbn [orb].
  destruct (Z.eqb_spec i j) as [->|Hij].
  { exists ws. split_and!; [done..|]. intros r c. by rewrite swapped_column_same. }
  assert (settled ws) as Hset.
  { split; [done|]. intros He. destruct Hb as [_ Hb]. discriminate Hb.
    split_and!; [lia..|]. split_and!.
    - by apply max_row_empty.
    - by apply max_column_empty.
    - unfold value_at. by rewrite He, lookup_empty. }
  pose proof (settled_current_row _ Hset) as Hcur.
  rewrite SE_bind_unfold. unfold iter_rows. rewrite SE_bind_unfold.
  cbn [get_state any_given existsb orb negb]. rewrite Hcur.
  destruct (Nat.eqb_spec (max_row ws) 0) as [?|_]; [lia|]. cbn [andb mret SE_ret].
  cbn [or_default b_rows].
  set (sw := swapped_column (Z.to_nat i) (Z.to_nat j)).
  match goal with |- context [for_ ?l ?body] =>
    assert (post (for_ l body) ws
              (fun ws' _ =>
                 settled ws' ∧ title ws' = title ws
                 ∧ max_row ws' = max_row ws ∧ max_column ws' = max_column ws
                 ∧ ∀ r c, value_at ws' r c
                          = if decide (r ∈ range 1 (max_row ws + 1))
                            then value_at ws r (sw c) else value_at ws r c)
              (fun _ _ => False)) as Hpost end.
  { eapply post_mono with (R := fun _ _ => False);
      [apply (post_for_prefix
                (fun l1 ws' =>
                   settled ws' ∧ title ws' = title ws
                   ∧ max_row ws' = max_row ws ∧ max_column ws' = max_column ws
                   ∧ ∀ r c, value_at ws' r c
                            = if decide (r ∈ l1)
                              then value_at ws r (sw c) else value_at ws r c))| |done].
    - split_and!; try done.
    - intros l1 r l2 ws' Hl (Hs' & Ht' & Hmr' & Hmc' & Hv').
      assert (r ∈ range 1 (max_row ws + 1)) as Hin.
      { rewrite Hl. apply elem_of_app. right. left. }
      assert (r ∉ l1) as Hnin.
      { intros Hin1.
        assert (NoDup (range 1 (max_row ws + 1))) as Hnd by apply NoDup_seq.
        rewrite Hl in Hnd. apply NoDup_app in Hnd as (_ & Hnd & _).
        apply (Hnd r Hin1). left. }
      apply elem_of_range in Hin. rewrite <-Hmc'.
      eapply post_mono with (R := fun _ _ => False);
        [apply (swap_row_run (range 1 (max_row ws + 1)) r i j ws');
           [done|lia|lia|lia|done]| |done].
      intros ws'' _ (Hs'' & Ht'' & Hmr'' & Hmc'' & Hv'').
      split_and!; [done|congruence..|].
      intros r' c'. rewrite Hv''. destruct (decide (r' = r)) as [->|Hne].
      + rewrite decide_True by (apply elem_of_app; right; left).
        rewrite Hv', decide_False by done. done.
      + rewrite Hv'. destruct (decide (r' ∈ l1)) as [Hr'|Hr'].
        * rewrite decide_True; [done|]. apply elem_of_app. by left.
        * rewrite decide_False; [done|].
          intros [?|?%list_elem_of_singleton]%elem_of_app; done.
    - done. }
  unfold post in Hpost.
  match goal with |- context [for_ ?l ?body ws] =>
    destruct (for_ l body ws) as [ws' [[]|e]] end; [|done].
  destruct Hpost as (Hs' & Ht' & Hmr' & Hmc' & Hv').
  exists ws'. split_and!; [done|apply Hs'|done..|].
  intros r c. rewrite Hv'. case_decide as Hr; [done|].
  rewrite elem_of_range in Hr.
  rewrite !(value_at_outside ws r) by (done || lia). done.
Qed.

(** [column_swap] with both indices in the sheet returns, and the values
    of the two columns are exchanged in every row; the title and the
    bounds are the same. *)
Theorem column_swap_exchanges ws (i j : Z) :
  well_formed ws →
  1 ≤ i ≤ Z.of_nat (max_column ws) → 1 ≤ j ≤ Z.of_nat (max_column ws) →
  ∃ ws', column_swap i j ws = (ws', Ok tt)
    ∧ well_formed ws' ∧ title ws' = title ws
    ∧ max_row ws' = max_row ws ∧ max_column ws' = max_column ws
    ∧ ∀ r c, value_at ws' r c
             = value_at ws r (swapped_column (Z.to_nat i) (Z.to_nat j) c).
Proof. apply column_swap_run. Qed.

Lemma column_swap_exchanges_witness :
  let ws := load_sheet "S" [[None; str "c2"; str "c1"]; [str "r1"; num 2; num 1]] in
  ∃ ws', column_swap 2 3 ws = (ws', Ok tt)
    ∧ well_formed ws' ∧ title ws' = title ws
    ∧ max_row ws' = max_row ws ∧ max_column ws' = max_column ws
    ∧ ∀ r c, value_at ws' r c
             = value_at ws r (swapped_column (Z.to_nat 2) (Z.to_nat 3) c).
Proof.
  intros ws. apply (column_swap_exchanges ws 2 3).
  - apply well_formedb_spec. vm_compute. reflexivity.
  - vm_compute. split; discriminate.
  - vm_compute. split; discriminate.
Defined.

Lemma swapped_column_twice i j c :
  swapped_column i j (swapped_column i j c) = c.
Proof. unfold swapped_column. repeat case_decide; congruence. Qed.

(** Exchanging the same two columns twice gives back the table. *)
Theorem column_swap_twice ws (i j : Z) :
  well_formed ws →
  1 ≤ i ≤ Z.of_nat (max_column ws) → 1 ≤ j ≤ Z.of_nat (max_column ws) →
  ∃ ws1 ws2,
    column_swap i j ws = (ws1, Ok tt) ∧ column_swap i j ws1 = (ws2, Ok tt)
    ∧ same_table ws ws2.
Proof.
  intros Hwf Hi Hj.
  destruct (column_swap_run ws i j Hwf Hi Hj)
    as (ws1 & Hrun1 & Hwf1 & Ht1 & Hmr1 & Hmc1 & Hv1).
  destruct (column_swap_run ws1 i j Hwf1)
    as (ws2 & Hrun2 & Hwf2 & Ht2 & Hmr2 & Hmc2 & Hv2); [by rewrite Hmc1..|].
  exists ws1, ws2. split_and!; [done|done|].
  unfold same_table. split_and!; [congruence..|].
  intros r c. by rewrite Hv2, Hv1, swapped_column_twice.
Qed.

Lemma column_swap_twice_witness :
  let ws := load_sheet "S" [[None; str "c2"; str "c1"]; [str "r1"; num 2; num 1]] in
  ∃ ws1 ws2,
    column_swap 2 3 ws = (ws1, Ok tt) ∧ column_swap 2 3 ws1 = (ws2, Ok tt)
    ∧ same_table ws ws2.
Proof.
  intros ws. apply (column_swap_twice ws 2 3).
  - apply well_formedb_spec. vm_compute. reflexivity.
  - vm_compute. split; discriminate.
  - vm_compute. split; discriminate.
Defined.
End swap_effect.

(** * equal *)

Section equal.
Import openpyxl xutils.
Variables s1 s2 : Worksheet.
Hypothesis Hwf1 : well_formed s1.
Hypothesis Hwf2 : well_formed s2.

Local Abbreviation I :=
  (fun s : Worksheet * Worksheet => same_table s1 s.1 ∧ same_table s2 s.2).

Lemma equal_cell s r c :
  I s → (1 ≤ r ≤ max_row s1)%nat → (1 ≤ c ≤ max_column s1)%nat →
  max_row s1 = max_row s2 → max_column s1 = max_column s2 →
  returns (v1 ← on_first (k ← cell r c None; value_of k);
           v2 ← on_second (k ← cell r c None; value_of k);
           mret (if decide (v1 = v2) then None else Some false)) s
    (fun s' o => I s' ∧ match o with
                        | Some b => b = false ∧ value_at s1 r c ≠ value_at s2 r c
                        | None => value_at s1 r c = value_at s2 r c
                        end).
Proof.
  intros [H1 H2] Hr Hc Hmr Hmc. unfold returns, post.
  rewrite SE_bind_unfold. unfold on_first at 1. rewrite cell_value_run by lia.
  rewrite SE_bind_unfold. unfold on_second at 1. cbn [fst snd].
  rewrite cell_value_run by lia. cbn [fst snd mret].
  destruct (H1) as (_ & Hr1 & Hc1 & Hv1). destruct (H2) as (_ & Hr2 & Hc2 & Hv2).
  rewrite <-Hv1, <-Hv2.
  assert (I (_get_cell r c s.1, _get_cell r c s.2)) as HI.
  { split; simpl; (etrans; [done|]); apply same_table_get_cell; lia. }
  by case_decide.
Qed.

Lemma equal_post :
  post equal (s1, s2)
    (fun s' b => I s'
       ∧ (b = true ↔ max_row s1 = max_row s2 ∧ max_column s1 = max_column s2
                     ∧ ∀ r c, value_at s1 r c = value_at s2 r c))
    (fun _ _ => False).
Proof.
  pose proof (well_formed_bounds _ Hwf1) as [? ?].
  unfold equal. apply post_bind, post_get_state. cbn [fst snd].
  destruct (Nat.eqb_spec (max_row s1) (max_row s2)) as [Hmr|Hmr]; cbn [negb orb].
  2:{ apply post_ret. split; [done|]. split; [done|]. by intros (? & _). }
  destruct (Nat.eqb_spec (max_column s1) (max_column s2)) as [Hmc|Hmc]; cbn [negb orb].
  2:{ apply post_ret. split; [done|]. split; [done|]. by intros (_ & ? & _). }
  apply post_bind, post_get_state. cbn [fst snd]. apply post_bind.
  eapply post_mono with (R := fun _ _ => False);
    [apply (post_for_return_all I
              (fun r => ∀ c, (1 ≤ c ≤ max_column s1)%nat →
                             value_at s1 r c = value_at s2 r c)
              (fun b : bool => b = false
                 ∧ ∃ r c, value_at s1 r c ≠ value_at s2 r c)); [done|]| |done].
  - intros r s Hr%elem_of_range Hs. apply post_bind, post_get_state.
    destruct (Hs) as [(_ & _ & <- & _) _].
    eapply post_mono with (R := fun _ _ => False);
      [apply (post_for_return_all I
                (fun c => value_at s1 r c = value_at s2 r c)
                (fun b : bool => b = false
                   ∧ ∃ c, value_at s1 r c ≠ value_at s2 r c)); [done|]| |done].
    + intros c s' Hc%elem_of_range Hs'.
      eapply post_mono with (R := fun _ _ => False);
        [apply (equal_cell s' r c); [done|lia..|done|done]| |done].
      intros s'' [b|] [? Hb]; (split; [done|]); [|done].
      destruct Hb as [-> Hne]. split; [done|]. by exists c.
    + intros s' [b|] [? Hb]; (split; [done|]).
      * destruct Hb as (-> & c & Hne). split; [done|]. by exists r, c.
      * intros c Hc. rewrite Forall_forall in Hb. apply Hb, elem_of_range. lia.
  - intros s [b|] [Hs Hb]; apply post_ret; (split; [done|]); simpl.
    + destruct Hb as (-> & r & c & Hne). split; [done|].
      intros (_ & _ & Hall). by destruct Hne.
    + split; [|done]. intros _. split_and!; [done..|]. intros r c.
      destruct (decide (1 ≤ r ≤ max_row s1)%nat) as [Hr|Hr].
      * destruct (decide (1 ≤ c ≤ max_column s1)%nat) as [Hc|Hc].
        { rewrite Forall_forall in Hb. apply (Hb r); [|done].
          apply elem_of_range. lia. }
        destruct (value_at s1 r c) eqn:E1.
        { assert (value_at s1 r c ≠ None) as Hn by congruence.
          apply value_at_in_box in Hn. destruct Hwf1 as [Hk _].
          unfold value_at in E1.
          destruct (_cells s1 !! (r, c)) eqn:El; [|done].
          assert (is_Some (_cells s1 !! (r, c))) as Hsome by by rewrite El.
          apply Hk in Hsome. lia. }
        destruct (value_at s2 r c) eqn:E2; [|done].
        assert (value_at s2 r c ≠ None) as Hn by congruence.
        apply value_at_in_box in Hn. destruct Hwf2 as [Hk _].
        unfold value_at in E2.
        destruct (_cells s2 !! (r, c)) eqn:El; [|done].
        assert (is_Some (_cells s2 !! (r, c))) as Hsome by by rewrite El.
        apply Hk in Hsome. lia.
      * rewrite (value_at_outside s1), (value_at_outside s2); [done|done|lia|done|lia].
Qed.
End equal.

(** [equal] never raises; it returns True exactly when the two sheets have
    the same bounds and the same value in every cell (the titles are not
    compared); both sheets read the same afterwards. *)
Theorem equal_iff (s1 s2 : openpyxl.Worksheet) :
  well_formed s1 → well_formed s2 →
  ∃ s1' s2' b,
    xutils.equal (s1, s2) = ((s1', s2'), Ok b)
    ∧ same_table s1 s1' ∧ same_table s2 s2'
    ∧ (b = true ↔ openpyxl.max_row s1 = openpyxl.max_row s2
                  ∧ openpyxl.max_column s1 = openpyxl.max_column s2
                  ∧ ∀ r c, openpyxl.value_at s1 r c = openpyxl.value_at s2 r c).
Proof.
  intros H1 H2. pose proof (equal_post s1 s2 H1 H2) as Hpost. unfold post in Hpost.
  destruct (xutils.equal (s1, s2)) as [[s1' s2'] [b|e]]; [|done].
  destruct Hpost as [[? ?] ?]. by exists s1', s2', b.
Qed.

Lemma equal_iff_witness :
  let s1 := openpyxl.load_sheet "A" [[None; str "c1"]; [str "r1"; num 1]] in
  let s2 := openpyxl.load_sheet "B" [[None; str "c1"]; [str "r1"; num 1]] in
  ∃ s1' s2' b,
    xutils.equal (s1, s2) = ((s1', s2'), Ok b)
    ∧ same_table s1 s1' ∧ same_table s2 s2'
    ∧ (b = true ↔ openpyxl.max_row s1 = openpyxl.max_row s2
                  ∧ openpyxl.max_column s1 = openpyxl.max_column s2
                  ∧ ∀ r c, openpyxl.value_at s1 r c = openpyxl.value_at s2 r c).
Proof.
  intros s1 s2.
  apply (equal_iff s1 s2); apply well_formedb_spec; vm_compute; reflexivity.
Defined.

(** * merge: the loop over the rows of the source *)

Section merge_rows.
Import openpyxl xutils.
Variable ignore_blanks : bool.
Variables d0 a : Worksheet.
Hypothesis Htidy : tidy d0.
Hypothesis Hvalid : valid_table ignore_blanks a.

Local Abbreviation before nr nc i j :=
  ((i + 1 <? nr) || ((i + 1 =? nr) && (j + 1 <? nc)))%nat.
Local Abbreviation inv := (merge_inv ignore_blanks d0 a).
Local Abbreviation at_ := (src_at ignore_blanks a).

(** Changing the bounds of the invariant. *)
Lemma merge_inv_bounds nrec nr nc nr' nc' s :
  inv nrec nr nc s →
  (∀ i j rl cl,
     taken ignore_blanks (Some rl) = true →
     record_names a !! i = Some (Some rl) → class_names a !! j = Some (Some cl) →
     before nr nc i j = before nr' nc' i j) →
  inv nrec nr' nc' s.
Proof.
  intros (Hsrc & Hset & Ht & Hcls & Hrec & Hval) Hb.
  split_and!; try done. intros r c Hr Hc. rewrite (Hval r c Hr Hc). f_equal.
  apply src_at_ext. intros i j rl cl ? ? ? _ _. by apply (Hb i j rl cl).
Qed.

Lemma merge_inv_records nrec nrec' nr nc s :
  inv nrec nr nc s →
  merged_records ignore_blanks d0 a nrec' = merged_records ignore_blanks d0 a nrec →
  inv nrec' nr nc s.
Proof.
  intros (Hsrc & Hset & Ht & Hcls & Hrec & Hval) Hb.
  split_and!; try done. congruence.
Qed.

Lemma lookup_lt_class j x :
  class_names a !! j = Some x → (j < max_column a)%nat.
Proof. intros H%lookup_lt_Some. by rewrite length_class_names in H. Qed.

(** From the start of a row to its first data column. *)
Lemma merge_inv_row_start nrec nr s : inv nrec nr 0 s → inv nrec nr 2 s.
Proof.
  intros Hinv. apply (merge_inv_bounds _ _ _ _ _ _ Hinv).
  intros i [|j] rl cl _ _ Hj.
  - by destruct (src_corner_class ignore_blanks a Hvalid cl).
  - f_equal. destruct (Nat.eqb_spec (i + 1) nr); [|done]. cbn [andb].
    destruct (Nat.ltb_spec (S j + 1) 0), (Nat.ltb_spec (S j + 1) 2); lia || done.
Qed.

(** From the end of a row to the start of the next. *)
Lemma merge_inv_row_end nrec nr s :
  inv nrec nr (max_column a + 1) s → inv nrec (nr + 1) 0 s.
Proof.
  intros Hinv. apply (merge_inv_bounds _ _ _ _ _ _ Hinv).
  intros i j rl cl _ _ Hj%lookup_lt_class.
  destruct (Nat.ltb_spec (i + 1) nr), (Nat.ltb_spec (i + 1) (nr + 1)),
    (Nat.eqb_spec (i + 1) nr), (Nat.eqb_spec (i + 1) (nr + 1)),
    (Nat.ltb_spec (j + 1) (max_column a + 1)), (Nat.ltb_spec (j + 1) 0);
    simpl; lia || done.
Qed.

(** A row that is not taken. *)
Lemma merge_inv_skip nr o s :
  (1 ≤ nr)%nat →
  record_names a !! (nr - 1)%nat = Some o → taken ignore_blanks o = false →
  inv (nr - 1) nr 0 s → inv nr (nr + 1) 0 s.
Proof.
  intros Hnr Ho Ht Hinv.
  apply (merge_inv_records (nr - 1)).
  2:{ replace nr with (S (nr - 1)) at 1 by lia.
      rewrite (merged_records_S _ _ _ _ _ Ho). rewrite decide_False.
      - by rewrite app_nil_r.
      - intros [? _]. congruence. }
  apply (merge_inv_bounds _ _ _ _ _ _ Hinv).
  intros i j rl cl Hrl Hi Hj.
  destruct (Nat.ltb_spec (i + 1) nr), (Nat.ltb_spec (i + 1) (nr + 1)),
    (Nat.eqb_spec (i + 1) nr), (Nat.eqb_spec (i + 1) (nr + 1)),
    (Nat.ltb_spec (j + 1) 0); simpl; try (lia || done).
  replace (nr - 1)%nat with i in Ho by lia. congruence.
Qed.

(** What the invariant says of the names of the destination. *)
Lemma merge_inv_corner nrec nr nc s :
  inv nrec nr nc s → value_at (destination s) 1 1 = None.
Proof.
  intros (_ & Hset & _ & Hcls & _).
  pose proof (class_names_head _ (proj1 Hset)) as Hh. rewrite Hcls in Hh.
  unfold merged_classes in Hh.
  rewrite lookup_app_l in Hh.
  - rewrite class_names_head in Hh by apply Htidy.
    rewrite (tidy_corner _ Htidy) in Hh. congruence.
  - rewrite length_class_names.
    pose proof (well_formed_bounds _ (tidy_well_formed _ Htidy)). lia.
Qed.

Lemma merge_inv_NoDup nrec nr nc s :
  inv nrec nr nc s →
  NoDup (class_names (destination s)) ∧ NoDup (record_names (destination s)).
Proof.
  intros (_ & _ & _ & -> & -> & _). split.
  - by apply (NoDup_merged_classes ignore_blanks).
  - by apply NoDup_merged_records.
Qed.

(** The value of the source at a cell, for the bounds just before and
    just after the cell. *)
Lemma src_at_hit nr jc rl cl :
  (1 ≤ nr)%nat →
  taken ignore_blanks (Some rl) = true →
  record_names a !! (nr - 1)%nat = Some (Some rl) →
  class_names a !! jc = Some (Some cl) →
  at_ nr (jc + 1) (Some rl) (Some cl) = None
  ∧ at_ nr (jc + 2) (Some rl) (Some cl) = value_at a nr (jc + 1).
Proof.
  intros Hnr Ht Hi Hj.
  rewrite !(src_at_lookup ignore_blanks a Hvalid _ _ _ _ _ _ Ht Hi Hj).
  replace (nr - 1 + 1)%nat with nr by lia.
  destruct (Nat.ltb_spec nr nr); [lia|]. rewrite Nat.eqb_refl. cbn [orb andb].
  destruct (Nat.ltb_spec (jc + 1) (jc + 1)); [lia|].
  destruct (Nat.ltb_spec (jc + 1) (jc + 2)); [done|lia].
Qed.

Lemma src_at_miss nr jc orl ocl :
  (1 ≤ nr)%nat →
  ¬ (∃ rl cl, orl = Some rl ∧ ocl = Some cl
      ∧ record_names a !! (nr - 1)%nat = Some (Some rl)
      ∧ class_names a !! jc = Some (Some cl)) →
  at_ nr (jc + 2) orl ocl = at_ nr (jc + 1) orl ocl.
Proof.
  intros Hnr Hn. apply src_at_ext. intros i j rl cl Ht Hi Hj -> ->.
  destruct (Nat.ltb_spec (i + 1) nr); [done|]. cbn [orb].
  destruct (Nat.eqb_spec (i + 1) nr) as [Hin|]; [|done]. cbn [andb].
  destruct (Nat.ltb_spec (j + 1) (jc + 1)), (Nat.ltb_spec (j + 1) (jc + 2));
    try (lia || done).
  destruct Hn. exists rl, cl. split_and!; [done|done| |].
  - by replace (nr - 1)%nat with i by lia.
  - by replace jc with j by lia.
Qed.

(** One cell of the source: [destination.cell(irow, dcol, row[icol])]. *)
Lemma merge_cell_step nr icol ir k x ocl s :
  (1 ≤ nr)%nat → (1 ≤ icol)%nat →
  inv nr nr (icol + 1) s →
  taken ignore_blanks (Some x) = true →
  record_names a !! (nr - 1)%nat = Some (Some x) →
  class_names a !! icol = Some ocl →
  record_names (destination s) !! ir = Some (Some x) →
  merged_classes d0 a !! k = Some ocl →
  returns (on_destination (cell (ir + 1) (k + 1) (value_at a nr (icol + 1)))) s
    (fun s' _ => inv nr nr (icol + 2) s'
                 ∧ record_names (destination s') !! ir = Some (Some x)).
Proof.
  intros Hnr Hicol Hinv Ht Hx Hocl Hir Hk.
  pose proof (merge_inv_corner _ _ _ _ Hinv) as Hcorner.
  destruct (merge_inv_NoDup _ _ _ _ Hinv) as [Hndc Hndr].
  destruct Hinv as (Hsrc & Hset & Htitle & Hcls & Hrec & Hval).
  set (d := destination s) in *. set (v := value_at a nr (icol + 1)).
  rewrite <-Hcls in Hk. pose proof Hx as Hx0. pose proof Hocl as Hocl0.
  apply record_names_lookup in Hir as [Hirlt Hirv].
  apply class_names_lookup in Hk as [Hklt Hkv].
  apply record_names_lookup in Hx as [Hnrlt Hxv].
  replace (nr - 1 + 1)%nat with nr in Hxv by lia.
  apply class_names_lookup in Hocl as [Hiclt Hoclv].
  assert (ir ≠ 0%nat) as Hir0. { intros ->. simpl in Hirv. congruence. }
  assert (v ≠ None → ∃ cl, ocl = Some cl ∧ k ≠ 0%nat) as Hv.
  { intros Hv. destruct ocl as [cl|].
    - exists cl. split; [done|]. intros ->. simpl in Hkv. congruence.
    - destruct Hv. apply (valid_columns _ _ Hvalid); [lia|done|].
      by rewrite <-Hxv. }
  destruct (cell_run d (ir + 1) (k + 1) v ltac:(lia) ltac:(lia) (proj1 Hset))
    as (d' & Hrun & Hset' & Ht' & Hmr' & Hmc' & Hval').
  unfold returns. apply post_on_destination. unfold post. fold d. rewrite Hrun.
  cbn [destination source].
  assert (∀ r' c', (r' = 1 ∨ c' = 1)%nat → value_at d' r' c' = value_at d r' c')
    as Hnames.
  { intros r' c' Hrc. rewrite Hval'. case_decide as Heq; [|done].
    injection Heq as -> ->. destruct v as [w|] eqn:Ev; [|done].
    destruct Hv as (cl & _ & ?); [done|]. lia. }
  assert (class_names d' = class_names d) as Hcls'.
  { apply class_names_same; [lia|]. intros c. apply Hnames. by left. }
  assert (record_names d' = record_names d) as Hrec'.
  { apply record_names_same; [lia|]. intros r. apply Hnames. by right. }
  split.
  2:{ rewrite Hrec'. apply record_names_lookup. by split. }
  unfold merge_inv. cbn [destination source].
  split_and!; [done|done|congruence|congruence|congruence|].
  intros r' c' Hr' Hc'.
  rewrite (Hnames r' 1%nat) by (by right). rewrite (Hnames 1%nat c') by (by left).
  destruct (decide (value_at d r' 1 = Some x ∧ value_at d 1 c' = ocl ∧ ocl ≠ None))
    as [(Hrl & Hcl & Hon)|Hmiss].
  - destruct ocl as [cl|]; [|done].
    assert (r' = (ir + 1)%nat) as ->.
    { destruct (value_at_in_box d r' 1) as [Hr'lt _]; [congruence|].
      assert (record_names d !! (r' - 1)%nat = Some (Some x)) as H1.
      { apply record_names_lookup. split; [lia|].
        replace (r' - 1 + 1)%nat with r' by lia. done. }
      assert (record_names d !! ir = Some (Some x)) as H2.
      { apply record_names_lookup. by split. }
      pose proof (NoDup_lookup _ _ _ _ Hndr H1 H2). lia. }
    assert (c' = (k + 1)%nat) as ->.
    { destruct (value_at_in_box d 1 c') as [_ Hc'lt]; [congruence|].
      assert (class_names d !! (c' - 1)%nat = Some (Some cl)) as H1.
      { apply class_names_lookup. split; [lia|].
        replace (c' - 1 + 1)%nat with c' by lia. done. }
      assert (class_names d !! k = Some (Some cl)) as H2.
      { apply class_names_lookup. by split. }
      pose proof (NoDup_lookup _ _ _ _ Hndc H1 H2). lia. }
    rewrite Hval', decide_True by done. rewrite Hrl, Hcl.
    destruct (src_at_hit nr icol x cl Hnr Ht Hx0 Hocl0) as [Hbefore Hafter].
    rewrite Hafter. fold v. destruct v as [w|]; [done|]. simpl.
    rewrite (Hval _ _ Hr' Hc'), Hrl, Hcl, Hbefore. done.
  - rewrite (src_at_miss nr icol); [|done|].
    2:{ intros (rl & cl & Hrl & Hcl & Hrl' & Hcl'). apply Hmiss.
        rewrite Hx0 in Hrl'. rewrite Hocl0 in Hcl'.
        injection Hrl' as <-. injection Hcl' as ->. done. }
    rewrite <-(Hval _ _ Hr' Hc'). rewrite Hval'. case_decide as Heq; [|done].
    injection Heq as -> ->. destruct v as [w|] eqn:Ev; [|done].
    destruct Hv as (cl & -> & Hk0); [done|]. destruct Hmiss. done.
Qed.

Lemma src_at_not_yet nr rl ocl :
  (1 ≤ nr)%nat →
  record_names a !! (nr - 1)%nat = Some (Some rl) →
  at_ nr 0 (Some rl) ocl = None.
Proof.
  intros Hnr Hrl. destruct (at_ nr 0 (Some rl) ocl) as [v|] eqn:Hat; [|done].
  apply src_at_Some in Hat as (i & j & rl' & cl & [= <-] & _ & Ht & Hi & _ & Hb & _).
  pose proof (valid_records _ _ Hvalid _ _ _ Ht Hi Hrl) as ->.
  destruct (Nat.ltb_spec (nr - 1 + 1) nr); [lia|].
  destruct (Nat.ltb_spec (j + 1) 0); [lia|]. by rewrite andb_false_r in Hb.
Qed.

(** The row of the destination for a record of the source: the row it
    has, or a new last row. *)
Lemma merge_record_step nr x s :
  (1 ≤ nr)%nat →
  inv (nr - 1) nr 0 s →
  taken ignore_blanks (Some x) = true →
  record_names a !! (nr - 1)%nat = Some (Some x) →
  returns (match list_index (record_names d0) (Some x) with
           | Some k => mret (k + 1)%nat
           | None =>
               _ ← on_destination (append [Some x]);
               gets (fun s => max_row (destination s))
           end) s
    (fun s' irow => ∃ ir, irow = (ir + 1)%nat ∧ inv nr nr 2 s'
                    ∧ record_names (destination s') !! ir = Some (Some x)).
Proof.
  intros Hnr Hinv Ht Hx. unfold returns.
  destruct (list_index (record_names d0) (Some x)) as [k|] eqn:Hk.
  - apply list_index_Some in Hk as [Hk _]. apply post_ret. exists k.
    split; [done|]. split.
    + apply merge_inv_row_start, (merge_inv_records (nr - 1)); [done|].
      replace nr with (S (nr - 1)) at 1 by lia.
      rewrite (merged_records_S _ _ _ _ _ Hx), decide_False; [by rewrite app_nil_r|].
      intros [_ Hn]. apply Hn. by eapply list_elem_of_lookup_2.
    + destruct Hinv as (_ & _ & _ & _ & -> & _). by apply lookup_app_l_Some.
  - apply list_index_None in Hk.
    destruct Hinv as (Hsrc & Hset & Htitle & Hcls & Hrec & Hval).
    set (d := destination s) in *.
    destruct (append_run d (Some x) Hset)
      as (d' & Hrun & Hset' & Ht' & Hmr' & Hmc' & Hval').
    pose proof (settled_bounds _ Hset) as [Hmr Hmc].
    apply post_bind, post_on_destination. unfold post at 1. fold d. rewrite Hrun.
    apply post_gets. cbn [destination source]. exists (max_row d).
    split; [done|].
    assert (record_names d' = record_names d ++ [Some x]) as Hrec'.
    { apply record_names_snoc; [done| |].
      - intros r Hr. rewrite Hval', decide_False; [done|]. intros [=]. lia.
      - by rewrite Hval', decide_True. }
    split.
    2:{ rewrite Hrec', lookup_app_r; rewrite length_record_names; [|done].
        by rewrite Nat.sub_diag. }
    apply merge_inv_row_start. unfold merge_inv. cbn [destination source].
    split_and!; [done|done|congruence| | |].
    + rewrite <-Hcls. apply class_names_same; [done|].
      intros c. rewrite Hval', decide_False; [done|]. intros [=]. lia.
    + rewrite Hrec', Hrec. replace nr with (S (nr - 1)) at 2 by lia.
      by rewrite (merged_records_S _ _ _ _ _ Hx), decide_True.
    + intros r' c' Hr' Hc'.
      rewrite (Hval' r' c'), decide_False by (intros [=]; lia).
      rewrite (Hval' 1%nat c'), decide_False by (intros [=]; lia).
      rewrite (Hval' r' 1%nat). case_decide as Heq; [|by apply Hval].
      injection Heq as ->. rewrite src_at_not_yet by done. simpl.
      assert (value_at d (max_row d + 1) c' = None) as ->.
      { destruct (value_at d (max_row d + 1) c') eqn:E; [|done].
        assert (value_at d (max_row d + 1) c' ≠ None) as Hn by congruence.
        apply value_at_in_box in Hn. lia. }
      destruct (value_at d0 (max_row d + 1) c') eqn:E; [|done].
      assert (value_at d0 (max_row d + 1) c' ≠ None) as Hn by congruence.
      apply value_at_in_box in Hn.
      assert (max_row d0 ≤ max_row d)%nat; [|lia].
      rewrite <-(length_record_names d0), <-(length_record_names d), Hrec.
      unfold merged_records. rewrite length_app. lia.
Qed.

Lemma range_split lo hi l1 x l2 :
  range lo hi = l1 ++ x :: l2 → x = (lo + length l1)%nat ∧ (x < hi)%nat.
Proof.
  intros Hl.
  assert (range lo hi !! length l1 = Some x) as Hx.
  { rewrite Hl. by rewrite list_lookup_middle. }
  unfold range in Hx. apply lookup_seq in Hx. lia.
Qed.

(** The loop over the columns of one row of the source. *)
Lemma merge_row_cells nr x ir cmap row s :
  (1 ≤ nr ≤ max_row a)%nat →
  inv nr nr 2 s →
  taken ignore_blanks (Some x) = true →
  record_names a !! (nr - 1)%nat = Some (Some x) →
  record_names (destination s) !! ir = Some (Some x) →
  Forall2 (fun c y => ∃ k, y = Some (k + 1)%nat ∧ merged_classes d0 a !! k = Some c)
          (class_names a) cmap →
  row = (fun c => value_at a nr c) <$> range 1 (max_column a + 1) →
  returns (for_ (range 1 (length cmap)) (fun icol =>
             m ← item cmap icol;
             match m with
             | None => mret tt
             | Some dcol =>
                 v ← item row icol;
                 _ ← on_destination (cell (ir + 1) dcol v);
                 mret tt
             end)) s
    (fun s' _ => inv nr nr (max_column a + 1) s').
Proof.
  intros Hnr Hinv Ht Hx Hir Hmap ->. unfold returns.
  pose proof (well_formed_bounds _ (valid_well_formed _ _ Hvalid)) as [_ Hmc].
  assert (length cmap = max_column a) as Hlen.
  { rewrite <-(Forall2_length _ _ _ Hmap). apply length_class_names. }
  rewrite Hlen.
  eapply post_mono with (R := fun _ _ => False);
    [apply (post_for_prefix
              (fun l1 s' => inv nr nr (length l1 + 2) s'
                            ∧ record_names (destination s') !! ir = Some (Some x)))
    | |done].
  - done.
  - intros l1 icol l2 s' Hl [Hinv' Hir'].
    apply range_split in Hl as [-> Hlt].
    destruct (lookup_lt_is_Some_2 (class_names a) (1 + length l1)) as [ocl Hocl].
    { rewrite length_class_names. lia. }
    destruct (Forall2_lookup_l _ _ _ _ _ Hmap Hocl) as (y & Hy & k & -> & Hk).
    apply post_bind, post_item. rewrite Hy.
    apply post_bind, post_item.
    rewrite list_lookup_fmap. unfold range at 1.
    rewrite lookup_seq_lt by lia. cbn [fmap option_fmap option_map].
    replace (1 + (1 + length l1))%nat with (1 + length l1 + 1)%nat by lia.
    apply post_bind.
    eapply post_mono with (R := fun _ _ => False);
      [apply (merge_cell_step nr (1 + length l1) ir k x ocl s');
         [lia|lia| |done..]| |done].
    + by replace (1 + length l1 + 1)%nat with (length l1 + 2)%nat by lia.
    + intros s'' _ [Hinv'' Hir'']. apply post_ret. split; [|done].
      rewrite length_app. simpl.
      by replace (length l1 + 1 + 2)%nat with (1 + length l1 + 2)%nat by lia.
  - intros s' _ [Hinv' _]. rewrite length_range in Hinv'.
    by replace (max_column a - 1 + 2)%nat with (max_column a + 1)%nat in Hinv' by lia.
Qed.

Lemma merge_inv_source nrec nr nc s ws :
  inv nrec nr nc s → same_table a ws → inv nrec nr nc (mkSheets (destination s) ws).
Proof. intros (_ & ?) ?. by split. Qed.

(** The body of the loop over the rows of the source. *)
Lemma merge_row nr cmap rows s :
  (2 ≤ nr ≤ max_row a)%nat →
  inv (nr - 1) nr 0 s →
  Forall2 (fun c y => ∃ k, y = Some (k + 1)%nat ∧ merged_classes d0 a !! k = Some c)
          (class_names a) cmap →
  returns (row ← on_source (row_values (mkBounds rows 1 (max_column a)) nr);
           row0 ← item row 0;
           match row0 with
           | None => mret tt
           | Some _ =>
               bl ← (if ignore_blanks then lift_result (utils.is_blank row0)
                     else mret false);
               if bl : bool then mret tt
               else
                 irow ← match list_index (record_names d0) row0 with
                        | Some k => mret (k + 1)%nat
                        | None =>
                            _ ← on_destination (append [row0]);
                            gets (fun s => max_row (destination s))
                        end;
                 for_ (range 1 (length cmap)) (fun icol =>
                   m ← item cmap icol;
                   match m with
                   | None => mret tt
                   | Some dcol =>
                       v ← item row icol;
                       _ ← on_destination (cell irow dcol v);
                       mret tt
                   end)
           end) s
    (fun s' _ => inv nr (nr + 1) 0 s').
Proof.
  intros Hnr Hinv Hmap. unfold returns.
  pose proof (well_formed_bounds _ (valid_well_formed _ _ Hvalid)) as [_ Hmc].
  apply post_bind, post_on_source.
  rewrite row_values_bounds. cbn [b_min_col b_max_col].
  eapply post_mono with (R := fun _ _ => False);
    [apply (post_row_values a); [apply Hinv|lia..]| |done].
  intros ws row [Hws ->].
  pose proof (merge_inv_source _ _ _ _ _ Hinv Hws) as Hinv1.
  set (s1 := mkSheets (destination s) ws) in *.
  apply post_bind, post_item.
  rewrite list_lookup_fmap. unfold range at 1. rewrite lookup_seq_lt by lia.
  cbn [fmap option_fmap option_map]. replace (1 + 0)%nat with 1%nat by done.
  assert (record_names a !! (nr - 1)%nat = Some (value_at a nr 1)) as Ho.
  { apply record_names_lookup. split; [lia|]. by replace (nr - 1 + 1)%nat with nr by lia. }
  destruct (value_at a nr 1) as [x|] eqn:Ex.
  2:{ apply post_ret. apply (merge_inv_skip nr None); [lia|done..]. }
  apply post_bind.
  eapply post_mono with
    (Q := fun s' bl => s' = s1 ∧ taken ignore_blanks (Some x) = negb bl)
    (R := fun _ _ => False); [| |done].
  { unfold taken. destruct ignore_blanks eqn:Eib; [|by apply post_ret].
    apply post_lift_result.
    destruct (valid_strings _ _ Hvalid nr x eq_refl Ex) as [str ->]. by simpl. }
  intros ? bl [-> Hbl]. destruct bl.
  { apply post_ret. apply (merge_inv_skip nr (Some x)); [lia|done..]. }
  apply post_bind.
  eapply post_mono with (R := fun _ _ => False);
    [apply (merge_record_step nr x s1); [lia|done..]| |done].
  intros s2 irow (ir & -> & Hinv2 & Hir).
  eapply post_mono with (R := fun _ _ => False);
    [apply (merge_row_cells nr x ir cmap _ s2); [lia|done..]| |done].
  intros s3 [] Hinv3. by apply merge_inv_row_end.
Qed.

(** The state after the classes of the source are mapped. *)
Lemma header_inv_merge_inv ys s :
  header_inv d0 a (class_names a) ys s →
  inv 1 2 0 s
  ∧ Forall2 (fun c y => ∃ k, y = Some (k + 1)%nat ∧ merged_classes d0 a !! k = Some c)
            (class_names a) ys.
Proof.
  intros (Hsrc & Hset & Ht & Hcls & Hrec & Hval & Hmap).
  split; [|unfold merged_classes; by rewrite <-Hcls].
  pose proof (record_names_head _ (valid_well_formed _ _ Hvalid)) as Hh.
  rewrite (valid_corner _ _ Hvalid) in Hh.
  split_and!; [done..| |].
  - rewrite Hrec. unfold merged_records.
    rewrite (take_S_r _ _ _ Hh), take_0, app_nil_l, filter_cons_False, filter_nil;
      [by rewrite app_nil_r|].
    by intros [? _].
  - intros r c Hr Hc. rewrite Hval by done.
    destruct (at_ 2 0 _ _) as [v|] eqn:Hat; [|done].
    apply src_at_Some in Hat as (i & j & rl & cl & _ & _ & _ & Hi & _ & Hb & _).
    destruct i as [|i]; [by destruct (src_corner_record ignore_blanks a Hvalid rl)|].
    destruct (Nat.ltb_spec (S i + 1) 2); [lia|].
    destruct (Nat.ltb_spec (j + 1) 0); [lia|]. by rewrite andb_false_r in Hb.
Qed.

(** [merge] of a valid source into a tidy destination. *)
Lemma merge_run :
  ∃ s', merge ignore_blanks (mkSheets d0 a) = (s', Ok tt)
        ∧ inv (max_row a) (max_row a + 1) 0 s'.
Proof.
  pose proof (well_formed_bounds _ (valid_well_formed _ _ Hvalid)) as [Hmr Hmc].
  enough (returns (merge ignore_blanks) (mkSheets d0 a)
            (fun s' _ => inv (max_row a) (max_row a + 1) 0 s')) as Hret.
  { unfold returns, post in Hret.
    destruct (merge ignore_blanks (mkSheets d0 a)) as [s' [[]|e]]; [|done].
    by exists s'. }
  unfold returns, merge.
  apply post_bind, post_on_destination. cbn [destination source].
  eapply post_mono with (R := fun _ _ => False);
    [apply get_class_names_settles, Htidy| |done].
  intros d1 ? (Hd1 & -> & Hset1).
  apply post_bind, post_on_source. cbn [destination source].
  eapply post_mono with (R := fun _ _ => False);
    [apply (post_get_class_names a a); [apply Hvalid|done]| |done].
  intros a1 ? (Ha1 & ->).
  apply post_bind, post_on_destination. cbn [destination source].
  eapply post_mono with (R := fun _ _ => False);
    [by apply get_record_names_settled| |done].
  intros d2 ? (Hd2 & -> & Hset2).
  rewrite <-(same_table_record_names _ _ Hd1).
  apply post_bind.
  eapply post_mono with (R := fun _ _ => False);
    [apply (merge_header d0 a Htidy); cbn [destination source]; [done|done|by etrans]
    | |done].
  intros s3 cmap [Hinv3 Hmap]%header_inv_merge_inv.
  apply post_bind, post_on_source.
  unfold iter_rows. apply post_bind, post_get_state.
  cbn [any_given existsb orb negb]. rewrite andb_false_r. apply post_ret.
  cbn [or_default b_rows].
  destruct (Hinv3) as ((_ & <- & <- & _) & _).
  assert (inv 1 2 0 (mkSheets (destination s3) (source s3))) as Hinv3'.
  { by destruct s3. }
  eapply post_mono with (R := fun _ _ => False);
    [apply (post_for_prefix
              (fun l1 s' => inv (length l1 + 1) (length l1 + 2) 0 s'))| |done].
  - done.
  - intros l1 r l2 s' Hl Hinv'. apply range_split in Hl as [-> Hlt].
    eapply post_mono with (R := fun _ _ => False);
      [apply (merge_row (2 + length l1) cmap); [lia| |done]| |done].
    + replace (2 + length l1 - 1)%nat with (length l1 + 1)%nat by lia.
      by replace (2 + length l1)%nat with (length l1 + 2)%nat by lia.
    + intros s'' [] Hinv''. rewrite length_app. simpl.
      replace (length l1 + 1 + 1)%nat with (2 + length l1)%nat by lia.
      by replace (length l1 + 1 + 2)%nat with (2 + length l1 + 1)%nat by lia.
  - intros s' [] Hinv'. rewrite length_range in Hinv'.
    replace (max_row a + 1 - 2 + 1)%nat with (max_row a) in Hinv' by lia.
    by replace (max_row a + 1 - 2 + 2)%nat with (max_row a + 1)%nat in Hinv' by lia.
Qed.
End merge_rows.

(** * The tests of validity and tidiness *)

Lemma NoDup_filter_index {A} (P : A → Prop) `{∀ x, Decision (P x)} (l : list A) i j x :
  NoDup (filter P l) → P x → l !! i = Some x → l !! j = Some x → i = j.
Proof.
  revert i j. induction l as [|y l IH]; intros i j Hnd Hx Hi Hj; [done|].
  rewrite filter_cons in Hnd.
  assert (NoDup (filter P l) ∧ (y = x → x ∉ l)) as [Hnd' Hy].
  { case_decide as Hy.
    - apply NoDup_cons in Hnd as [Hn Hnd]. split; [done|]. intros -> Hin.
      apply Hn, list_elem_of_filter. by split.
    - split; [done|]. by intros ->. }
  destruct i as [|i], j as [|j]; simpl in *.
  - done.
  - injection Hi as ->. destruct Hy; [done|]. by eapply list_elem_of_lookup_2.
  - injection Hj as ->. destruct Hy; [done|]. by eapply list_elem_of_lookup_2.
  - f_equal. by apply IH.
Qed.

Section checks.
Import openpyxl xutils.
Implicit Types (ws : Worksheet).

Lemma value_at_outside_column ws r c :
  well_formed ws → ¬ (1 ≤ c ≤ max_column ws)%nat → value_at ws r c = None.
Proof.
  intros [Hk _] Hc. unfold value_at.
  destruct (_cells ws !! (r, c)) as [v|] eqn:Hl; [|done].
  assert (is_Some (_cells ws !! (r, c))) as Hs by by rewrite Hl.
  pose proof (Hk _ _ Hs). pose proof (max_column_ge _ _ _ Hs). lia.
Qed.

Lemma forallb_has_name (l : list (option value)) i o :
  forallb (fun o => bool_decide (o ≠ None)) (drop 1 l) = true →
  (1 ≤ i)%nat → l !! i = Some o → o ≠ None.
Proof.
  intros Hall Hi Ho. rewrite forallb_forall in Hall.
  eapply bool_decide_eq_true_1, Hall, list_elem_of_In.
  apply (list_elem_of_lookup_2 _ (i - 1)). rewrite lookup_drop.
  by replace (1 + (i - 1))%nat with i by lia.
Qed.

Lemma tidyb_spec ws : tidyb ws = true → tidy ws.
Proof.
  unfold tidyb. rewrite !andb_true_iff, !bool_decide_eq_true.
  intros [[[[[Hwf%well_formedb_spec Hcorner] Hcls] Hndc] Hrec] Hndr].
  split; [done..| |done| |done].
  - intros c Hc. apply (forallb_has_name _ (c - 1) _ Hcls); [lia|].
    apply class_names_lookup. split; [lia|]. by replace (c - 1 + 1)%nat with c by lia.
  - intros r Hr. apply (forallb_has_name _ (r - 1) _ Hrec); [lia|].
    apply record_names_lookup. split; [lia|]. by replace (r - 1 + 1)%nat with r by lia.
Qed.

Lemma valid_tableb_spec ignore_blanks ws :
  valid_tableb ignore_blanks ws = true → valid_table ignore_blanks ws.
Proof.
  unfold valid_tableb. rewrite !andb_true_iff, !bool_decide_eq_true.
  intros [[[[[Hwf%well_formedb_spec Hcorner] Hndc] Hndr] Hcols] Hstr].
  split; [done|done| | | |].
  - intros i j x Hi Hj.
    by apply (NoDup_filter_index has_name (class_names ws) i j (Some x)).
  - intros i j x Ht Hi Hj.
    by apply (NoDup_filter_index _ (record_names ws) i j (Some x) Hndr).
  - intros r c Hc Hhead Ht.
    destruct (decide (1 ≤ c ≤ max_column ws)%nat) as [Hcin|Hcout];
      [|by apply value_at_outside_column].
    destruct (decide (1 ≤ r ≤ max_row ws)%nat) as [Hrin|Hrout];
      [|by apply value_at_outside].
    rewrite forallb_forall in Hcols.
    specialize (Hcols c). rewrite <-list_elem_of_In, elem_of_range in Hcols.
    specialize (Hcols ltac:(lia)).
    apply orb_true_iff in Hcols as [Hh|Hrows].
    { by apply bool_decide_eq_true in Hh. }
    rewrite forallb_forall in Hrows.
    specialize (Hrows r). rewrite <-list_elem_of_In, elem_of_range in Hrows.
    specialize (Hrows ltac:(lia)). rewrite Ht in Hrows. simpl in Hrows.
    by apply bool_decide_eq_true in Hrows.
  - intros r x -> Hx. simpl in Hstr. rewrite forallb_forall in Hstr.
    assert (r ≤ max_row ws)%nat as Hr.
    { apply (value_at_in_box ws r 1). congruence. }
    assert (1 ≤ r)%nat as Hr1.
    { destruct (decide (1 ≤ r)%nat); [done|].
      rewrite value_at_outside in Hx; [done|done|lia]. }
    specialize (Hstr (Some x)). rewrite <-list_elem_of_In in Hstr.
    destruct x as [str|q]; [by exists str|]. discriminate Hstr.
    apply (list_elem_of_lookup_2 _ (r - 1)), record_names_lookup.
    split; [lia|]. replace (r - 1 + 1)%nat with r by lia. done.
Qed.
End checks.

(** * merge: the names and the content of the destination *)

Section merge_tidy.
Import openpyxl xutils.
Variable ignore_blanks : bool.
Variables d0 a : Worksheet.
Hypothesis Htidy : tidy d0.
Hypothesis Hvalid : valid_table ignore_blanks a.

Local Abbreviation full := (src_at ignore_blanks a (max_row a + 1) 0).
Local Abbreviation final := (merge_inv ignore_blanks d0 a (max_row a) (max_row a + 1) 0).

Lemma merged_classes_Some i :
  (1 ≤ i)%nat → is_Some (merged_classes d0 a !! i) →
  ∃ cl, merged_classes d0 a !! i = Some (Some cl).
Proof.
  intros Hi [o Ho]. destruct o as [cl|]; [by exists cl|]. exfalso.
  unfold merged_classes in Ho. apply lookup_app_Some in Ho as [Ho|[_ Ho]].
  - apply class_names_lookup in Ho as [Hlt Ho].
    apply (tidy_classes _ Htidy (i + 1)); [lia|done].
  - apply list_elem_of_lookup_2, list_elem_of_filter in Ho as [Hn _].
    apply Hn, (None_in_dst_classes d0 Htidy).
Qed.

Lemma merged_records_Some n i :
  (1 ≤ i)%nat → is_Some (merged_records ignore_blanks d0 a n !! i) →
  ∃ rl, merged_records ignore_blanks d0 a n !! i = Some (Some rl).
Proof.
  intros Hi [o Ho]. destruct o as [rl|]; [by exists rl|]. exfalso.
  unfold merged_records in Ho. apply lookup_app_Some in Ho as [Ho|[_ Ho]].
  - apply record_names_lookup in Ho as [Hlt Ho].
    apply (tidy_records _ Htidy (i + 1)); [lia|done].
  - by apply list_elem_of_lookup_2, list_elem_of_filter in Ho as [[? _] _].
Qed.

(** The destination after a merge is a tidy table. *)
Lemma merge_inv_tidy s : final s → tidy (destination s).
Proof.
  intros Hinv. pose proof (merge_inv_corner _ _ _ Htidy _ _ _ _ Hinv) as Hcorner.
  destruct (merge_inv_NoDup _ _ _ Htidy Hvalid _ _ _ _ Hinv) as [Hndc Hndr].
  destruct Hinv as (Hsrc & Hset & Ht & Hcls & Hrec & Hval).
  split; [apply Hset|done| |done| |done].
  - intros c Hc Hnone.
    destruct (merged_classes_Some (c - 1)) as [cl Hcl]; [lia| |].
    + rewrite <-Hcls. apply lookup_lt_is_Some_2. rewrite length_class_names. lia.
    + rewrite <-Hcls in Hcl. apply class_names_lookup in Hcl as [_ Hcl].
      replace (c - 1 + 1)%nat with c in Hcl by lia. congruence.
  - intros r Hr Hnone.
    destruct (merged_records_Some (max_row a) (r - 1)) as [rl Hrl]; [lia| |].
    + rewrite <-Hrec. apply lookup_lt_is_Some_2. rewrite length_record_names. lia.
    + rewrite <-Hrec in Hrl. apply record_names_lookup in Hrl as [_ Hrl].
      replace (r - 1 + 1)%nat with r in Hrl by lia. congruence.
Qed.
End merge_tidy.

(** [merge] of a valid source into a tidy destination returns; the
    destination is tidy again, with the title it had; its class names are
    those it had followed by the new ones of the source, and its record
    names those it had followed by the new ones among the records of the
    source that are taken, both in the order of the source. *)
Theorem merge_names (ignore_blanks : bool) (dst src : openpyxl.Worksheet) :
  tidy dst → valid_table ignore_blanks src →
  ∃ s', xutils.merge ignore_blanks (xutils.mkSheets dst src) = (s', Ok tt)
    ∧ tidy (xutils.destination s')
    ∧ openpyxl.title (xutils.destination s') = openpyxl.title dst
    ∧ class_names (xutils.destination s')
      = class_names dst ++ filter (fun x => x ∉ class_names dst) (class_names src)
    ∧ record_names (xutils.destination s')
      = record_names dst
        ++ filter (fun o => taken ignore_blanks o = true ∧ o ∉ record_names dst)
                  (record_names src).
Proof.
  intros Htidy Hvalid.
  destruct (merge_run ignore_blanks dst src Htidy Hvalid) as (s' & Hrun & Hinv).
  exists s'. split; [done|]. split; [by eapply merge_inv_tidy|].
  destruct Hinv as (_ & _ & Ht & Hcls & Hrec & _). split_and!; [done..|].
  rewrite Hrec. unfold merged_records. by rewrite take_ge by by rewrite length_record_names.
Qed.

Lemma merge_names_witness :
  let dst := openpyxl.create_sheet "S" in
  let src := openpyxl.load_sheet "S"
               [[None; str "c1"; str "c2"]; [str "r1"; num 1; None]; [str "r2"; None; num 2]] in
  ∃ s', xutils.merge false (xutils.mkSheets dst src) = (s', Ok tt)
    ∧ tidy (xutils.destination s')
    ∧ openpyxl.title (xutils.destination s') = openpyxl.title dst
    ∧ class_names (xutils.destination s')
      = class_names dst ++ filter (fun x => x ∉ class_names dst) (class_names src)
    ∧ record_names (xutils.destination s')
      = record_names dst
        ++ filter (fun o => taken false o = true ∧ o ∉ record_names dst)
                  (record_names src).
Proof.
  intros dst src. apply (merge_names false dst src).
  - apply tidyb_spec. vm_compute. reflexivity.
  - apply valid_tableb_spec. vm_compute. reflexivity.
Defined.

Section merge_triples.
Import openpyxl xutils.
Variable ignore_blanks : bool.
Variables d0 a : Worksheet.
Hypothesis Htidy : tidy d0.
Hypothesis Hvalid : valid_table ignore_blanks a.

Local Abbreviation full := (src_at ignore_blanks a (max_row a + 1) 0).

(** The value of the source for two names is the value of its triple. *)
Lemma full_triple rl cl v :
  full (Some rl) (Some cl) = Some v
  ↔ taken ignore_blanks (Some rl) = true ∧ triple a rl cl v.
Proof.
  split.
  - intros (i & j & ? & ? & [= <-] & [= <-] & Ht & Hi & Hj & _ & Hv)%src_at_Some.
    split; [done|]. exists (i + 1)%nat, (j + 1)%nat.
    assert (i ≠ 0%nat) by (intros ->; by destruct (src_corner_record _ _ Hvalid rl)).
    assert (j ≠ 0%nat) by (intros ->; by destruct (src_corner_class _ _ Hvalid cl)).
    apply record_names_lookup in Hi as [_ Hi].
    apply class_names_lookup in Hj as [_ Hj].
    split_and!; [lia|lia|done..].
  - intros [Ht (r & c & Hr & Hc & Hrl & Hcl & Hv)].
    destruct (value_at_in_box a r 1) as [Hrlt _]; [congruence|].
    destruct (value_at_in_box a 1 c) as [_ Hclt]; [congruence|].
    assert (record_names a !! (r - 1)%nat = Some (Some rl)) as Hi.
    { apply record_names_lookup. split; [lia|]. by replace (r - 1 + 1)%nat with r by lia. }
    assert (class_names a !! (c - 1)%nat = Some (Some cl)) as Hj.
    { apply class_names_lookup. split; [lia|]. by replace (c - 1 + 1)%nat with c by lia. }
    rewrite (src_at_lookup _ _ Hvalid _ _ _ _ _ _ Ht Hi Hj).
    replace (r - 1 + 1)%nat with r by lia. replace (c - 1 + 1)%nat with c by lia.
    destruct (Nat.ltb_spec r (max_row a + 1)); [done|lia].
Qed.

Lemma merged_records_elem rl :
  taken ignore_blanks (Some rl) = true → Some rl ∈ record_names a →
  Some rl ∈ merged_records ignore_blanks d0 a (max_row a).
Proof.
  intros Ht Hin. unfold merged_records. apply elem_of_app.
  destruct (decide (Some rl ∈ record_names d0)); [by left|right].
  apply list_elem_of_filter. split; [done|].
  by rewrite take_ge by by rewrite length_record_names.
Qed.

Lemma merged_classes_elem cl :
  Some cl ∈ class_names a → Some cl ∈ merged_classes d0 a.
Proof.
  intros Hin. unfold merged_classes. apply elem_of_app.
  destruct (decide (Some cl ∈ class_names d0)); [by left|right].
  by apply list_elem_of_filter.
Qed.

Lemma merge_inv_triples s rl cl v :
  merge_inv ignore_blanks d0 a (max_row a) (max_row a + 1) 0 s →
  triple (destination s) rl cl v
  ↔ (taken ignore_blanks (Some rl) = true ∧ triple a rl cl v)
    ∨ (triple d0 rl cl v
       ∧ ¬ (taken ignore_blanks (Some rl) = true ∧ ∃ v', triple a rl cl v')).
Proof.
  intros Hinv. pose proof (merge_inv_corner _ _ _ Htidy _ _ _ _ Hinv) as Hcorner.
  destruct Hinv as (Hsrc & Hset & Ht & Hcls & Hrec & Hval).
  set (d := destination s) in *. split.
  - intros (r & c & Hr & Hc & Hrl & Hcl & Hv).
    pose proof (Hval r c Hr Hc) as Hrc. rewrite Hrl, Hcl, Hv in Hrc.
    destruct (full (Some rl) (Some cl)) as [w|] eqn:Hfull; simpl in Hrc.
    { injection Hrc as <-. left. by apply full_triple. }
    right. split.
    + destruct (value_at_in_box d0 r c) as [Hrlt Hclt]; [congruence|].
      exists r, c. split_and!; [done|done| | |done].
      * assert (record_names d !! (r - 1)%nat = Some (value_at d0 r 1)) as H1.
        { rewrite Hrec. unfold merged_records. apply lookup_app_l_Some.
          apply record_names_lookup. split; [lia|].
          by replace (r - 1 + 1)%nat with r by lia. }
        apply record_names_lookup in H1 as [_ H1].
        replace (r - 1 + 1)%nat with r in H1 by lia. congruence.
      * assert (class_names d !! (c - 1)%nat = Some (value_at d0 1 c)) as H1.
        { rewrite Hcls. unfold merged_classes. apply lookup_app_l_Some.
          apply class_names_lookup. split; [lia|].
          by replace (c - 1 + 1)%nat with c by lia. }
        apply class_names_lookup in H1 as [_ H1].
        replace (c - 1 + 1)%nat with c in H1 by lia. congruence.
    + intros [Htk [v' Hv']].
      assert (full (Some rl) (Some cl) = Some v') as Hf by by apply full_triple.
      congruence.
  - intros [[Htk Htr]|[Htr Hno]].
    + assert (full (Some rl) (Some cl) = Some v) as Hfull by by apply full_triple.
      destruct Htr as (r & c & Hr & Hc & Hrl & Hcl & Hv).
      assert (Some rl ∈ record_names d) as Hir.
      { rewrite Hrec. apply merged_records_elem; [done|].
        destruct (value_at_in_box a r 1) as [Hrlt _]; [congruence|].
        apply (list_elem_of_lookup_2 _ (r - 1)), record_names_lookup.
        split; [lia|]. by replace (r - 1 + 1)%nat with r by lia. }
      assert (Some cl ∈ class_names d) as Hic.
      { rewrite Hcls. apply merged_classes_elem.
        destruct (value_at_in_box a 1 c) as [_ Hclt]; [congruence|].
        apply (list_elem_of_lookup_2 _ (c - 1)), class_names_lookup.
        split; [lia|]. by replace (c - 1 + 1)%nat with c by lia. }
      apply list_elem_of_lookup_1 in Hir as [ir Hir].
      apply list_elem_of_lookup_1 in Hic as [ic Hic].
      apply record_names_lookup in Hir as [_ Hir].
      apply class_names_lookup in Hic as [_ Hic].
      assert (ir ≠ 0%nat) by (intros ->; simpl in Hir; congruence).
      assert (ic ≠ 0%nat) by (intros ->; simpl in Hic; congruence).
      exists (ir + 1)%nat, (ic + 1)%nat. split_and!; [lia|lia|done|done|].
      rewrite Hval by lia. by rewrite <-Hir, <-Hic, Hfull.
    + destruct Htr as (r & c & Hr & Hc & Hrl & Hcl & Hv).
      destruct (value_at_in_box d0 r 1) as [Hrlt _]; [congruence|].
      destruct (value_at_in_box d0 1 c) as [_ Hclt]; [congruence|].
      assert (value_at d r 1 = Some rl) as Hrl'.
      { assert (record_names d !! (r - 1)%nat = Some (Some rl)) as H1.
        { rewrite Hrec. unfold merged_records. apply lookup_app_l_Some.
          apply record_names_lookup. split; [lia|].
          by replace (r - 1 + 1)%nat with r by lia. }
        apply record_names_lookup in H1 as [_ H1].
        by replace (r - 1 + 1)%nat with r in H1 by lia. }
      assert (value_at d 1 c = Some cl) as Hcl'.
      { assert (class_names d !! (c - 1)%nat = Some (Some cl)) as H1.
        { rewrite Hcls. unfold merged_classes. apply lookup_app_l_Some.
          apply class_names_lookup. split; [lia|].
          by replace (c - 1 + 1)%nat with c by lia. }
        apply class_names_lookup in H1 as [_ H1].
        by replace (c - 1 + 1)%nat with c in H1 by lia. }
      exists r, c. split_and!; [done..|].
      rewrite Hval, Hrl', Hcl' by done.
      destruct (full (Some rl) (Some cl)) as [w|] eqn:Hfull; [|done].
      destruct Hno. apply full_triple in Hfull as [? ?]. split; [done|by exists w].
Qed.
End merge_triples.

(** The content of the destination after [merge] of a valid source into a
    tidy destination: the triples of the taken records of the source, and
    the triples the destination had for the names that have no value in
    the source. *)
Theorem merge_content (ignore_blanks : bool) (dst src : openpyxl.Worksheet) :
  tidy dst → valid_table ignore_blanks src →
  ∃ s', xutils.merge ignore_blanks (xutils.mkSheets dst src) = (s', Ok tt)
    ∧ ∀ rl cl v,
        triple (xutils.destination s') rl cl v
        ↔ (taken ignore_blanks (Some rl) = true ∧ triple src rl cl v)
          ∨ (triple dst rl cl v
             ∧ ¬ (taken ignore_blanks (Some rl) = true ∧ ∃ v', triple src rl cl v')).
Proof.
  intros Htidy Hvalid.
  destruct (merge_run ignore_blanks dst src Htidy Hvalid) as (s' & Hrun & Hinv).
  exists s'. split; [done|]. intros rl cl v. by apply merge_inv_triples.
Qed.

Lemma merge_content_witness :
  let dst := openpyxl.create_sheet "S" in
  let src := openpyxl.load_sheet "S"
               [[None; str "c1"; str "c2"]; [str "r1"; num 1; None]; [str "r2"; None; num 2]] in
  ∃ s', xutils.merge false (xutils.mkSheets dst src) = (s', Ok tt)
    ∧ ∀ rl cl v,
        triple (xutils.destination s') rl cl v
        ↔ (taken false (Some rl) = true ∧ triple src rl cl v)
          ∨ (triple dst rl cl v
             ∧ ¬ (taken false (Some rl) = true ∧ ∃ v', triple src rl cl v')).
Proof.
  intros dst src. apply (merge_content false dst src).
  - apply tidyb_spec. vm_compute. reflexivity.
  - apply valid_tableb_spec. vm_compute. reflexivity.
Defined.

(** * Merging several sources *)

Section merge_all.
Import openpyxl xutils.
Variable ignore_blanks : bool.

Lemma merge_all_triples (l : list Worksheet) : ∀ d0,
  tidy d0 → Forall (valid_table ignore_blanks) l →
  (∀ A, A ∈ l → agree ignore_blanks d0 A) →
  (∀ A B, A ∈ l → B ∈ l → agree ignore_blanks A B) →
  ∃ d', merge_all ignore_blanks d0 l = (d', Ok tt)
    ∧ tidy d' ∧ title d' = title d0
    ∧ ∀ rl cl v,
        triple d' rl cl v
        ↔ triple d0 rl cl v
          ∨ ∃ A, A ∈ l ∧ taken ignore_blanks (Some rl) = true ∧ triple A rl cl v.
Proof.
  induction l as [|A l IH]; intros d0 Htidy Hvalid Hd0 Hpair.
  { exists d0. split_and!; [done..|]. intros rl cl v. split; [by left|].
    intros [?|(A & HA%elem_of_nil & _)]; done. }
  apply Forall_cons in Hvalid as [HvA Hvalid]. simpl.
  destruct (merge_run ignore_blanks d0 A Htidy HvA) as (s1 & -> & Hinv).
  pose proof (merge_inv_tidy _ _ _ Htidy HvA _ Hinv) as Htidy1.
  pose proof (merge_inv_triples _ _ _ Htidy HvA s1) as Htr1.
  assert (∀ rl cl v, triple (destination s1) rl cl v
            ↔ triple d0 rl cl v
              ∨ (taken ignore_blanks (Some rl) = true ∧ triple A rl cl v)) as Htr1'.
  { intros rl cl v. rewrite (Htr1 rl cl v Hinv). split.
    - intros [?|[? _]]; [by right|by left].
    - intros [Hd|?]; [|by left].
      destruct (src_at ignore_blanks A (max_row A + 1) 0 (Some rl) (Some cl))
        as [v'|] eqn:Hfull.
      + apply (full_triple _ _ HvA) in Hfull as [Ht Hv'].
        left. split; [done|].
        by rewrite (Hd0 A ltac:(left) rl cl v v' Ht Hd Hv').
      + right. split; [done|]. intros [Ht [v' Hv']].
        assert (src_at ignore_blanks A (max_row A + 1) 0 (Some rl) (Some cl)
                = Some v') as Hf by by apply (full_triple _ _ HvA).
        congruence. }
  destruct (IH (destination s1)) as (d' & Hrun & Htidy' & Ht' & Htr'); [done|done| | |].
  { intros B HB rl cl v v' Ht [Hd|[_ HA]]%Htr1' HvB.
    - apply (Hd0 B ltac:(by right) rl cl v v' Ht Hd HvB).
    - apply (Hpair A B ltac:(left) ltac:(by right) rl cl v v' Ht HA HvB). }
  { intros B C HB HC. apply Hpair; by right. }
  exists d'. split; [done|]. split; [done|]. split.
  { rewrite Ht'. by destruct Hinv as (_ & _ & ? & _). }
  intros rl cl v. rewrite Htr', Htr1'. split.
  - intros [[?|[? ?]]|(B & HB & ? & ?)].
    + by left.
    + right. exists A. split; [left|done].
    + right. exists B. split; [by right|done].
  - intros [?|(B & [->|HB]%elem_of_cons & ? & ?)].
    + by left; left.
    + left. by right.
    + right. by exists B.
Qed.
End merge_all.

Section fresh_destination.
Import openpyxl xutils.

Lemma create_sheet_tidy t : tidy (create_sheet t).
Proof. apply tidyb_spec. reflexivity. Qed.

Lemma create_sheet_no_triple t rl cl v : ¬ triple (create_sheet t) rl cl v.
Proof. intros (r & c & _ & _ & Hrl & _). discriminate Hrl. Qed.

Lemma agree_refl ignore_blanks a : valid_table ignore_blanks a → agree ignore_blanks a a.
Proof.
  intros Hvalid rl cl v v' Ht Hv Hv'.
  assert (src_at ignore_blanks a (max_row a + 1) 0 (Some rl) (Some cl) = Some v) as H1
    by by apply (full_triple _ _ Hvalid).
  assert (src_at ignore_blanks a (max_row a + 1) 0 (Some rl) (Some cl) = Some v') as H2
    by by apply (full_triple _ _ Hvalid).
  congruence.
Qed.

Lemma record_name_elem ws r rl :
  (1 ≤ r)%nat → value_at ws r 1 = Some rl → Some rl ∈ record_names ws.
Proof.
  intros Hr Hrl. destruct (value_at_in_box ws r 1) as [? _]; [congruence|].
  apply (list_elem_of_lookup_2 _ (r - 1)), record_names_lookup.
  split; [lia|]. by replace (r - 1 + 1)%nat with r by lia.
Qed.

Lemma class_name_elem ws c cl :
  (1 ≤ c)%nat → value_at ws 1 c = Some cl → Some cl ∈ class_names ws.
Proof.
  intros Hc Hcl. destruct (value_at_in_box ws 1 c) as [_ ?]; [congruence|].
  apply (list_elem_of_lookup_2 _ (c - 1)), class_names_lookup.
  split; [lia|]. by replace (c - 1 + 1)%nat with c by lia.
Qed.

Lemma compatible_agree ignore_blanks a b :
  compatible ignore_blanks a b → agree ignore_blanks a b.
Proof.
  intros Hc rl cl v v' Ht (r & c & Hr & Hcc & Hrl & Hcl & _)
    (r' & c' & Hr' & Hcc' & Hrl' & Hcl' & _).
  destruct (Hc rl cl Ht).
  - apply (record_name_elem a r); [lia|done].
  - apply (class_name_elem a c); [lia|done].
  - apply (record_name_elem b r'); [lia|done].
  - apply (class_name_elem b c'); [lia|done].
Qed.
End fresh_destination.

(** The merges of several sources into a new sheet. *)
Lemma merge_all_union (ignore_blanks : bool) (t : string)
    (sources : list openpyxl.Worksheet) :
  Forall (valid_table ignore_blanks) sources →
  (∀ A B, A ∈ sources → B ∈ sources → agree ignore_blanks A B) →
  ∃ d', merge_all ignore_blanks (openpyxl.create_sheet t) sources = (d', Ok tt)
    ∧ tidy d'
    ∧ ∀ rl cl v,
        triple d' rl cl v
        ↔ ∃ A, A ∈ sources ∧ taken ignore_blanks (Some rl) = true ∧ triple A rl cl v.
Proof.
  intros Hvalid Hpair.
  destruct (merge_all_triples ignore_blanks sources (openpyxl.create_sheet t))
    as (d' & Hrun & Htidy & _ & Htr); [apply create_sheet_tidy|done| |done|].
  { intros A _ rl cl v v' _ Hv. by destruct (create_sheet_no_triple t rl cl v). }
  exists d'. split_and!; [done..|]. intros rl cl v. rewrite Htr. split.
  - intros [Hv|?]; [|done]. by destruct (create_sheet_no_triple t rl cl v).
  - by right.
Qed.

(** Merging, into a new sheet, valid sources that agree wherever two of them
    have a value for the same record and class (as compatible sources do,
    and as a source does with itself): every merge returns, the result is a
    tidy table, and its triples are exactly the triples of the taken records
    of the sources. *)
Theorem merge_all_content (ignore_blanks : bool) (t : string)
    (sources : list openpyxl.Worksheet) :
  Forall (valid_table ignore_blanks) sources →
  (∀ A B, A ∈ sources → B ∈ sources → agree ignore_blanks A B) →
  ∃ d', merge_all ignore_blanks (openpyxl.create_sheet t) sources = (d', Ok tt)
    ∧ tidy d'
    ∧ ∀ rl cl v,
        triple d' rl cl v
        ↔ ∃ A, A ∈ sources ∧ taken ignore_blanks (Some rl) = true ∧ triple A rl cl v.
Proof. apply merge_all_union. Qed.

(** The order in which such sources are merged, and merging one of them
    more than once, makes no difference to the triples of the result. *)
Theorem merge_all_order (ignore_blanks : bool) (t : string)
    (l1 l2 : list openpyxl.Worksheet) :
  Forall (valid_table ignore_blanks) l1 →
  (∀ A B, A ∈ l1 → B ∈ l1 → agree ignore_blanks A B) →
  (∀ A, A ∈ l1 ↔ A ∈ l2) →
  ∃ d1 d2,
    merge_all ignore_blanks (openpyxl.create_sheet t) l1 = (d1, Ok tt)
    ∧ merge_all ignore_blanks (openpyxl.create_sheet t) l2 = (d2, Ok tt)
    ∧ ∀ rl cl v, triple d1 rl cl v ↔ triple d2 rl cl v.
Proof.
  intros Hvalid Hpair Hsame.
  destruct (merge_all_union ignore_blanks t l1 Hvalid Hpair) as (d1 & Hrun1 & _ & Htr1).
  destruct (merge_all_union ignore_blanks t l2) as (d2 & Hrun2 & _ & Htr2).
  { rewrite Forall_forall in Hvalid |- *. intros A HA. by apply Hvalid, Hsame. }
  { intros A B HA HB. apply Hpair; by apply Hsame. }
  exists d1, d2. split_and!; [done..|]. intros rl cl v. rewrite Htr1, Htr2.
  by setoid_rewrite Hsame.
Qed.

Section two_sources.
Import openpyxl xutils.

Lemma disjoint_records_compatible ignore_blanks a b :
  forallb (fun o => bool_decide (o = None ∨ o ∉ record_names b)) (record_names a) = true →
  compatible ignore_blanks a b.
Proof.
  intros Hall rl cl _ Ha _ Hb _. rewrite forallb_forall in Hall.
  apply list_elem_of_In, Hall, bool_decide_eq_true in Ha as [?|?]; done.
Qed.

Lemma pairwise_agree_two ignore_blanks a b :
  valid_table ignore_blanks a → valid_table ignore_blanks b →
  compatible ignore_blanks a b → compatible ignore_blanks b a →
  ∀ A B, A ∈ [a; b] → B ∈ [a; b] → agree ignore_blanks A B.
Proof.
  intros Ha Hb Hab Hba A B HA HB.
  apply elem_of_cons in HA as [->|HA%list_elem_of_singleton];
    apply elem_of_cons in HB as [->|HB%list_elem_of_singleton]; subst.
  - by apply agree_refl.
  - by apply compatible_agree.
  - by apply compatible_agree.
  - by apply agree_refl.
Qed.
End two_sources.

Lemma merge_all_content_witness :
  let a := openpyxl.load_sheet "S" [[None; str "c1"]; [str "r1"; num 1]] in
  let b := openpyxl.load_sheet "S" [[None; str "c1"; str "c2"]; [str "r2"; num 2; num 3]] in
  ∃ d', merge_all false (openpyxl.create_sheet "S") [a; b] = (d', Ok tt)
    ∧ tidy d'
    ∧ ∀ rl cl v,
        triple d' rl cl v
        ↔ ∃ A, A ∈ [a; b] ∧ taken false (Some rl) = true ∧ triple A rl cl v.
Proof.
  intros a b.
  assert (valid_table false a) as Ha by (apply valid_tableb_spec; vm_compute; reflexivity).
  assert (valid_table false b) as Hb by (apply valid_tableb_spec; vm_compute; reflexivity).
  apply (merge_all_content false "S" [a; b]).
  - apply List.Forall_cons; [done|apply List.Forall_cons; [done|apply List.Forall_nil]].
  - apply pairwise_agree_two; [done|done| |];
      apply disjoint_records_compatible; vm_compute; reflexivity.
Defined.

Lemma merge_all_order_witness :
  let a := openpyxl.load_sheet "S" [[None; str "c1"]; [str "r1"; num 1]] in
  let b := openpyxl.load_sheet "S" [[None; str "c1"; str "c2"]; [str "r2"; num 2; num 3]] in
  ∃ d1 d2,
    merge_all false (openpyxl.create_sheet "S") [a; b] = (d1, Ok tt)
    ∧ merge_all false (openpyxl.create_sheet "S") [b; a; b] = (d2, Ok tt)
    ∧ ∀ rl cl v, triple d1 rl cl v ↔ triple d2 rl cl v.
Proof.
  intros a b.
  assert (valid_table false a) as Ha by (apply valid_tableb_spec; vm_compute; reflexivity).
  assert (valid_table false b) as Hb by (apply valid_tableb_spec; vm_compute; reflexivity).
  apply (merge_all_order false "S" [a; b] [b; a; b]).
  - apply List.Forall_cons; [done|apply List.Forall_cons; [done|apply List.Forall_nil]].
  - apply pairwise_agree_two; [done|done| |];
      apply disjoint_records_compatible; vm_compute; reflexivity.
  - intros A. rewrite !elem_of_cons, !elem_of_nil. tauto.
Defined.

(** * More tests that run on a given sheet *)

Section checks_more.
Import openpyxl xutils.

Lemma self_closeb_spec ws : self_closeb ws = true → self_close ws.
Proof.
  unfold self_closeb, self_close. rewrite forallb_forall. intros Hall r c x Hr Hc Hx.
  assert (value_at ws r c ≠ None) as Hin by congruence.
  unfold value_at in Hin.
  destruct (_cells ws !! (r, c)) as [o|] eqn:Hk; [|done].
  assert (is_Some (_cells ws !! (r, c))) as Hk' by by rewrite Hk.
  apply elem_of_keys, list_elem_of_In, Hall in Hk'. cbn [fst snd] in Hk'.
  destruct (Nat.ltb_spec r 2); [lia|]. destruct (Nat.ltb_spec c 2); [lia|].
  rewrite Hx in Hk'. by destruct (isclose x x) as [[]|].
Qed.

Lemma close_tob_spec dst rl cl v :
  close_tob dst rl cl v = true →
  ∃ v', triple dst rl cl v' ∧ isclose v v' = Ok true.
Proof.
  unfold close_tob. rewrite existsb_exists.
  intros (r & Hr%list_elem_of_In%elem_of_range & Hex).
  apply existsb_exists in Hex as (c & Hc%list_elem_of_In%elem_of_range & Hrc).
  rewrite !andb_true_iff, !bool_decide_eq_true in Hrc. destruct Hrc as [[Hrl Hcl] Hv].
  destruct (value_at dst r c) as [v'|] eqn:Hv'; [|done].
  exists v'. split; [exists r, c; split_and!; [lia|lia|done..]|].
  by destruct (isclose v v') as [[]|].
Qed.

Lemma coversb_spec ignore_blanks dst src :
  coversb ignore_blanks dst src = true → covers ignore_blanks dst src.
Proof.
  unfold coversb. rewrite !andb_true_iff, !forallb_forall.
  intros [[Hrec Hcls] Hval]. split.
  - intros rl Ht Hin. apply list_elem_of_In, Hrec in Hin.
    rewrite Ht in Hin. by apply bool_decide_eq_true in Hin.
  - intros cl Hin. apply list_elem_of_In, Hcls, bool_decide_eq_true in Hin as [?|?]; done.
  - intros rl cl v Ht (r & c & Hr & Hc & Hrl & Hcl & Hv).
    destruct (value_at_in_box src r c) as [? ?]; [congruence|].
    assert (In r (range 2 (max_row src + 1))) as Hir
      by (apply list_elem_of_In, elem_of_range; lia).
    apply Hval in Hir. rewrite forallb_forall in Hir.
    assert (In c (range 2 (max_column src + 1))) as Hic
      by (apply list_elem_of_In, elem_of_range; lia).
    apply Hir in Hic. rewrite Hrl, Hcl, Hv, Ht in Hic. by apply close_tob_spec.
Qed.

Lemma compatible_disjoint ignore_blanks a b :
  compatible ignore_blanks a b → disjoint ignore_blanks a b.
Proof.
  intros Hc rl cl v v' Ht (r & c & Hr & Hcc & Hrl & Hcl & _)
    (r' & c' & Hr' & Hcc' & Hrl' & Hcl' & _).
  apply (Hc rl cl Ht).
  - apply (record_name_elem a r); [lia|done].
  - apply (class_name_elem a c); [lia|done].
  - apply (record_name_elem b r'); [lia|done].
  - apply (class_name_elem b c'); [lia|done].
Qed.
End checks_more.

(** * [math.isclose] on a number and itself *)

Section rounding.
Variables prec emax : Z.

Lemma shr_1_nonneg mrs : 0 ≤ shr_m mrs → 0 ≤ shr_m (shr_1 mrs).
Proof. destruct mrs as [[|[p|p|]|p] r s]; simpl; lia. Qed.

Lemma iter_pos_nonneg n : ∀ mrs,
  0 ≤ shr_m mrs → 0 ≤ shr_m (SpecFloat.iter_pos shr_1 n mrs).
Proof.
  induction n as [n IH|n IH|]; intros mrs Hm; simpl.
  - by apply IH, IH, shr_1_nonneg.
  - by apply IH, IH.
  - by apply shr_1_nonneg.
Qed.

Lemma shr_fexp_nonneg m e l :
  0 ≤ m → 0 ≤ shr_m (shr_fexp prec emax m e l).1.
Proof.
  intros Hm. unfold shr_fexp, shr.
  assert (0 ≤ shr_m (shr_record_of_loc m l)) by by destruct l as [|[]].
  destruct (fexp prec emax (Zdigits2 m + e) - e); [done| |done].
  by apply iter_pos_nonneg.
Qed.

Lemma round_nearest_even_nonneg m l : 0 ≤ m → 0 ≤ round_nearest_even m l.
Proof.
  intros Hm. destruct l as [|[]]; simpl; [done| |done|lia].
  destruct (Z.even m); lia.
Qed.

(** Rounding a mantissa that is not negative gives no NaN. *)
Lemma binary_round_aux_not_nan sx mx ex lx :
  0 ≤ mx → binary_round_aux prec emax sx mx ex lx ≠ S754_nan.
Proof.
  intros Hm. unfold binary_round_aux.
  pose proof (shr_fexp_nonneg mx ex lx Hm) as H1.
  destruct (shr_fexp prec emax mx ex lx) as [mrs' e']. cbn [fst] in H1.
  pose proof (shr_fexp_nonneg _ e' loc_Exact
                (round_nearest_even_nonneg _ (loc_of_shr_record mrs') H1)) as H2.
  destruct (shr_fexp prec emax _ e' loc_Exact) as [mrs'' e'']. cbn [fst] in H2.
  destruct (shr_m mrs'') as [|m|m]; [done| |lia].
  by destruct (e'' <=? emax - prec).
Qed.

Lemma SFdiv_finite_not_nan sx mx sy my :
  SFdiv prec emax (S754_finite sx mx 0) (S754_finite sy my 0) ≠ S754_nan.
Proof.
  unfold SFdiv, SFdiv_core_binary.
  set (s := 0 - 0 - _).
  set (m' := match s with Z.pos _ => Z.shiftl (Z.pos mx) s | 0 => Z.pos mx | _ => 0 end).
  assert (0 ≤ m') as Hm'.
  { unfold m'. destruct s; [lia| |lia]. by apply Z.shiftl_nonneg. }
  pose proof (Z_div_mod m' (Z.pos my) ltac:(lia)) as Hdiv.
  destruct (Z.div_eucl m' (Z.pos my)) as [q r]. destruct Hdiv as [Hq Hr].
  apply binary_round_aux_not_nan. nia.
Qed.

Lemma SFeqb_refl d : d ≠ S754_nan → SFeqb d d = true.
Proof.
  intros Hd. unfold SFeqb, SFcompare.
  destruct d as [s|[]| |[] m e]; try done;
    by rewrite Z.compare_refl, Pos.compare_cont_refl.
Qed.
End rounding.

Lemma to_double_not_nan q : to_double q ≠ S754_nan.
Proof.
  unfold to_double. destruct (Qnum q); [done|apply SFdiv_finite_not_nan..].
Qed.

(** A number that converts to a double is close to itself. *)
Lemma isclose_refl x d : as_double x = Ok d → isclose x x = Ok true.
Proof.
  intros Hd. unfold isclose. rewrite Hd. unfold isclose_double.
  rewrite SFeqb_refl; [done|].
  destruct x as [?|q]; [done|]. simpl in Hd.
  destruct (is_infinity (to_double q)); [done|]. injection Hd as <-.
  apply to_double_not_nan.
Qed.

Lemma numeric_self_close ws : numeric ws → self_close ws.
Proof.
  intros Hnum r c x Hr Hc Hx. destruct (Hnum r c x Hr Hc Hx) as [d Hd].
  by eapply isclose_refl.
Qed.

(** * clear_found_values on the result of a merge *)

Lemma map_result_fmap {E A B} (f : A → result E B) (g : A → B) (l : list A) :
  (∀ x, x ∈ l → f x = Ok (g x)) → map_result f l = Ok (g <$> l).
Proof.
  induction l as [|x l IH]; intros Hf; simpl; [done|].
  rewrite (Hf x) by left. rewrite IH; [done|]. intros y Hy. apply Hf. by right.
Qed.

Section clear_spec.
Import openpyxl xutils.
Variable ignore_blanks : bool.
Variables m a : Worksheet.
Hypothesis Htidy : tidy m.
Hypothesis Hvalid : valid_table ignore_blanks a.
Hypothesis Hrecords : ∀ rl,
  taken ignore_blanks (Some rl) = true → Some rl ∈ record_names a →
  Some rl ∈ record_names m.
Hypothesis Hclasses : ∀ cl, Some cl ∈ class_names a → Some cl ∈ class_names m.
Hypothesis Hclose : ∀ rl cl v,
  taken ignore_blanks (Some rl) = true → triple a rl cl v →
  ∃ v', triple m rl cl v' ∧ isclose v v' = Ok true.

Local Abbreviation inv := (clear_inv ignore_blanks m a).
Local Abbreviation at_ := (src_at ignore_blanks a).

(** The records of the source as they are looked up. *)
Lemma masked_records :
  (if ignore_blanks
   then map_result (fun r => b ← utils.is_blank r; Ok (if b : bool then None else r))
          (record_names a)
   else Ok (record_names a))
  = Ok (masked ignore_blanks <$> record_names a).
Proof.
  clear Htidy Hrecords Hclasses Hclose.
  unfold masked, taken. destruct ignore_blanks eqn:Eib.
  - apply map_result_fmap. intros [x|] Hx; [|done].
    apply list_elem_of_lookup_1 in Hx as [i Hx].
    apply record_names_lookup in Hx as [_ Hx].
    destruct (valid_strings _ _ Hvalid (i + 1) x eq_refl) as [str ->]; [done|].
    simpl. by destruct (contains _ _).
  - f_equal. rewrite <-(list_fmap_id (record_names a)) at 1.
    apply list_fmap_ext. by intros ? [x|] _.
Qed.

Lemma masked_in_records o :
  o ∈ record_names a → masked ignore_blanks o ∈ record_names m.
Proof.
  intros Ho. unfold masked. destruct (taken ignore_blanks o) eqn:Ht.
  - destruct o as [rl|]; [by apply Hrecords|done].
  - apply (list_elem_of_lookup_2 _ 0). rewrite record_names_head by apply Htidy.
    by rewrite (tidy_corner _ Htidy).
Qed.

Lemma class_in_classes o : o ∈ class_names a → o ∈ class_names m.
Proof.
  intros Ho. destruct o as [cl|]; [by apply Hclasses|].
  apply (None_in_dst_classes m Htidy).
Qed.

Lemma index_in (l : list (option value)) o :
  o ∈ l → ∃ k, list_index l o = Some k.
Proof. intros Ho. by apply list_index_is_Some in Ho as [k Hk]; exists k. Qed.

(** The two maps of [clear_found_values]. *)
Local Abbreviation position names :=
  (fun o : option value => (fun k => (k + 1)%nat) <$> list_index names o).

Lemma record_map :
  map_result (clear_mapper (record_names m)) (masked ignore_blanks <$> record_names a)
  = Ok (position (record_names m) <$> (masked ignore_blanks <$> record_names a)).
Proof.
  apply map_result_fmap. intros o Ho%list_elem_of_fmap.
  destruct Ho as (o' & -> & Ho'). unfold clear_mapper.
  destruct (index_in _ _ (masked_in_records _ Ho')) as [k ->]. done.
Qed.

Lemma class_map :
  map_result
    (fun v => match (if false then trim_class_name v else Ok v) with
              | Raise _ => Raise LipidClassError
              | Ok v' =>
                  match clear_mapper (class_names m) v' with
                  | Ok k => Ok k
                  | Raise w => Raise (LipidClass w)
                  end
              end) (class_names a)
  = Ok (position (class_names m) <$> class_names a).
Proof.
  apply map_result_fmap. intros o Ho. unfold clear_mapper.
  destruct (index_in _ _ (class_in_classes _ Ho)) as [k ->]. done.
Qed.

Local Abbreviation before nr nc i j :=
  ((i + 1 <? nr) || ((i + 1 =? nr) && (j + 1 <? nc)))%nat.

Lemma clear_inv_bounds nr nc nr' nc' s :
  inv nr nc s →
  (∀ orl ocl, at_ nr' nc' orl ocl = at_ nr nc orl ocl) →
  inv nr' nc' s.
Proof.
  intros (Hsrc & Hwf & Ht & Hcls & Hrec & Hval) Hb.
  split_and!; try done. intros r c Hr Hc. by rewrite Hb, (Hval r c Hr Hc).
Qed.

Lemma clear_inv_source nr nc s ws :
  inv nr nc s → same_table a ws → inv nr nc (mkSheets (destination s) ws).
Proof. intros (_ & ?) ?. by split. Qed.

(** A cell of the source without a value. *)
Lemma src_at_empty_cell nr c orl ocl :
  value_at a nr c = None → at_ nr (c + 1) orl ocl = at_ nr c orl ocl.
Proof.
  intros Hv. unfold src_at. destruct orl as [rl|], ocl as [cl|]; try done.
  destruct (list_index (record_names a) (Some rl)) as [i|]; [|done].
  destruct (list_index (class_names a) (Some cl)) as [j|]; [|done].
  destruct (taken ignore_blanks (Some rl)); [|done]. cbn [andb].
  destruct (Nat.ltb_spec (i + 1) nr); [done|]. cbn [orb].
  destruct (Nat.eqb_spec (i + 1) nr) as [Hi|]; [|done]. cbn [andb].
  destruct (Nat.ltb_spec (j + 1) (c + 1)), (Nat.ltb_spec (j + 1) c); try (done || lia).
  replace (j + 1)%nat with c by lia. by rewrite Hi, Hv.
Qed.

Lemma src_at_row_start nr orl ocl : at_ nr 2 orl ocl = at_ nr 0 orl ocl.
Proof.
  apply src_at_ext. intros i [|j] rl cl _ _ Hj _ _.
  - by destruct (src_corner_class ignore_blanks a Hvalid cl).
  - f_equal. destruct (Nat.eqb_spec (i + 1) nr); [|done]. cbn [andb].
    destruct (Nat.ltb_spec (S j + 1) 0), (Nat.ltb_spec (S j + 1) 2); lia || done.
Qed.

Lemma src_at_row_end nr orl ocl :
  at_ (nr + 1) 0 orl ocl = at_ nr (max_column a + 1) orl ocl.
Proof.
  apply src_at_ext. intros i j rl cl _ _ Hj _ _.
  apply lookup_lt_Some in Hj. rewrite length_class_names in Hj.
  destruct (Nat.ltb_spec (i + 1) nr), (Nat.ltb_spec (i + 1) (nr + 1)),
    (Nat.eqb_spec (i + 1) nr), (Nat.eqb_spec (i + 1) (nr + 1)),
    (Nat.ltb_spec (j + 1) (max_column a + 1)), (Nat.ltb_spec (j + 1) 0);
    simpl; lia || done.
Qed.

Lemma src_at_skip_row nr orl ocl :
  (1 ≤ nr)%nat → taken ignore_blanks (value_at a nr 1) = false →
  at_ (nr + 1) 0 orl ocl = at_ nr 0 orl ocl.
Proof.
  intros Hnr Ht. apply src_at_ext. intros i j rl cl Hrl Hi Hj _ _.
  destruct (Nat.ltb_spec (i + 1) nr), (Nat.ltb_spec (i + 1) (nr + 1)),
    (Nat.eqb_spec (i + 1) nr), (Nat.eqb_spec (i + 1) (nr + 1)),
    (Nat.ltb_spec (j + 1) 0); simpl; try (lia || done).
  apply record_names_lookup in Hi as [_ Hi]. subst nr. rewrite <-Hi in Ht. congruence.
Qed.

(** Emptying a cell inside the bounds. *)
Lemma null_cell_run d r c :
  well_formed d → (1 ≤ r ≤ max_row d)%nat → (1 ≤ c ≤ max_column d)%nat →
  ∃ d', (k ← cell r c None; assign_value k None) d = (d', Ok tt)
    ∧ well_formed d' ∧ title d' = title d
    ∧ max_row d' = max_row d ∧ max_column d' = max_column d
    ∧ ∀ r' c', value_at d' r' c'
               = if decide ((r', c') = (r, c)) then None else value_at d r' c'.
Proof.
  intros Hwf Hr Hc. eexists. split.
  { rewrite SE_bind_unfold, cell_None_run by lia. reflexivity. }
  pose proof (settled_get_cell d r c ltac:(lia) ltac:(lia) Hwf) as Hset.
  pose proof (lookup_get_cell d r c) as Hl.
  pose proof (settled_set_value _ r c None Hl Hset) as [Hwf' _].
  split_and!; [done| | | |].
  - simpl. by rewrite title_get_cell.
  - rewrite (max_row_insert (_get_cell r c d) _ r c None) by (done || lia).
    rewrite max_row_get_cell by lia. lia.
  - rewrite (max_column_insert (_get_cell r c d) _ r c None) by (done || lia).
    rewrite max_column_get_cell by lia. lia.
  - intros r' c'. rewrite value_at_set_value_eq, value_at_get_cell. done.
Qed.

(** Where the names of the source are in the destination. *)
Lemma position_of_record rl :
  taken ignore_blanks (Some rl) = true → Some rl ∈ record_names a →
  ∃ k, list_index (record_names m) (Some rl) = Some k
    ∧ (1 ≤ k < max_row m)%nat ∧ value_at m (k + 1) 1 = Some rl.
Proof.
  intros Ht Hin. destruct (index_in _ _ (Hrecords rl Ht Hin)) as [k Hk].
  exists k. split; [done|]. apply list_index_Some in Hk as [Hk _].
  apply record_names_lookup in Hk as [Hlt Hk]. split_and!; [|done|done].
  destruct k; [|lia]. simpl in Hk. rewrite (tidy_corner _ Htidy) in Hk. done.
Qed.

Lemma position_of_class cl :
  Some cl ∈ class_names a →
  ∃ k, list_index (class_names m) (Some cl) = Some k
    ∧ (1 ≤ k < max_column m)%nat ∧ value_at m 1 (k + 1) = Some cl.
Proof.
  intros Hin. destruct (index_in _ _ (Hclasses cl Hin)) as [k Hk].
  exists k. split; [done|]. apply list_index_Some in Hk as [Hk _].
  apply class_names_lookup in Hk as [Hlt Hk]. split_and!; [|done|done].
  destruct k; [|lia]. simpl in Hk. rewrite (tidy_corner _ Htidy) in Hk. done.
Qed.

(** In a tidy table two names tell the cell. *)
Lemma tidy_position r c r' c' rl cl :
  value_at m r 1 = Some rl → value_at m r' 1 = Some rl →
  value_at m 1 c = Some cl → value_at m 1 c' = Some cl →
  (1 ≤ r)%nat → (1 ≤ r')%nat → (1 ≤ c)%nat → (1 ≤ c')%nat →
  r = r' ∧ c = c'.
Proof.
  intros Hr Hr' Hc Hc' ? ? ? ?.
  destruct (value_at_in_box m r 1) as [? _]; [congruence|].
  destruct (value_at_in_box m r' 1) as [? _]; [congruence|].
  destruct (value_at_in_box m 1 c) as [_ ?]; [congruence|].
  destruct (value_at_in_box m 1 c') as [_ ?]; [congruence|].
  assert (record_names m !! (r - 1)%nat = Some (Some rl)) as Hn1.
  { apply record_names_lookup. split; [lia|]. by replace (r - 1 + 1)%nat with r by lia. }
  assert (record_names m !! (r' - 1)%nat = Some (Some rl)) as Hn2.
  { apply record_names_lookup. split; [lia|]. by replace (r' - 1 + 1)%nat with r' by lia. }
  assert (class_names m !! (c - 1)%nat = Some (Some cl)) as Hn3.
  { apply class_names_lookup. split; [lia|]. by replace (c - 1 + 1)%nat with c by lia. }
  assert (class_names m !! (c' - 1)%nat = Some (Some cl)) as Hn4.
  { apply class_names_lookup. split; [lia|]. by replace (c' - 1 + 1)%nat with c' by lia. }
  pose proof (NoDup_lookup _ _ _ _ (tidy_records_NoDup _ Htidy) Hn1 Hn2).
  pose proof (NoDup_lookup _ _ _ _ (tidy_classes_NoDup _ Htidy) Hn3 Hn4). lia.
Qed.

Local Abbreviation rmap :=
  (position (record_names m) <$> (masked ignore_blanks <$> record_names a)).
Local Abbreviation cmap := (position (class_names m) <$> class_names a).

Lemma clear_inv_max nr nc s :
  inv nr nc s →
  max_row (destination s) = max_row m ∧ max_column (destination s) = max_column m.
Proof.
  intros (_ & _ & _ & Hcls & Hrec & _).
  apply (f_equal length) in Hcls, Hrec.
  by rewrite !length_class_names in Hcls; rewrite !length_record_names in Hrec.
Qed.

(** A cell of the source with a value: the cell of the destination for
    the same names holds the value, and is emptied. *)
Lemma clear_cell_nulls nr c x sv s :
  (2 ≤ nr ≤ max_row a)%nat → (2 ≤ c ≤ max_column a)%nat →
  inv nr c s →
  value_at a nr 1 = Some x → taken ignore_blanks (Some x) = true →
  value_at a nr c = Some sv →
  returns (clear_cell rmap cmap nr c sv) s (fun s' _ => inv nr (c + 1) s').
Proof.
  intros Hnr Hc Hinv Hx Ht Hsv.
  destruct (value_at a 1 c) as [cl|] eqn:Hcl.
  2:{ rewrite (valid_columns _ _ Hvalid nr c) in Hsv; [done|lia|done|by rewrite Hx]. }
  assert (record_names a !! (nr - 1)%nat = Some (Some x)) as Hxi.
  { apply record_names_lookup. split; [lia|]. by replace (nr - 1 + 1)%nat with nr by lia. }
  assert (class_names a !! (c - 1)%nat = Some (Some cl)) as Hci.
  { apply class_names_lookup. split; [lia|]. by replace (c - 1 + 1)%nat with c by lia. }
  destruct (position_of_record x Ht) as (kr & Hkr & Hkrb & Hkrv).
  { by eapply list_elem_of_lookup_2. }
  destruct (position_of_class cl) as (kc & Hkc & Hkcb & Hkcv).
  { by eapply list_elem_of_lookup_2. }
  assert (rmap !! (nr - 1)%nat = Some (Some (kr + 1)%nat)) as Hr.
  { rewrite !list_lookup_fmap, Hxi. simpl. unfold masked. rewrite Ht, Hkr. done. }
  assert (cmap !! (c - 1)%nat = Some (Some (kc + 1)%nat)) as Hcm.
  { rewrite !list_lookup_fmap, Hci. simpl. by rewrite Hkc. }
  destruct (src_at_hit ignore_blanks a Hvalid nr (c - 1) x cl) as [Hbefore Hafter];
    [lia|done..|].
  replace (c - 1 + 1)%nat with c in Hbefore, Hafter by lia.
  replace (c - 1 + 2)%nat with (c + 1)%nat in Hafter by lia.
  assert (∃ dv, value_at m (kr + 1) (kc + 1) = Some dv ∧ isclose sv dv = Ok true)
    as (dv & Hmv & Hdv).
  { destruct (Hclose x cl sv Ht)
      as (dv & (r' & c' & Hr' & Hc' & Hrl' & Hcl' & Hv') & Hdv).
    { exists nr, c. split_and!; [lia|lia|done..]. }
    exists dv. split; [|done].
    destruct (tidy_position r' c' (kr + 1) (kc + 1) x cl) as [-> ->];
      [done..|lia|lia|lia|lia|done]. }
  destruct (clear_inv_max _ _ _ Hinv) as [Hmr Hmc].
  destruct Hinv as (Hsrc & Hwf & Htitle & Hcls & Hrec & Hval).
  set (d := destination s) in *.
  unfold returns, post.
  rewrite (clear_cell_step rmap cmap nr c sv (kr + 1) (kc + 1) s)
    by (done || lia).
  fold d. rewrite (Hval (kr + 1)%nat (kc + 1)%nat) by lia.
  rewrite Hkrv, Hkcv, Hbefore, Hmv.
  rewrite SE_bind_unfold, Hdv. cbn [lift_result].
  pose proof (well_formed_get_cell d (kr + 1) (kc + 1) ltac:(lia) ltac:(lia) Hwf) as Hwf1.
  destruct (same_table_get_cell d (kr + 1) (kc + 1)) as (Ht1 & Hmr1 & Hmc1 & Hv1);
    [lia..|].
  destruct (null_cell_run (_get_cell (kr + 1) (kc + 1) d) (kr + 1) (kc + 1) Hwf1)
    as (d' & Hrun & Hwf' & Ht' & Hmr' & Hmc' & Hv'); [lia..|].
  unfold on_destination. cbn [destination source]. rewrite Hrun.
  unfold clear_inv. cbn [destination source].
  assert (∀ r' c', (r' = 1 ∨ c' = 1)%nat → value_at d' r' c' = value_at d r' c')
    as Hnames.
  { intros r' c' Hrc. rewrite Hv', decide_False by (intros [=]; lia).
    symmetry. apply Hv1. }
  split_and!; [done|done|congruence| | |].
  - rewrite <-Hcls. apply class_names_same; [congruence|].
    intros c'. apply Hnames. by left.
  - rewrite <-Hrec. apply record_names_same; [congruence|].
    intros r'. apply Hnames. by right.
  - intros r' c' Hr' Hc'. rewrite Hv'.
    destruct (decide ((r', c') = ((kr + 1)%nat, (kc + 1)%nat))) as [[= -> ->]|Hne].
    + by rewrite Hkrv, Hkcv, Hafter, Hsv.
    + rewrite <-Hv1, (Hval r' c') by done.
      replace (c + 1)%nat with (c - 1 + 2)%nat by lia.
      rewrite src_at_miss; [by replace (c - 1 + 1)%nat with c by lia|lia|].
      intros (rl & cl' & Hrl & Hcl' & Hrl2 & Hcl2).
      rewrite Hxi in Hrl2. rewrite Hci in Hcl2.
      injection Hrl2 as <-. injection Hcl2 as <-.
      destruct (tidy_position r' c' (kr + 1) (kc + 1) x cl) as [-> ->];
        [done..|lia|lia|lia|lia|]. done.
Qed.

Lemma clear_read nr nc s r c (Q : Sheets → option value → Prop) :
  inv nr nc s → (1 ≤ r ≤ max_row a)%nat → (1 ≤ c ≤ max_column a)%nat →
  (∀ s', inv nr nc s' → Q s' (value_at a r c)) →
  post (on_source (read_cell r c)) s Q (fun _ _ => False).
Proof.
  intros Hinv Hr Hc HQ. unfold post. rewrite on_source_read_cell by lia.
  destruct (Hinv) as ((Ht & Hmr & Hmc & Hv) & _). rewrite <-Hv. apply HQ.
  apply clear_inv_source; [done|]. etrans; [by split_and!|].
  apply same_table_get_cell; lia.
Qed.

Lemma clear_get_source nr nc s (Q : Sheets → Worksheet → Prop) :
  inv nr nc s → (∀ ws, same_table a ws → Q s ws) →
  post (gets source) s Q (fun _ _ => False).
Proof. intros Hinv HQ. apply post_gets, HQ, Hinv. Qed.

(** The body of the loop over the rows of the source. *)
Lemma clear_row nr s :
  (2 ≤ nr ≤ max_row a)%nat → inv nr 0 s →
  returns
    (h ← on_source (read_cell nr 1);
     match h with
     | None => mret tt
     | Some _ =>
         bl ← (if ignore_blanks then
                 h' ← on_source (read_cell nr 1);
                 lift_result (utils.is_blank h')
               else mret false);
         if bl : bool then mret tt
         else
           src ← gets source;
           for_ (range 2 (max_column src + 1)) (fun src_col =>
             src_val ← on_source (read_cell nr src_col);
             match src_val with
             | None => mret tt
             | Some sv => clear_cell rmap cmap nr src_col sv
             end)
     end) s
    (fun s' _ => inv (nr + 1) 0 s').
Proof.
  intros Hnr Hinv. unfold returns.
  pose proof (well_formed_bounds _ (valid_well_formed _ _ Hvalid)) as [_ Hmc].
  apply post_bind, (clear_read nr 0); [done|lia|lia|]. intros s1 Hinv1.
  destruct (value_at a nr 1) as [x|] eqn:Hx.
  2:{ apply post_ret. apply (clear_inv_bounds _ _ _ _ _ Hinv1).
      intros. apply src_at_skip_row; [lia|by rewrite Hx]. }
  apply post_bind.
  eapply post_mono with
    (Q := fun s' bl => inv nr 0 s' ∧ taken ignore_blanks (Some x) = negb bl)
    (R := fun _ _ => False); [| |done].
  { pose proof (fun Q => clear_read nr 0 s1 nr 1 Q Hinv1 ltac:(lia) ltac:(lia))
      as Hread.
    rewrite Hx in Hread. unfold taken, inv in *.
    destruct ignore_blanks eqn:Eib; [|by apply post_ret].
    apply post_bind, Hread. intros s2 Hinv2. apply post_lift_result.
    destruct (valid_strings _ _ Hvalid nr x eq_refl Hx) as [str ->]. by simpl. }
  intros s2 bl [Hinv2 Hbl]. destruct bl.
  { apply post_ret. apply (clear_inv_bounds _ _ _ _ _ Hinv2).
    intros. apply src_at_skip_row; [lia|by rewrite Hx]. }
  apply post_bind, (clear_get_source nr 0); [done|]. intros src (_ & _ & <- & _).
  eapply post_mono with (R := fun _ _ => False);
    [apply (post_for_prefix (fun l1 s' => inv nr (length l1 + 2) s'))| |done].
  - apply (clear_inv_bounds _ _ _ _ _ Hinv2). intros. apply src_at_row_start.
  - intros l1 c l2 s' Hl Hinv'. apply range_split in Hl as [-> Hlt].
    replace (length l1 + 2)%nat with (2 + length l1)%nat in Hinv' by lia.
    apply post_bind, (clear_read nr (2 + length l1)); [done|lia|lia|].
    intros s'' Hinv''. rewrite length_app. cbn [length].
    replace (length l1 + 1 + 2)%nat with (2 + length l1 + 1)%nat by lia.
    destruct (value_at a nr (2 + length l1)) as [sv|] eqn:Hsv.
    + apply (clear_cell_nulls nr (2 + length l1) x sv); [lia|lia|done..].
    + apply post_ret. apply (clear_inv_bounds _ _ _ _ _ Hinv'').
      intros. by apply src_at_empty_cell.
  - intros s' [] Hinv'. rewrite length_range in Hinv'.
    apply (clear_inv_bounds _ _ _ _ _ Hinv'). intros.
    replace (max_column a + 1 - 2 + 2)%nat with (max_column a + 1)%nat by lia.
    apply src_at_row_end.
Qed.

(** [clear_found_values] returns, and the cells for which the source has
    a value are emptied. *)
Lemma clear_run :
  ∃ s', clear_found_values ignore_blanks false (mkSheets m a) = (s', Ok tt)
        ∧ inv (max_row a + 1) 0 s'.
Proof.
  pose proof (well_formed_bounds _ (valid_well_formed _ _ Hvalid)) as [Hmr Hmc].
  enough (returns (clear_found_values ignore_blanks false) (mkSheets m a)
            (fun s' _ => inv (max_row a + 1) 0 s')) as Hret.
  { unfold returns, post in Hret.
    destruct (clear_found_values ignore_blanks false (mkSheets m a)) as [s' [[]|e]];
      [|done].
    by exists s'. }
  unfold returns, clear_found_values.
  apply post_bind, post_on_destination. cbn [destination source].
  eapply post_mono;
    [apply post_and; [apply (post_get_record_names m m); [apply Htidy|done]
                     |apply (keeps_get_record_names well_formed); [keeps|apply Htidy]]
    | |by intros ? ? [? _]].
  intros d1 ? [[Hd1 ->] Hwf1].
  apply post_bind, post_on_source. cbn [destination source].
  eapply post_mono with (R := fun _ _ => False);
    [apply (post_get_record_names a a); [apply Hvalid|done]| |done].
  intros a1 ? [Ha1 ->].
  apply post_bind, post_on_destination. cbn [destination source].
  eapply post_mono;
    [apply post_and; [apply (post_get_class_names m d1); [apply Htidy|done]
                     |apply (keeps_get_class_names well_formed); [keeps|done]]
    | |by intros ? ? [? _]].
  intros d2 ? [[Hd2 ->] Hwf2].
  apply post_bind, post_on_source. cbn [destination source].
  eapply post_mono with (R := fun _ _ => False);
    [apply (post_get_class_names a a1); [apply Hvalid|done]| |done].
  intros a2 ? [Ha2 ->].
  apply post_bind.
  eapply post_mono with
    (Q := fun s' l => s' = mkSheets d2 a2 ∧ l = masked ignore_blanks <$> record_names a)
    (R := fun _ _ => False); [| |done].
  { pose proof masked_records as Hmasked.
    destruct ignore_blanks.
    - apply post_lift_result. by rewrite Hmasked.
    - apply post_ret. split; [done|]. by injection Hmasked. }
  intros ? ? [-> ->]. rewrite record_map. apply post_bind, post_ret.
  rewrite class_map. apply post_bind, post_ret.
  assert (inv 2 0 (mkSheets d2 a2)) as Hinv.
  { split_and!; try done.
    - destruct Hd2 as (? & _). by symmetry.
    - symmetry. by apply same_table_class_names.
    - symmetry. by apply same_table_record_names.
    - intros r c Hr Hc. cbn [destination].
      destruct (at_ 2 0 _ _) as [v|] eqn:Hat.
      + apply src_at_Some in Hat as (i & j & rl & cl & _ & _ & _ & Hi & _ & Hb & _).
        destruct i as [|i]; [by destruct (src_corner_record ignore_blanks a Hvalid rl)|].
        destruct (Nat.ltb_spec (S i + 1) 2); [lia|].
        destruct (Nat.ltb_spec (j + 1) 0); [lia|]. by rewrite andb_false_r in Hb.
      + symmetry. apply Hd2. }
  apply post_bind, (clear_get_source 2 0); [done|]. intros src (_ & <- & _ & _).
  eapply post_mono with (R := fun _ _ => False);
    [apply (post_for_prefix (fun l1 s' => inv (length l1 + 2) 0 s'))| |done].
  - done.
  - intros l1 r l2 s' Hl Hinv'. apply range_split in Hl as [-> Hlt].
    eapply post_mono with (R := fun _ _ => False);
      [apply (clear_row (2 + length l1)); [lia|]| |done].
    + by replace (2 + length l1)%nat with (length l1 + 2)%nat by lia.
    + intros s'' [] Hinv''. rewrite length_app. cbn [length].
      by replace (length l1 + 1 + 2)%nat with (2 + length l1 + 1)%nat by lia.
  - intros s' [] Hinv'. rewrite length_range in Hinv'.
    by replace (max_row a + 1 - 2 + 2)%nat with (max_row a + 1)%nat in Hinv' by lia.
Qed.

Local Abbreviation full := (src_at ignore_blanks a (max_row a + 1) 0).

(** The names of the destination stay where they are. *)
Lemma clear_inv_names nr nc s r c :
  inv nr nc s → (1 ≤ r)%nat → (1 ≤ c)%nat →
  value_at (destination s) r 1 = value_at m r 1
  ∧ value_at (destination s) 1 c = value_at m 1 c.
Proof.
  intros Hinv Hr Hc. destruct (clear_inv_max _ _ _ Hinv) as [Hmr Hmc].
  destruct Hinv as (_ & _ & _ & Hcls & Hrec & _).
  set (d := destination s) in *. split.
  - destruct (decide (r ≤ max_row m)%nat) as [Hle|Hgt].
    + pose proof (lookup_record_names d (r - 1) ltac:(lia)) as Hd.
      rewrite Hrec, lookup_record_names in Hd by lia.
      replace (r - 1 + 1)%nat with r in Hd by lia. congruence.
    + destruct (value_at d r 1) eqn:E1;
        [destruct (value_at_in_box d r 1); [congruence|lia]|].
      destruct (value_at m r 1) eqn:E2;
        [destruct (value_at_in_box m r 1); [congruence|lia]|done].
  - destruct (decide (c ≤ max_column m)%nat) as [Hle|Hgt].
    + pose proof (lookup_class_names d (c - 1) ltac:(lia)) as Hd.
      rewrite Hcls, lookup_class_names in Hd by lia.
      replace (c - 1 + 1)%nat with c in Hd by lia. congruence.
    + destruct (value_at d 1 c) eqn:E1;
        [destruct (value_at_in_box d 1 c); [congruence|lia]|].
      destruct (value_at m 1 c) eqn:E2;
        [destruct (value_at_in_box m 1 c); [congruence|lia]|done].
Qed.

(** The destination is a tidy table throughout. *)
Lemma clear_inv_tidy nr nc s : inv nr nc s → tidy (destination s).
Proof.
  intros Hinv. destruct (clear_inv_max _ _ _ Hinv) as [Hmr Hmc].
  pose proof (fun r c => clear_inv_names nr nc s r c Hinv) as Hn.
  destruct Hinv as (_ & Hwf & _ & Hcls & Hrec & _).
  split; [done| | | | |].
  - destruct (Hn 1 1)%nat as [-> _]; [lia..|]. apply Htidy.
  - intros c Hc. destruct (Hn 1 c)%nat as [_ ->]; [lia..|].
    apply Htidy. lia.
  - rewrite Hcls. apply Htidy.
  - intros r Hr. destruct (Hn r 1)%nat as [-> _]; [lia..|].
    apply Htidy. lia.
  - rewrite Hrec. apply Htidy.
Qed.

(** The content of the destination at the end: what it had, less the
    cells for which the source has a value. *)
Lemma clear_inv_triples s rl cl v :
  inv (max_row a + 1) 0 s →
  triple (destination s) rl cl v
  ↔ triple m rl cl v
    ∧ ¬ (taken ignore_blanks (Some rl) = true ∧ ∃ v', triple a rl cl v').
Proof.
  intros Hinv.
  pose proof (fun r c => clear_inv_names _ _ s r c Hinv) as Hn.
  destruct Hinv as (_ & _ & _ & _ & _ & Hval).
  set (d := destination s) in *. split.
  - intros (r & c & Hr & Hc & Hrl & Hcl & Hv).
    destruct (Hn r c) as [Hnr Hnc]; [lia..|]. rewrite Hnr in Hrl. rewrite Hnc in Hcl.
    pose proof (Hval r c Hr Hc) as Hrc. rewrite Hrl, Hcl, Hv in Hrc.
    destruct (full (Some rl) (Some cl)) as [w|] eqn:Hfull; [done|]. split.
    + by exists r, c.
    + intros [Htk [v' Hv']].
      assert (full (Some rl) (Some cl) = Some v') as Hf
        by by apply (full_triple ignore_blanks a Hvalid).
      congruence.
  - intros [(r & c & Hr & Hc & Hrl & Hcl & Hv) Hno].
    destruct (Hn r c) as [Hnr Hnc]; [lia..|].
    exists r, c. split_and!; [done|done|congruence|congruence|].
    rewrite Hval, Hrl, Hcl by done.
    destruct (full (Some rl) (Some cl)) as [w|] eqn:Hfull; [|done].
    destruct Hno. apply (full_triple ignore_blanks a Hvalid) in Hfull as [? ?].
    split; [done|by exists w].
Qed.
End clear_spec.

(** * What [clear_found_values] leaves *)

(** [clear_found_values], without trimming of class names, on a tidy
    destination and a valid source that the destination covers: the call
    returns, the destination is a tidy table with the names it had, and its
    triples are those it had less the ones for which the source has a value
    in a record that is taken. *)
Theorem clear_found_values_content (ignore_blanks : bool)
    (dst src : openpyxl.Worksheet) :
  tidy dst → valid_table ignore_blanks src → covers ignore_blanks dst src →
  ∃ s', xutils.clear_found_values ignore_blanks false (xutils.mkSheets dst src)
        = (s', Ok tt)
    ∧ tidy (xutils.destination s')
    ∧ class_names (xutils.destination s') = class_names dst
    ∧ record_names (xutils.destination s') = record_names dst
    ∧ ∀ rl cl v,
        triple (xutils.destination s') rl cl v
        ↔ triple dst rl cl v
          ∧ ¬ (taken ignore_blanks (Some rl) = true ∧ ∃ v', triple src rl cl v').
Proof.
  intros Htidy Hvalid [Hrec Hcls Hval].
  destruct (clear_run ignore_blanks dst src Htidy Hvalid Hrec Hcls Hval)
    as (s' & Hrun & Hinv).
  exists s'. split; [done|]. split; [by eapply clear_inv_tidy|].
  split; [apply Hinv|]. split; [apply Hinv|].
  intros rl cl v. by apply clear_inv_triples.
Qed.

Lemma clear_found_values_content_witness :
  let dst := openpyxl.load_sheet "S"
               [[None; str "c1"; str "c2"]; [str "r1"; num 1; None]; [str "r2"; None; num 2]] in
  let src := openpyxl.load_sheet "S" [[None; str "c2"]; [str "r2"; num 2]] in
  ∃ s', xutils.clear_found_values false false (xutils.mkSheets dst src) = (s', Ok tt)
    ∧ tidy (xutils.destination s')
    ∧ class_names (xutils.destination s') = class_names dst
    ∧ record_names (xutils.destination s') = record_names dst
    ∧ ∀ rl cl v,
        triple (xutils.destination s') rl cl v
        ↔ triple dst rl cl v
          ∧ ¬ (taken false (Some rl) = true ∧ ∃ v', triple src rl cl v').
Proof.
  intros dst src. apply (clear_found_values_content false dst src).
  - apply tidyb_spec. vm_compute. reflexivity.
  - apply valid_tableb_spec. vm_compute. reflexivity.
  - apply coversb_spec. vm_compute. reflexivity.
Defined.

(** * When [clear_found_values] raises *)

Local Abbreviation fails m s := (post m s (fun _ _ => False) (fun _ _ => True)).

Lemma post_any {S A} (m : SE S A) s : post m s (fun _ _ => True) (fun _ _ => True).
Proof. unfold post. by destruct (m s) as [s' [x|e]]. Qed.

(** A loop raises when its body keeps an invariant under which the body
    raises for one of the elements. *)
Lemma for_fails {S A} `{EqDecision A} (I : S → Prop) (l : list A)
    (body : A → SE S unit) s x :
  I s → x ∈ l →
  (∀ y, y ∈ l → keeps I (body y)) →
  (∀ s', I s' → fails (body x) s') →
  fails (for_ l body) s.
Proof.
  intros Hs Hx Hkeeps Hbad.
  eapply post_mono;
    [apply (post_for_prefix (fun l1 s' => I s' ∧ x ∉ l1))| |done].
  - split; [done|]. by intros ?%elem_of_nil.
  - intros l1 y l2 s' Hl [Hs' Hl1]. destruct (decide (y = x)) as [->|Hne].
    + eapply post_mono; [by apply Hbad|done|done].
    + eapply post_mono; [apply (Hkeeps y); [|done]|..].
      * rewrite Hl. apply elem_of_app. right. left.
      * intros s'' [] Hs''. split; [done|].
        intros [?|?%list_elem_of_singleton]%elem_of_app; done.
      * done.
  - by intros s' [] [_ Hnot].
Qed.

Lemma map_result_lookup {E A B} (f : A → result E B) (l : list A) ys i x :
  map_result f l = Ok ys → l !! i = Some x → ∃ y, ys !! i = Some y ∧ f x = Ok y.
Proof.
  intros HF%map_result_Ok Hi.
  destruct (Forall2_lookup_l _ _ _ _ _ HF Hi) as (y & ? & ?). by exists y.
Qed.

Section clear_fails.
Import openpyxl xutils.
Variable ignore_blanks : bool.
Variables m a : Worksheet.
Hypothesis Htidy : tidy m.
Hypothesis Hvalid : valid_table ignore_blanks a.

Local Abbreviation I := (clearing m a).
Local Abbreviation inside n :=
  (Forall (fun o : option nat => ∀ k, o = Some k → (1 ≤ k ≤ n)%nat)).

Lemma clearing_read s r c (Q : Sheets → option value → Prop) R :
  I s → (1 ≤ r ≤ max_row a)%nat → (1 ≤ c ≤ max_column a)%nat →
  (∀ s', I s' → Q s' (value_at a r c)) →
  post (on_source (read_cell r c)) s Q R.
Proof.
  intros (Hs & Hwf & He) Hr Hc HQ. unfold post.
  destruct (Hs) as (Ht & Hmr & Hmc & Hv).
  rewrite on_source_read_cell by lia. rewrite <-Hv. apply HQ.
  split_and!; [|done..]. cbn [source].
  etrans; [done|]. apply same_table_get_cell; lia.
Qed.

(** A cell of the source for which the destination has no value that
    [isclose] accepts. *)
Lemma clear_cell_fails rmap cmap r c v kr kc s :
  I s →
  rmap !! (r - 1)%nat = Some (Some (kr + 1)%nat) →
  cmap !! (c - 1)%nat = Some (Some (kc + 1)%nat) →
  (∀ dv, value_at m (kr + 1) (kc + 1) = Some dv → isclose v dv ≠ Ok true) →
  fails (clear_cell rmap cmap r c v) s.
Proof.
  intros (Hs & Hwf & (_ & _ & _ & He)) Hr Hc Hbad. unfold post.
  rewrite (clear_cell_step rmap cmap r c v (kr + 1) (kc + 1) s) by (done || lia).
  destruct (value_at (destination s) (kr + 1) (kc + 1)) as [dv|] eqn:Hdv.
  - destruct (He (kr + 1) (kc + 1))%nat as [Hm|Hn]; [|congruence].
    rewrite Hdv in Hm. symmetry in Hm. specialize (Hbad dv Hm).
    apply post_bind, post_lift_result.
    destruct (isclose v dv) as [[]|e]; [done| |done].
    apply post_bind.
    eapply post_mono; [apply post_any|by intros; apply post_raise|done].
  - apply post_bind.
    eapply post_mono; [apply post_any|by intros; apply post_raise|done].
Qed.

(** The bodies of the two loops keep [clearing]. *)
Lemma keeps_clear_column rmap cmap r c :
  inside (max_row m) rmap → inside (max_column m) cmap →
  (1 ≤ r ≤ max_row a)%nat → (1 ≤ c ≤ max_column a)%nat →
  keeps I
    (src_val ← on_source (read_cell r c);
     match src_val with
     | None => mret tt
     | Some sv => clear_cell rmap cmap r c sv
     end).
Proof.
  intros Hrmap Hcmap Hr Hc.
  apply keeps_bind; [apply keeps_clearing_source_cell; lia|].
  intros src_val. destruct src_val as [sv|]; [|keeps].
  apply keeps_clearing_clear_cell; done.
Qed.

Local Abbreviation row_body rmap cmap nr :=
  (h ← on_source (read_cell nr 1);
   match h with
   | None => mret tt
   | Some _ =>
       bl ← (if ignore_blanks then
               h' ← on_source (read_cell nr 1);
               lift_result (utils.is_blank h')
             else mret false);
       if bl : bool then mret tt
       else
         src ← gets source;
         for_ (range 2 (max_column src + 1)) (fun src_col =>
           src_val ← on_source (read_cell nr src_col);
           match src_val with
           | None => mret tt
           | Some sv => clear_cell rmap cmap nr src_col sv
           end)
   end).

Lemma keeps_clear_row rmap cmap r :
  inside (max_row m) rmap → inside (max_column m) cmap →
  (1 ≤ r ≤ max_row a)%nat →
  keeps I (row_body rmap cmap r).
Proof.
  intros Hrmap Hcmap Hr.
  pose proof (well_formed_bounds _ (valid_well_formed _ _ Hvalid)) as [Hmr Hmc].
  apply keeps_bind; [apply keeps_clearing_source_cell; lia|].
  intros h. destruct h as [h|]; [|keeps].
  apply keeps_bind.
  { destruct ignore_blanks; [|keeps].
    apply keeps_bind; [apply keeps_clearing_source_cell; lia|]. keeps. }
  intros bl. destruct bl; [keeps|].
  apply keeps_bind_with with (P := fun src => same_table a src).
  { intros s Hs. apply post_gets. split; [done|apply Hs]. }
  intros src' (_ & _ & Hsc & _). rewrite <-Hsc.
  apply keeps_for. intros src_col Hcol%elem_of_range.
  apply keeps_clear_column; [done..|lia].
Qed.

(** The row of such a cell. *)
Lemma clear_row_fails rmap cmap r c rl v kr kc s :
  inside (max_row m) rmap → inside (max_column m) cmap →
  I s → (2 ≤ r)%nat → (2 ≤ c)%nat →
  value_at a r 1 = Some rl → taken ignore_blanks (Some rl) = true →
  value_at a r c = Some v →
  rmap !! (r - 1)%nat = Some (Some (kr + 1)%nat) →
  cmap !! (c - 1)%nat = Some (Some (kc + 1)%nat) →
  (∀ dv, value_at m (kr + 1) (kc + 1) = Some dv → isclose v dv ≠ Ok true) →
  fails (row_body rmap cmap r) s.
Proof.
  intros Hrmap Hcmap Hs Hr Hc Hrl Ht Hv Hri Hci Hbad.
  destruct (value_at_in_box a r c) as [Hrlt Hclt]; [congruence|].
  apply post_bind, clearing_read; [done|lia|lia|]. intros s1 Hs1. rewrite Hrl.
  apply post_bind.
  eapply post_mono with (Q := fun s' bl => I s' ∧ bl = false)
    (R := fun _ _ => True); [| |done].
  { pose proof (fun Q R => clearing_read s1 r 1 Q R Hs1 ltac:(lia) ltac:(lia))
      as Hread.
    rewrite Hrl in Hread. unfold taken in Ht.
    destruct ignore_blanks; [|by apply post_ret].
    apply post_bind, Hread. intros s2 Hs2. apply post_lift_result.
    destruct (utils.is_blank (Some rl)) as [[]|]; done. }
  intros s2 ? [Hs2 ->].
  apply post_bind, post_gets. destruct (Hs2) as ((_ & _ & <- & _) & _).
  apply (for_fails I _ _ _ c); [done|apply elem_of_range; lia| |].
  - intros y Hy%elem_of_range. apply keeps_clear_column; [done..|lia|lia].
  - intros s3 Hs3. apply post_bind, clearing_read; [done|lia|lia|].
    intros s4 Hs4. rewrite Hv. by apply (clear_cell_fails _ _ _ _ _ kr kc).
Qed.

Lemma mapper_position {E} (f : option value → result E (option nat))
    (names l : list (option value)) ys i x :
  (∀ v y, f v = Ok y → clear_mapper names v = Ok y) →
  map_result f l = Ok ys → l !! i = Some x →
  ∃ k, ys !! i = Some (Some (k + 1)%nat) ∧ list_index names x = Some k.
Proof.
  intros Hf Hys Hi. destruct (map_result_lookup _ _ _ _ _ Hys Hi) as (y & Hy & Hx).
  apply Hf in Hx. unfold clear_mapper in Hx.
  destruct (list_index names x) as [k|]; [|done]. injection Hx as <-. by exists k.
Qed.

Lemma mapper_inside {E} (f : option value → result E (option nat))
    (names l : list (option value)) ys :
  (∀ v y, f v = Ok y → clear_mapper names v = Ok y) →
  map_result f l = Ok ys → inside (length names) ys.
Proof.
  intros Hf Hys. apply Forall_forall. intros o Ho.
  apply list_elem_of_lookup_1 in Ho as [i Hi].
  apply map_result_Ok in Hys.
  destruct (Forall2_lookup_r _ _ _ _ _ Hys Hi) as (x & _ & Hx).
  apply Hf in Hx. unfold clear_mapper in Hx.
  destruct (list_index names x) as [k|] eqn:Hk; [|done]. injection Hx as <-.
  intros k' [= <-]. apply list_index_Some in Hk as [Hk _].
  apply lookup_lt_Some in Hk. lia.
Qed.

(** [clear_found_values] raises when the destination lacks a name of the
    source, or a value that [isclose] accepts for a value of the source. *)
Lemma clear_fails :
  (∃ rl, taken ignore_blanks (Some rl) = true ∧ Some rl ∈ record_names a
         ∧ Some rl ∉ record_names m)
  ∨ (∃ cl, Some cl ∈ class_names a ∧ Some cl ∉ class_names m)
  ∨ (∃ r c rl cl v, (2 ≤ r)%nat ∧ (2 ≤ c)%nat
       ∧ value_at a r 1 = Some rl ∧ taken ignore_blanks (Some rl) = true
       ∧ value_at a 1 c = Some cl ∧ value_at a r c = Some v
       ∧ ∀ kr kc dv, list_index (record_names m) (Some rl) = Some kr →
           list_index (class_names m) (Some cl) = Some kc →
           value_at m (kr + 1) (kc + 1) = Some dv → isclose v dv ≠ Ok true) →
  fails (clear_found_values ignore_blanks false) (mkSheets m a).
Proof.
  intros Hbad.
  pose proof (well_formed_bounds _ (valid_well_formed _ _ Hvalid)) as [Hmr Hmc].
  unfold clear_found_values.
  apply post_bind, post_on_destination. cbn [destination source].
  eapply post_mono;
    [apply post_and; [apply (post_get_record_names m m); [apply Htidy|done]
                     |apply (keeps_get_record_names well_formed); [keeps|apply Htidy]]
    | |done].
  intros d1 ? [[Hd1 ->] Hwf1].
  apply post_bind, post_on_source. cbn [destination source].
  eapply post_mono;
    [apply (post_get_record_names a a); [apply Hvalid|done]| |done].
  intros a1 ? [Ha1 ->].
  apply post_bind, post_on_destination. cbn [destination source].
  eapply post_mono;
    [apply post_and; [apply (post_get_class_names m d1); [apply Htidy|done]
                     |apply (keeps_get_class_names well_formed); [keeps|done]]
    | |done].
  intros d2 ? [[Hd2 ->] Hwf2].
  apply post_bind, post_on_source. cbn [destination source].
  eapply post_mono;
    [apply (post_get_class_names a a1); [apply Hvalid|done]| |done].
  intros a2 ? [Ha2 ->].
  apply post_bind.
  eapply post_mono with
    (Q := fun s' l => s' = mkSheets d2 a2 ∧ l = masked ignore_blanks <$> record_names a)
    (R := fun _ _ => True); [| |done].
  { pose proof (masked_records ignore_blanks a Hvalid) as Hmasked.
    destruct ignore_blanks.
    - apply post_lift_result. by rewrite Hmasked.
    - apply post_ret. split; [done|]. by injection Hmasked. }
  intros ? ? [-> ->].
  destruct (map_result (clear_mapper (record_names m))
              (masked ignore_blanks <$> record_names a)) as [rmap|e] eqn:Hrmap;
    [|by apply post_bind, post_raise].
  apply post_bind, post_ret.
  match goal with |- context [map_result ?f (class_names a)] =>
    set (fc := f);
    assert (∀ v y, fc v = Ok y → clear_mapper (class_names m) v = Ok y) as Hfc;
    [|destruct (map_result fc (class_names a)) as [cmap|e] eqn:Hcmap;
      [|by apply post_bind, post_raise]]
  end.
  { intros v y. unfold fc.
    destruct (clear_mapper (class_names m) v); [by intros [= ->]|done]. }
  apply post_bind, post_ret.
  assert (∀ v y, clear_mapper (record_names m) v = Ok y
                 → clear_mapper (record_names m) v = Ok y) as Hfr by done.
  pose proof (mapper_inside _ _ _ _ Hfr Hrmap) as Hrin.
  pose proof (mapper_inside _ _ _ _ Hfc Hcmap) as Hcin.
  rewrite length_record_names in Hrin. rewrite length_class_names in Hcin.
  assert (∀ rl i, taken ignore_blanks (Some rl) = true →
            record_names a !! i = Some (Some rl) →
            ∃ k, rmap !! i = Some (Some (k + 1)%nat)
                 ∧ list_index (record_names m) (Some rl) = Some k) as Hrpos.
  { intros rl i Ht Hi. apply (mapper_position _ _ _ _ _ _ Hfr Hrmap).
    rewrite list_lookup_fmap, Hi. simpl. unfold masked. by rewrite Ht. }
  destruct Hbad as [(rl & Ht & Hin & Hnot)|[(cl & Hin & Hnot)|Hcell]].
  - destruct (list_elem_of_lookup_1 _ _ Hin) as [i Hi].
    destruct (Hrpos rl i Ht Hi) as (k & _ & Hk%list_index_Some).
    destruct Hnot. by eapply list_elem_of_lookup_2, Hk.
  - destruct (list_elem_of_lookup_1 _ _ Hin) as [i Hi].
    destruct (mapper_position _ _ _ _ _ _ Hfc Hcmap Hi) as (k & _ & Hk%list_index_Some).
    destruct Hnot. by eapply list_elem_of_lookup_2, Hk.
  - destruct Hcell as (r & c & rl & cl & v & Hr & Hc & Hrl & Ht & Hcl & Hv & Hno).
    destruct (value_at_in_box a r c) as [Hrlt Hclt]; [congruence|].
    destruct (Hrpos rl (r - 1)%nat Ht) as (kr & Hri & Hkr).
    { apply record_names_lookup. split; [lia|].
      by replace (r - 1 + 1)%nat with r by lia. }
    destruct (mapper_position _ _ _ _ (c - 1)%nat (Some cl) Hfc Hcmap)
      as (kc & Hci & Hkc).
    { apply class_names_lookup. split; [lia|].
      by replace (c - 1 + 1)%nat with c by lia. }
    apply post_bind, post_gets. cbn [source].
    destruct (Ha2) as (_ & <- & _ & _).
    apply (for_fails I _ _ _ r).
    + split_and!; [done|done|]. destruct Hd2 as (? & ? & ? & Hv2).
      split_and!; [done..|]. intros r' c'. by left.
    + apply elem_of_range. lia.
    + intros y Hy%elem_of_range. apply keeps_clear_row; [done..|lia].
    + intros s' Hs'. apply (clear_row_fails _ _ r c rl v kr kc); try done.
      intros dv. by apply Hno.
Qed.
End clear_fails.

(** * When [clear_found_values] returns *)

(** [clear_found_values], without trimming of class names, on a tidy
    destination and a valid source, returns exactly when the destination
    covers the source: it has the names of the records that are taken and
    of the classes of the source, and for every value of such a record a
    value that [isclose] accepts, for the same names.  In every other case
    the call raises. *)
Theorem clear_found_values_returns_iff (ignore_blanks : bool)
    (dst src : openpyxl.Worksheet) :
  tidy dst → valid_table ignore_blanks src →
  (∃ s', xutils.clear_found_values ignore_blanks false (xutils.mkSheets dst src)
         = (s', Ok tt))
  ↔ covers ignore_blanks dst src.
Proof.
  intros Htidy Hvalid. split.
  - intros [s' Hrun].
    pose proof (clear_fails ignore_blanks dst src Htidy Hvalid) as Hfails.
    unfold post in Hfails. rewrite Hrun in Hfails.
    assert (∀ rl, taken ignore_blanks (Some rl) = true →
              Some rl ∈ record_names src → Some rl ∈ record_names dst) as Hrec.
    { intros rl Ht Hin. destruct (decide (Some rl ∈ record_names dst)); [done|].
      destruct Hfails. left. by exists rl. }
    assert (∀ cl, Some cl ∈ class_names src → Some cl ∈ class_names dst) as Hcls.
    { intros cl Hin. destruct (decide (Some cl ∈ class_names dst)); [done|].
      destruct Hfails. right; left. by exists cl. }
    split; [done|done|].
    intros rl cl v Ht (r & c & Hr & Hc & Hrl & Hcl & Hv).
    destruct (position_of_record ignore_blanks dst src Htidy Hrec rl Ht)
      as (kr & Hkr & Hkrb & Hkrv).
    { apply (record_name_elem src r); [lia|done]. }
    destruct (position_of_class dst src Htidy Hcls cl) as (kc & Hkc & Hkcb & Hkcv).
    { apply (class_name_elem src c); [lia|done]. }
    destruct (openpyxl.value_at dst (kr + 1) (kc + 1)) as [dv|] eqn:Hdv.
    + destruct (isclose v dv) as [[]|e] eqn:Hclose.
      * exists dv. split; [|done].
        exists (kr + 1)%nat, (kc + 1)%nat. split_and!; [lia|lia|done..].
      * destruct Hfails. right; right. exists r, c, rl, cl, v.
        split_and!; [done..|]. intros kr' kc' dv' Hkr' Hkc' Hdv'.
        assert (kr' = kr) as -> by congruence.
        assert (kc' = kc) as -> by congruence. congruence.
      * destruct Hfails. right; right. exists r, c, rl, cl, v.
        split_and!; [done..|]. intros kr' kc' dv' Hkr' Hkc' Hdv'.
        assert (kr' = kr) as -> by congruence.
        assert (kc' = kc) as -> by congruence. congruence.
    + destruct Hfails. right; right. exists r, c, rl, cl, v.
      split_and!; [done..|]. intros kr' kc' dv' Hkr' Hkc' Hdv'.
      assert (kr' = kr) as -> by congruence.
      assert (kc' = kc) as -> by congruence. congruence.
  - intros [Hrec Hcls Hval].
    destruct (clear_run ignore_blanks dst src Htidy Hvalid Hrec Hcls Hval)
      as (s' & Hrun & _).
    by exists s'.
Qed.

Lemma clear_found_values_returns_iff_witness :
  let dst := openpyxl.load_sheet "S"
               [[None; str "c1"; str "c2"]; [str "r1"; num 1; None]; [str "r2"; None; num 2]] in
  let src := openpyxl.load_sheet "S" [[None; str "c2"]; [str "r2"; num 2]] in
  (∃ s', xutils.clear_found_values false false (xutils.mkSheets dst src) = (s', Ok tt))
  ↔ covers false dst src.
Proof.
  intros dst src. apply (clear_found_values_returns_iff false dst src).
  - apply tidyb_spec. vm_compute. reflexivity.
  - apply valid_tableb_spec. vm_compute. reflexivity.
Defined.

(** * Merging, then clearing what the sources have *)

Section round_trip.
Import openpyxl xutils.
Variable ignore_blanks : bool.

(** The names of the destination and of the sources are names of the
    result of the merges. *)
Lemma merge_all_names (l : list Worksheet) : ∀ d0 d',
  tidy d0 → Forall (valid_table ignore_blanks) l →
  merge_all ignore_blanks d0 l = (d', Ok tt) →
  (∀ o, o ∈ record_names d0 → o ∈ record_names d')
  ∧ (∀ o, o ∈ class_names d0 → o ∈ class_names d')
  ∧ ∀ A, A ∈ l →
      (∀ rl, taken ignore_blanks (Some rl) = true →
             Some rl ∈ record_names A → Some rl ∈ record_names d')
      ∧ (∀ cl, Some cl ∈ class_names A → Some cl ∈ class_names d').
Proof.
  induction l as [|A l IH]; intros d0 d' Htidy Hvalid Hrun.
  { injection Hrun as <-. split_and!; [done..|]. by intros A ?%elem_of_nil. }
  apply Forall_cons in Hvalid as [HvA Hvalid]. simpl in Hrun.
  destruct (merge_run ignore_blanks d0 A Htidy HvA) as (s1 & Hm & Hinv).
  rewrite Hm in Hrun.
  pose proof (merge_inv_tidy _ _ _ Htidy HvA _ Hinv) as Htidy1.
  destruct (IH _ _ Htidy1 Hvalid Hrun) as (Hr1 & Hc1 & Hl).
  destruct Hinv as (_ & _ & _ & Hcls & Hrec & _).
  split_and!.
  - intros o Ho. apply Hr1. rewrite Hrec. unfold merged_records.
    apply elem_of_app. by left.
  - intros o Ho. apply Hc1. rewrite Hcls. unfold merged_classes.
    apply elem_of_app. by left.
  - intros B [->|HB]%elem_of_cons; [|by apply Hl]. split.
    + intros rl Ht Hin. apply Hr1. rewrite Hrec. by apply merged_records_elem.
    + intros cl Hin. apply Hc1. rewrite Hcls. by apply merged_classes_elem.
Qed.

(** The consecutive calls of [clear_found_values] for sources that the
    destination covers, and of which no two have a value for the same
    record and class. *)
Lemma verify_all_triples (l : list Worksheet) : ∀ m,
  tidy m → Forall (valid_table ignore_blanks) l →
  Forall (covers ignore_blanks m) l → pairwise_disjoint ignore_blanks l →
  ∃ d', verify_all ignore_blanks false m l = (d', Ok tt)
    ∧ tidy d'
    ∧ class_names d' = class_names m
    ∧ record_names d' = record_names m
    ∧ ∀ rl cl v,
        triple d' rl cl v
        ↔ triple m rl cl v
          ∧ ¬ ∃ A, A ∈ l ∧ taken ignore_blanks (Some rl) = true
                   ∧ ∃ v', triple A rl cl v'.
Proof.
  induction l as [|A l IH]; intros m Htidy Hvalid Hcov Hdis.
  { exists m. split_and!; [done..|]. intros rl cl v. split; [|by intros [? _]].
    intros Hm. split; [done|]. by intros (A & ?%elem_of_nil & _). }
  apply Forall_cons in Hvalid as [HvA Hvalid].
  apply Forall_cons in Hcov as [[Hrec Hcls Hval] Hcov].
  destruct Hdis as [HdA Hdis]. simpl.
  destruct (clear_run ignore_blanks m A Htidy HvA Hrec Hcls Hval)
    as (s1 & -> & Hinv).
  pose proof (clear_inv_tidy _ _ _ Htidy _ _ _ Hinv) as Htidy1.
  pose proof (fun rl cl v =>
    clear_inv_triples _ _ _ HvA s1 rl cl v Hinv) as Htr1.
  assert (class_names (destination s1) = class_names m) as Hcls1 by apply Hinv.
  assert (record_names (destination s1) = record_names m) as Hrec1 by apply Hinv.
  destruct (IH (destination s1)) as (d' & Hrun & Htidy' & Hcls' & Hrec' & Htr');
    [done|done| |done|].
  { rewrite Forall_forall in Hcov, HdA |- *. intros B HB.
    destruct (Hcov B HB) as [HrB HcB HvB]. split.
    - rewrite Hrec1. apply HrB.
    - rewrite Hcls1. apply HcB.
    - intros rl cl v Ht Hv. destruct (HvB rl cl v Ht Hv) as (v' & Hm & Hclose).
      exists v'. split; [|done]. apply Htr1. split; [done|].
      intros [_ [w Hw]]. apply (HdA B HB rl cl w v Ht Hw Hv). }
  exists d'. split; [done|]. split; [done|].
  split; [congruence|]. split; [congruence|].
  intros rl cl v. rewrite Htr', Htr1. split.
  - intros [[Hm HA] Hl]. split; [done|].
    intros (B & [->|HB]%elem_of_cons & Ht & Hw).
    + by apply HA.
    + apply Hl. by exists B.
  - intros [Hm Hno]. split_and!; [done| |].
    + intros [Ht Hw]. apply Hno. exists A. split; [left|done].
    + intros (B & HB & Ht & Hw). apply Hno. exists B. split; [by right|done].
Qed.

(** A tidy table without a triple has an empty data set. *)
Lemma no_triple_empty d :
  tidy d → (∀ rl cl v, ¬ triple d rl cl v) →
  ∀ r c, (2 ≤ r)%nat → (2 ≤ c)%nat → value_at d r c = None.
Proof.
  intros Htidy Hno r c Hr Hc.
  destruct (value_at d r c) as [v|] eqn:Hv; [|done].
  destruct (value_at_in_box d r c) as [Hrlt Hclt]; [congruence|].
  pose proof (tidy_records _ Htidy r ltac:(lia)) as Hrl.
  pose proof (tidy_classes _ Htidy c ltac:(lia)) as Hcl.
  destruct (value_at d r 1) as [rl|] eqn:Erl; [|done].
  destruct (value_at d 1 c) as [cl|] eqn:Ecl; [|done].
  destruct (Hno rl cl v). by exists r, c.
Qed.
End round_trip.

Section agreeing.
Import openpyxl xutils.

Lemma pairwise_disjoint_agree ignore_blanks (l : list Worksheet) :
  Forall (valid_table ignore_blanks) l → pairwise_disjoint ignore_blanks l →
  ∀ A B, A ∈ l → B ∈ l → agree ignore_blanks A B.
Proof.
  induction l as [|a l IH]; intros Hvalid Hdis A B HA HB.
  { by apply elem_of_nil in HA. }
  apply Forall_cons in Hvalid as [Hva Hvalid]. destruct Hdis as [Hda Hdis].
  rewrite Forall_forall in Hda.
  apply elem_of_cons in HA as [->|HA]; apply elem_of_cons in HB as [->|HB].
  - by apply agree_refl.
  - intros rl cl v v' Ht Hv Hv'. destruct (Hda B HB rl cl v v' Ht Hv Hv').
  - intros rl cl v v' Ht Hv Hv'. destruct (Hda A HA rl cl v' v Ht Hv' Hv).
  - by apply IH.
Qed.

End agreeing.

(** The idea of [clear_found_values]: when a sheet is the merge, into a new
    sheet, of valid sources whose values [isclose] finds close to themselves
    and of which no two have a value for the same record and class, the
    consecutive calls of [clear_found_values] for these sources all return,
    and leave a sheet for which [has_empty_data_set] returns [True]. *)
Theorem merge_then_clear_leaves_nothing (ignore_blanks : bool) (t : string)
    (sources : list openpyxl.Worksheet) :
  Forall (valid_table ignore_blanks) sources →
  Forall self_close sources →
  pairwise_disjoint ignore_blanks sources →
  ∃ d d' d'',
    merge_all ignore_blanks (openpyxl.create_sheet t) sources = (d, Ok tt)
    ∧ verify_all ignore_blanks false d sources = (d', Ok tt)
    ∧ xutils.has_empty_data_set d' = (d'', Ok true).
Proof.
  intros Hvalid Hnum Hdis.
  destruct (merge_all_triples ignore_blanks sources (openpyxl.create_sheet t))
    as (d & Hmerge & Htidy & _ & Htr);
    [apply create_sheet_tidy|done| |by apply pairwise_disjoint_agree|].
  { intros A _ rl cl v v' _ Hv. by destruct (create_sheet_no_triple t rl cl v). }
  destruct (merge_all_names ignore_blanks sources _ _ (create_sheet_tidy t)
              Hvalid Hmerge) as (_ & _ & Hnames).
  destruct (verify_all_triples ignore_blanks sources d)
    as (d' & Hverify & Htidy' & _ & _ & Htr'); [done|done| |done|].
  { rewrite Forall_forall in Hnum |- *. intros A HA.
    destruct (Hnames A HA) as [Hrec Hcls]. split; [done|done|].
    intros rl cl v Ht Hv. exists v. split.
    - apply Htr. right. by exists A.
    - destruct Hv as (r & c & Hr & Hc & _ & _ & Hv).
      by apply (Hnum A HA r c). }
  assert (∀ rl cl v, ¬ triple d' rl cl v) as Hnone.
  { intros rl cl v [Hd Hno]%Htr'. apply Hno.
    apply Htr in Hd as [Hd|(A & HA & Ht & Hv)].
    - by destruct (create_sheet_no_triple t rl cl v).
    - exists A. split_and!; [done..|]. by exists v. }
  destruct (has_empty_data_set_run d' (tidy_well_formed _ Htidy'))
    as (d'' & b & Hrun & _ & Hb).
  exists d, d', d''. split_and!; [done..|].
  rewrite Hrun. do 2 f_equal. apply Hb. by apply no_triple_empty.
Qed.

Lemma merge_then_clear_leaves_nothing_witness :
  let a := openpyxl.load_sheet "S" [[None; str "c1"]; [str "r1"; num 1]] in
  let b := openpyxl.load_sheet "S" [[None; str "c1"; str "c2"]; [str "r2"; num 2; num 3]] in
  ∃ d d' d'',
    merge_all false (openpyxl.create_sheet "S") [a; b] = (d, Ok tt)
    ∧ verify_all false false d [a; b] = (d', Ok tt)
    ∧ xutils.has_empty_data_set d' = (d'', Ok true).
Proof.
  intros a b.
  apply (merge_then_clear_leaves_nothing false "S" [a; b]).
  - apply List.Forall_cons; [apply valid_tableb_spec; vm_compute; reflexivity|].
    apply List.Forall_cons; [apply valid_tableb_spec; vm_compute; reflexivity|].
    apply List.Forall_nil.
  - apply List.Forall_cons; [apply self_closeb_spec; vm_compute; reflexivity|].
    apply List.Forall_cons; [apply self_closeb_spec; vm_compute; reflexivity|].
    apply List.Forall_nil.
  - split; [|split; [apply List.Forall_nil|exact Logic.I]].
    apply List.Forall_cons; [|apply List.Forall_nil].
    apply compatible_disjoint, disjoint_records_compatible. vm_compute. reflexivity.
Defined.
